(** * Log_Analyzer: field extraction and aggregation over Apache access logs

    A shallow embedding of [Log_Analyzer.py] and the properties of its
    extraction functions ([get_user_agent], [is_bot], [get_ipaddr],
    [get_hour]) and of its two aggregations ([histbyhour], [ipaddreses]).

    Modelling conventions.
    - A Python [str] is a [list ascii], and the model is exact on ASCII
      text. A code above 127 stands for no character in particular: the
      model takes it for neither a digit, a letter, a word character nor
      white space, which is not how Python classes every character outside
      ASCII. A statement whose truth depends on that carries the hypothesis
      that the text, or the character in question, is ASCII ([ascii_text],
      [Chars.is_ascii]).
    - [None] results are [option]; raised exceptions are the [Raise] case of
      [result], and they propagate through the loops exactly as in Python.
    - [dict] is stdpp's [gmap], [set] is [gset]; both are compared
      extensionally, as Python's [==] does.
    - The standard library pieces the program calls ([str.split],
      [str.strip], [str.lower], [re.search], [datetime.strptime]) are
      modelled in the modules [Str], [Re] and [Strptime], after CPython's
      implementation; month names are the English ones of the C locale.
    - [open(filename)] and the iteration over the file are a parameter:
      for a file name, either [None], when [open] raises
      [FileNotFoundError], or the lines that the file, once open, yields.
      The other ways in which opening or decoding a file can fail are not
      modelled, so a statement about a file that is there is a statement
      about [Some lines]. Each loop is stated on the list of lines
      ([histbyhour_lines], [ipaddreses_lines]) and on the file.
    - [test_ipaddresses], [test_hist] and [main] are modelled by what
      escapes them and what [main] logs. [test_doc], which hands the
      docstrings to [doctest], is not modelled. *)

From Stdlib Require Import ZArith Ascii String List.
From stdpp Require Import gmap strings list fin_maps sets.

Local Open Scope char_scope.
Local Open Scope list_scope.

(** Python [str]. *)
Abbreviation str := (list ascii).

(** A string literal as a [str]. *)
Definition lit (s : string) : str := list_ascii_of_string s.

(** ** Exceptions and results *)

Inductive exn : Type :=
| AttributeError      (* [None.group(...)] *)
| TypeError           (* [strptime(None, ...)] *)
| ValueError          (* [strptime] on text that does not fit the format *)
| FileNotFoundError.  (* [open] on a missing file *)

Inductive result (A : Type) : Type :=
| Ok (a : A)
| Raise (e : exn).
Arguments Ok {A} a.
Arguments Raise {A} e.

#[global] Instance result_ret : MRet result := fun A a => Ok a.

#[global] Instance result_bind : MBind result := fun A B f m =>
  match m with
  | Ok a => f a
  | Raise e => Raise e
  end.

(** ** Character classes *)

Module Chars.

Definition code (c : ascii) : nat := nat_of_ascii c.

Definition between (lo hi c : ascii) : bool :=
  ((code lo <=? code c)%nat && (code c <=? code hi)%nat)%bool.

Definition is_digit (c : ascii) : bool := between "0" "9" c.
Definition is_upper (c : ascii) : bool := between "A" "Z" c.
Definition is_lower (c : ascii) : bool := between "a" "z" c.

(** [\w] *)
Definition is_word (c : ascii) : bool :=
  is_digit c || is_upper c || is_lower c || bool_decide (c = "_").

(** [\s] within ASCII: space, tab, newline, vertical tab, form feed,
    carriage return, and the four separators U+001C to U+001F *)
Definition is_space (c : ascii) : bool :=
  bool_decide (c = " ") || between "009" "013" c || between "028" "031" c.

(** The characters on which the classes above are those of Python. *)
Definition is_ascii (c : ascii) : bool := (code c <? 128)%nat.

Definition lower (c : ascii) : ascii :=
  if is_upper c then ascii_of_nat (code c + 32) else c.

Definition digit_val (c : ascii) : Z := Z.of_nat (code c) - 48.

End Chars.

(** ** [str] methods *)

Module Str.

(** [s.lower()] *)
Definition lower (s : str) : str := map Chars.lower s.

(** [s.startswith(p)], returning the rest of [s] when it does. *)
Fixpoint strip_prefix (p s : str) : option str :=
  match p with
  | [] => Some s
  | a :: p' =>
      match s with
      | [] => None
      | b :: s' => if bool_decide (a = b) then strip_prefix p' s' else None
      end
  end.

(** [s.partition(sep)]: the text before the first occurrence of [sep], and
    the text after it when there is one. *)
Fixpoint partition (sep s : str) : str * option str :=
  match strip_prefix sep s with
  | Some rest => ([], Some rest)
  | None =>
      match s with
      | [] => ([], None)
      | c :: s' => let '(a, b) := partition sep s' in (c :: a, b)
      end
  end.

(** [s.split(sep)] for a non-empty [sep]: cut at the first occurrence,
    go on with what follows it. Every cut removes at least one character,
    so [length s] rounds are enough. *)
Fixpoint split_fuel (fuel : nat) (sep s : str) : list str :=
  match partition sep s with
  | (a, None) => [a]
  | (a, Some rest) =>
      match fuel with
      | 0 => [a]
      | S fuel' => a :: split_fuel fuel' sep rest
      end
  end.

Definition split (sep s : str) : list str := split_fuel (length s) sep s.

(** [l[-1]] on a list that [split] returned (never empty). *)
Definition last_item (l : list str) : str := List.last l [].

Definition mem (c : ascii) (chars : str) : bool :=
  existsb (fun d => bool_decide (c = d)) chars.

(** [s.lstrip(chars)], [s.rstrip(chars)], [s.strip(chars)] *)
Fixpoint lstrip (chars s : str) : str :=
  match s with
  | [] => []
  | c :: s' => if mem c chars then lstrip chars s' else s
  end.

Definition rstrip (chars s : str) : str := rev (lstrip chars (rev s)).

Definition strip (chars s : str) : str := rstrip chars (lstrip chars s).

(** [s[i:j]] *)
Definition slice (i j : nat) (s : str) : str := take (j - i) (drop i s).

(** [sub in s] *)
Definition contains (sub s : str) : Prop := exists pre post, s = pre ++ sub ++ post.

End Str.

(** ** Regular expressions: a backtracking matcher in the manner of [re]

    Only the constructs the program's patterns (and the pattern [strptime]
    builds from its format) use. Alternatives are tried left to right,
    repetition is greedy, and the first way of matching that makes the rest
    of the pattern succeed wins. *)

Module Re.

Inductive regex : Type :=
| Eps                          (* the empty pattern *)
| Chr (p : ascii -> bool)      (* one character: a literal, a class, [.] *)
| Bol                          (* [^] *)
| WordB                        (* [\b] *)
| Seq (r1 r2 : regex)          (* [r1r2] *)
| Alt (r1 r2 : regex)          (* [r1|r2] *)
| Star (r : regex)             (* [r*] *)
| Group (i : nat) (r : regex). (* the [i]-th parenthesis *)

(** [r+], [r?] *)
Definition Plus (r : regex) : regex := Seq r (Star r).
Definition Opt (r : regex) : regex := Alt r Eps.

Definition Char (c : ascii) : regex := Chr (fun d => bool_decide (d = c)).
(** [.] matches anything but a newline. *)
Definition Dot : regex := Chr (fun d => negb (bool_decide (d = "010"))).
Definition Digit : regex := Chr Chars.is_digit.

(** The matcher's position in the subject: the text before it (nearest
    character first), the text after it, and the spans of the groups
    closed so far (latest first). *)
Record mstate : Type := MState {
  before : str;
  after : str;
  groups : list (nat * (nat * nat))
}.

Definition pos (st : mstate) : nat := length (before st).

Definition advance (c : ascii) (rest : str) (st : mstate) : mstate :=
  MState (c :: before st) rest (groups st).

Definition close_group (i start : nat) (st : mstate) : mstate :=
  MState (before st) (after st) ((i, (start, pos st)) :: groups st).

Definition word_at (s : str) : bool :=
  match s with
  | c :: _ => Chars.is_word c
  | [] => false
  end.

Definition at_boundary (st : mstate) : bool :=
  xorb (word_at (before st)) (word_at (after st)).

(** Greedy repetition of [body], then [k]. A round that consumes nothing
    is not repeated. *)
Fixpoint star_loop {A : Type}
    (body : mstate -> (mstate -> option A) -> option A)
    (k : mstate -> option A) (fuel : nat) (st : mstate) : option A :=
  match fuel with
  | 0 => k st
  | S fuel' =>
      match body st (fun st' =>
              if (length (after st') <? length (after st))%nat
              then star_loop body k fuel' st' else None) with
      | Some x => Some x
      | None => k st
      end
  end.

(** [run r st k]: match [r] at [st], then continue with [k]; [None]
    makes the matcher backtrack. *)
Fixpoint run {A : Type} (r : regex) (st : mstate)
    (k : mstate -> option A) : option A :=
  match r with
  | Eps => k st
  | Chr p =>
      match after st with
      | c :: rest => if p c then k (advance c rest st) else None
      | [] => None
      end
  | Bol => match before st with [] => k st | _ :: _ => None end
  | WordB => if at_boundary st then k st else None
  | Seq r1 r2 => run r1 st (fun st' => run r2 st' k)
  | Alt r1 r2 =>
      match run r1 st k with
      | Some x => Some x
      | None => run r2 st k
      end
  | Star r' => star_loop (run r') k (length (after st)) st
  | Group i r' => run r' st (fun st' => k (close_group i (pos st) st'))
  end.

(** A match object. *)
Record Match : Type := MkMatch {
  m_string : str;
  m_start : nat;
  m_end : nat;
  m_groups : list (nat * (nat * nat))
}.

Fixpoint assoc (i : nat) (gs : list (nat * (nat * nat))) : option (nat * nat) :=
  match gs with
  | [] => None
  | (j, sp) :: gs' => if bool_decide (i = j) then Some sp else assoc i gs'
  end.

(** [m.group(0)], the whole match. *)
Definition group0 (m : Match) : str :=
  Str.slice (m_start m) (m_end m) (m_string m).

(** [m.group(i)] for a parenthesis [i]; [None] when that group took no
    part in the match. *)
Definition group (m : Match) (i : nat) : option str :=
  sp ← assoc i (m_groups m);
  Some (Str.slice (fst sp) (snd sp) (m_string m)).

(** [pattern.match(s)] at the position [bef|aft]. *)
Definition match_at (r : regex) (s bef aft : str) : option Match :=
  run r (MState bef aft [])
      (fun st => Some (MkMatch s (length bef) (pos st) (groups st))).

(** [pattern.search(s)]: the first position, from the left, where the
    pattern matches. *)
Fixpoint search_from (r : regex) (s bef aft : str) : option Match :=
  match match_at r s bef aft with
  | Some m => Some m
  | None =>
      match aft with
      | [] => None
      | c :: aft' => search_from r s (c :: bef) aft'
      end
  end.

Definition search (r : regex) (s : str) : option Match := search_from r s [] s.

(** [pattern.match(s)] *)
Definition match_ (r : regex) (s : str) : option Match := match_at r s [] s.

(** A literal string as a pattern. *)
Fixpoint Lit (s : str) : regex :=
  match s with
  | [] => Eps
  | c :: s' => Seq (Char c) (Lit s')
  end.

End Re.

(** ** The extraction functions *)

Definition dquote : ascii := "034".
Definition newline : ascii := "010".

(** [get_user_agent]: [line.split('" ')[-1].strip('" \n')], kept when longer
    than two characters; otherwise the function falls off its end and
    returns [None]. *)
Definition get_user_agent (line : str) : option str :=
  let user_to_seek :=
    Str.strip [dquote; " "; newline]
      (Str.last_item (Str.split [dquote; " "] line)) in
  if (2 <? length user_to_seek)%nat then Some user_to_seek else None.

(** The pattern [bot]. *)
Definition bot_pattern : Re.regex := Re.Lit (lit "bot").

(** [is_bot]: [None] and the empty string are falsy; otherwise search the
    lowered text for the pattern. *)
Definition is_bot (line : option str) : bool :=
  match line with
  | None | Some [] => false
  | Some s => bool_decide (is_Some (Re.search bot_pattern (Str.lower s)))
  end.

(** The pattern [^([0-9]+\.)+[0-9]+\b]. *)
Definition ipaddr_pattern : Re.regex :=
  Re.Seq Re.Bol
    (Re.Seq (Re.Plus (Re.Group 1 (Re.Seq (Re.Plus Re.Digit) (Re.Char "."))))
       (Re.Seq (Re.Plus Re.Digit) Re.WordB)).

(** [get_ipaddr]: [search] returns [None] when the pattern does not match,
    and [.group] on [None] raises. *)
Definition get_ipaddr (line : str) : result str :=
  match Re.search ipaddr_pattern line with
  | None => Raise AttributeError
  | Some m => Ok (Re.group0 m)
  end.

(** ** [datetime.strptime] for the format [%d/%b/%Y:%H:%M:%S %z]

    [strptime] turns the format into a regular expression (one named group
    per directive, white space in the format becoming [\s+], letters
    matched without regard to case), matches it at the start of the text,
    insists that the match covers the whole text, converts the groups to
    numbers and builds the [datetime]; every failure on the way is a
    [ValueError]. *)

Module Strptime.
Import Re.
Local Open Scope Z_scope.

Definition Range (lo hi : ascii) : regex := Chr (Chars.between lo hi).
Definition OneOf (cs : str) : regex := Chr (fun d => Str.mem d cs).
(** A letter matched under [IGNORECASE]. *)
Definition ICharR (c : ascii) : regex :=
  Chr (fun d => bool_decide (Chars.lower d = c)).

Fixpoint ILit (s : str) : regex :=
  match s with
  | [] => Eps
  | c :: s' => Seq (ICharR c) (ILit s')
  end.

Fixpoint Seqs (rs : list regex) : regex :=
  match rs with
  | [] => Eps
  | r :: rs' => Seq r (Seqs rs')
  end.

Fixpoint Alts (rs : list regex) : regex :=
  match rs with
  | [] => Chr (fun _ => false)
  | [r] => r
  | r :: rs' => Alt r (Alts rs')
  end.

(** [r{0,n}] *)
Fixpoint UpTo (n : nat) (r : regex) : regex :=
  match n with
  | O => Eps
  | S n' => Opt (Seq r (UpTo n' r))
  end.

Definition a_month : list str :=
  map lit ["jan"; "feb"; "mar"; "apr"; "may"; "jun";
           "jul"; "aug"; "sep"; "oct"; "nov"; "dec"]%string.

(** [%d]: [3[0-1]|[1-2]\d|0[1-9]|[1-9]| [1-9]] *)
Definition re_d : regex :=
  Alts [Seq (Char "3") (Range "0" "1"); Seq (Range "1" "2") Digit;
        Seq (Char "0") (Range "1" "9"); Range "1" "9";
        Seq (Char " ") (Range "1" "9")].
(** [%b]: the abbreviated month names *)
Definition re_b : regex := Alts (map ILit a_month).
(** [%Y]: [\d\d\d\d] *)
Definition re_Y : regex := Seqs [Digit; Digit; Digit; Digit].
(** [%H]: [2[0-3]|[0-1]\d|\d] *)
Definition re_H : regex :=
  Alts [Seq (Char "2") (Range "0" "3"); Seq (Range "0" "1") Digit; Digit].
(** [%M]: [[0-5]\d|\d] *)
Definition re_M : regex := Alts [Seq (Range "0" "5") Digit; Digit].
(** [%S]: [6[0-1]|[0-5]\d|\d] *)
Definition re_S : regex :=
  Alts [Seq (Char "6") (Range "0" "1"); Seq (Range "0" "5") Digit; Digit].
(** [%z]: [[+-]\d\d:?[0-5]\d(:?[0-5]\d(\.\d{1,6})?)?|Z] *)
Definition re_z : regex :=
  Alt (Seqs [OneOf ["+"; "-"]; Digit; Digit; Opt (Char ":"); Range "0" "5"; Digit;
             Opt (Group 8 (Seqs [Opt (Char ":"); Range "0" "5"; Digit;
                Opt (Group 9 (Seqs [Char "."; Digit; UpTo 5%nat Digit]))]))])
      (Char "Z").

(** The pattern for [%d/%b/%Y:%H:%M:%S %z]. *)
Definition format_regex : regex :=
  Seqs [Group 1 re_d; Char "/"; Group 2 re_b; Char "/"; Group 3 re_Y; Char ":";
        Group 4 re_H; Char ":"; Group 5 re_M; Char ":"; Group 6 re_S;
        Plus (Chr Chars.is_space); Group 7 re_z].

Fixpoint digits_val (acc : Z) (s : str) : option Z :=
  match s with
  | [] => Some acc
  | c :: s' =>
      if Chars.is_digit c then digits_val (10 * acc + Chars.digit_val c) s'
      else None
  end.

(** [int(s)] on unsigned decimal text, white space around it ignored;
    anything else is a [ValueError] ([None] here). *)
Definition int (s : str) : option Z :=
  match Str.strip (lit " ") s with
  | [] => None
  | t => digits_val 0 t
  end.

Fixpoint index_of (x : str) (l : list str) (i : Z) : option Z :=
  match l with
  | [] => None
  | y :: l' => if bool_decide (x = y) then Some i else index_of x l' (i + 1)
  end.

Definition is_leap (y : Z) : bool :=
  (y mod 4 =? 0) && (negb (y mod 100 =? 0) || (y mod 400 =? 0)).

Definition days_in_month (y m : Z) : Z :=
  if m =? 2 then (if is_leap y then 29 else 28)
  else if (m =? 4) || (m =? 6) || (m =? 9) || (m =? 11) then 30 else 31.

(** The offset in seconds that the text of a [%z] group stands for. *)
Definition gmtoff_of (z : str) : option Z :=
  if bool_decide (z = ["Z"]) then Some 0 else
  z1 ← (if bool_decide (z !! 3%nat = Some ":")
        then
          let z' := take 3 z ++ drop 4 z in
          if (5 <? length z')%nat
          then (if bool_decide (z' !! 5%nat = Some ":")
                then Some (take 5 z' ++ drop 6 z') else None)
          else Some z'
        else Some z);
  hours ← int (Str.slice 1 3 z1);
  minutes ← int (Str.slice 3 5 z1);
  seconds ← (match Str.slice 5 7 z1 with [] => Some 0 | t => int t end);
  let gmtoff := hours * 3600 + minutes * 60 + seconds in
  Some (if bool_decide (head z1 = Some "-") then - gmtoff else gmtoff).

Record datetime : Type := Datetime {
  year : Z; month : Z; day : Z;
  hour : Z; minute : Z; second : Z;
  utcoffset : Z  (* seconds east of UTC, the [tzinfo] of the result *)
}.

Definition parse (data_string : str) : option datetime :=
  found ← match_ format_regex data_string;
  guard (length data_string = m_end found);;
  d ← group found 1 ≫= int;
  b ← group found 2 ≫= (fun t => index_of (Str.lower t) a_month 1);
  Y ← group found 3 ≫= int;
  H ← group found 4 ≫= int;
  M ← group found 5 ≫= int;
  S ← group found 6 ≫= int;
  z ← group found 7 ≫= gmtoff_of;
  (* [date(year, month, day)], [datetime(...)] and [timezone(...)]
     check their ranges *)
  guard (1 ≤ Y ∧ d ≤ days_in_month Y b ∧ S ≤ 59 ∧ -86400 < z < 86400);;
  Some (Datetime Y b d H M S z).

Definition strptime (data_string : option str) : result datetime :=
  match data_string with
  | None => Raise TypeError
  | Some s =>
      match parse s with
      | Some dt => Ok dt
      | None => Raise ValueError
      end
  end.

End Strptime.

(** [get_hour]: the pattern [\[(.+)\]], then [strptime] on its group 1 and
    the [hour] of the result, which is the hour as written: the [datetime]
    carries the offset along and is not shifted by it. *)
Definition hour_pattern : Re.regex :=
  Re.Seq (Re.Char "[") (Re.Seq (Re.Group 1 (Re.Plus Re.Dot)) (Re.Char "]")).

Definition get_hour (line : str) : result Z :=
  match Re.search hour_pattern line with
  | None => Raise AttributeError
  | Some m =>
      dt ← Strptime.strptime (Re.group m 1);
      Ok (Strptime.hour dt)
  end.

(** ** The two aggregations

    The file system is a parameter: [None] for a name on which
    [open(filename)] raises [FileNotFoundError], [Some lines] for a file
    that opens and yields these lines in order. *)

Definition file_system : Type := str -> option (list str).

(** A [for] loop over the lines whose body may raise. *)
Fixpoint for_each {S : Type} (body : S -> str -> result S)
    (lines : list str) (s : S) : result S :=
  match lines with
  | [] => Ok s
  | line :: rest => s' ← body s line; for_each body rest s'
  end.

(** The body of [histbyhour]'s loop. *)
Definition hist_step (hours_recorded : gmap Z Z) (line : str) : result (gmap Z Z) :=
  accessed_hour ← get_hour line;
  match hours_recorded !! accessed_hour with
  | Some n => Ok (<[accessed_hour := (n + 1)%Z]> hours_recorded)
  | None => Ok (<[accessed_hour := 1%Z]> hours_recorded)
  end.

(** [histbyhour] on the lines of an opened file. *)
Definition histbyhour_lines (lines : list str) : result (gmap Z Z) :=
  for_each hist_step lines ∅.

Definition histbyhour (fs : file_system) (filename : str) : result (gmap Z Z) :=
  match fs filename with
  | None => Raise FileNotFoundError
  | Some lines => histbyhour_lines lines
  end.

(** The body of [ipaddreses]'s loop. *)
Definition ip_step (ip_numbers : gset str) (line : str) : result (gset str) :=
  if negb (is_bot (get_user_agent line))
  then a ← get_ipaddr line; Ok ({[a]} ∪ ip_numbers)
  else Ok ip_numbers.

(** [ipaddreses] on the lines of an opened file. *)
Definition ipaddreses_lines (lines : list str) : result (gset str) :=
  for_each ip_step lines ∅.

Definition ipaddreses (fs : file_system) (filename : str) : result (gset str) :=
  match fs filename with
  | None => Raise FileNotFoundError
  | Some lines => ipaddreses_lines lines
  end.

(** ** The self-test and [main] *)

(** What a test function can raise: an exception of the function it calls,
    or the [AssertionError] of its [assert]. *)
Inductive test_exn : Type :=
| Raised (e : exn)
| AssertionError.

(** The file the tests read and the values they expect. *)
Definition short_log : str := lit "access_short.log".

Definition expected_addresses : gset str :=
  {[lit "34.105.93.183"; lit "39.103.168.88"]}.

Definition expected_hist : gmap Z Z := {[5%Z := 3%Z; 7%Z := 2%Z; 23%Z := 1%Z]}.

(** [test_ipaddresses]; [None] when it returns. *)
Definition test_ipaddresses (fs : file_system) : option test_exn :=
  match ipaddreses fs short_log with
  | Raise e => Some (Raised e)
  | Ok s => if bool_decide (s = expected_addresses) then None else Some AssertionError
  end.

(** [test_hist]; [None] when it returns. *)
Definition test_hist (fs : file_system) : option test_exn :=
  match histbyhour fs short_log with
  | Raise e => Some (Raised e)
  | Ok hist => if bool_decide (hist = expected_hist) then None else Some AssertionError
  end.

(** A record of [logging.error(f'Error found: {e}')]: its message is
    [Error found: ] followed by the text of the exception [e]. *)
Inductive log_record : Type :=
| LogError (e : exn).

(** [main]: what escapes it ([None] when it returns) and what it logs. The
    second test runs only when the first returns, and only
    [FileNotFoundError] is caught. *)
Definition main (fs : file_system) : option test_exn * list log_record :=
  let body :=
    match test_ipaddresses fs with
    | Some x => Some x
    | None => test_hist fs
    end in
  match body with
  | Some (Raised FileNotFoundError) => (None, [LogError FileNotFoundError])
  | escaped => (escaped, [])
  end.

(** ** Notions used to state the properties *)

(** What it means for a pattern to match between two positions, stated
    without reference to the order in which the matcher tries things. *)
Inductive matches : Re.regex -> Re.mstate -> Re.mstate -> Prop :=
| M_Eps st : matches Re.Eps st st
| M_Chr p c rest st :
    Re.after st = c :: rest -> p c = true ->
    matches (Re.Chr p) st (Re.advance c rest st)
| M_Bol st : Re.before st = [] -> matches Re.Bol st st
| M_WordB st : Re.at_boundary st = true -> matches Re.WordB st st
| M_Seq r1 r2 st st1 st2 :
    matches r1 st st1 -> matches r2 st1 st2 -> matches (Re.Seq r1 r2) st st2
| M_AltL r1 r2 st st' : matches r1 st st' -> matches (Re.Alt r1 r2) st st'
| M_AltR r1 r2 st st' : matches r2 st st' -> matches (Re.Alt r1 r2) st st'
| M_StarNil r st : matches (Re.Star r) st st
| M_StarCons r st st1 st2 :
    matches r st st1 ->
    (length (Re.after st1) < length (Re.after st))%nat ->
    matches (Re.Star r) st1 st2 ->
    matches (Re.Star r) st st2
| M_Group i r st st' :
    matches r st st' ->
    matches (Re.Group i r) st (Re.close_group i (Re.pos st) st').

(** Patterns without groups, [^] or [\b]. *)
Fixpoint plain (r : Re.regex) : bool :=
  match r with
  | Re.Eps | Re.Chr _ => true
  | Re.Bol | Re.WordB | Re.Group _ _ => false
  | Re.Seq r1 r2 | Re.Alt r1 r2 => plain r1 && plain r2
  | Re.Star r' => plain r'
  end.

(** The texts such a pattern matches, each round of a repetition taking at
    least one character. *)
Fixpoint lang (r : Re.regex) (w : str) : Prop :=
  match r with
  | Re.Eps => w = []
  | Re.Chr p => exists c, w = [c] /\ p c = true
  | Re.Seq r1 r2 => exists w1 w2, w = w1 ++ w2 /\ lang r1 w1 /\ lang r2 w2
  | Re.Alt r1 r2 => lang r1 w \/ lang r2 w
  | Re.Star r' =>
      exists ws, w = concat ws /\ Forall (fun x => x ≠ [] /\ lang r' x) ws
  | Re.Bol | Re.WordB | Re.Group _ _ => False
  end.

(** [st'] is [st] moved forward over the text [w]. *)
Definition consumed (st st' : Re.mstate) (w : str) : Prop :=
  Re.after st = w ++ Re.after st' /\ Re.before st' = rev w ++ Re.before st.

(** A non-empty run of decimal digits. *)
Definition digits (ds : str) : Prop :=
  ds ≠ [] /\ Forall (fun c => Chars.is_digit c = true) ds.

(** One or more groups of digits each followed by a dot, then a final group
    of digits. *)
Definition dotted_numeric (a : str) : Prop :=
  exists (gs : list str) (ds : str),
    gs ≠ [] /\ Forall digits gs /\ digits ds /\
    a = concat (map (fun g => g ++ ["."]) gs) ++ ds.

(** A text of ASCII characters. *)
Definition ascii_text (s : str) : Prop :=
  Forall (fun c => Chars.is_ascii c = true) s.

(** [a] is a leading dotted-numeric token of [line] that ends at a word
    boundary: what follows it is the end of the line or a character that is
    not a letter, a digit or an underscore. *)
Definition leading_token (line a : str) : Prop :=
  exists rest, line = a ++ rest /\ dotted_numeric a /\ Re.word_at rest = false.

(** The content between the final pair of double quotes of a line. *)
Definition final_quoted (line ua : str) : Prop :=
  exists pre post,
    line = pre ++ dquote :: ua ++ dquote :: post /\
    (dquote ∉ ua) /\ (dquote ∉ post).

(** A text that neither begins nor ends with a space or a newline. *)
Definition trimmed (ua : str) : Prop :=
  forall c, head ua = Some c \/ last ua = Some c -> c ≠ " " /\ c ≠ newline.

(** What may follow the closing quote of the last field: nothing, or the
    newline that ends the line. *)
Definition line_end (post : str) : Prop := post = [] \/ post = [newline].


(** *** Concrete log lines *)

(** A double-quoted field. *)
Definition quoted (s : string) : str := dquote :: lit s ++ [dquote].

(** A combined-log-format line from its address, timestamp, request and
    user agent (status 200, size 100, referrer [-]). *)
Definition log_line (addr ts req agent : string) : str :=
  lit addr ++ lit " - - [" ++ lit ts ++ lit "] " ++ quoted req ++
  lit " 200 100 " ++ quoted "-" ++ lit " " ++ quoted agent.

Definition line_googlebot : str :=
  lit "66.249.66.35 - - [15/Sep/2023:00:18:46 +0200] " ++ quoted "GET /x HTTP/1.1" ++
  lit " 200 100 " ++ quoted "-" ++ lit " " ++
  quoted "Mozilla/5.0 (compatible; Googlebot/2.1; +http://www.google.com/bot.html)".

Definition line_firefox : str :=
  lit "147.96.46.52 - - [10/Oct/2023:12:55:47 +0200] " ++ quoted "GET /y HTTP/1.1" ++
  lit " 404 50 " ++ quoted "-" ++ lit " " ++
  quoted "Mozilla/5.0 (X11; Ubuntu) Firefox/117.0".

(** The two lines of scenario A. *)
Definition scenario_A : list str := [line_googlebot; line_firefox].

(** The same lines as a file yields them, each ended by a newline. *)
Definition scenario_A_file : list str := map (fun l => l ++ [newline]) scenario_A.

(** A well-formed line whose user agent has a bracket of its own. *)
Definition line_netscape : str :=
  log_line "147.96.46.52" "10/Oct/2023:12:55:47 +0200" "GET /y HTTP/1.1"
           "Mozilla/4.08 [en] (Win98; I ;Nav)".

(** A line whose user agent is two characters long. *)
Definition line_short_agent : str :=
  log_line "147.96.46.52" "10/Oct/2023:12:55:47 +0200" "GET /y HTTP/1.1" "ab".

(** A line whose user agent field is empty. *)
Definition line_empty_agent : str :=
  log_line "147.96.46.52" "10/Oct/2023:12:55:47 +0200" "GET /y HTTP/1.1" "".

(** A bot's line that starts with a host name instead of an address. *)
Definition line_bot_hostname : str :=
  log_line "crawl-66-249-66-1.googlebot.com" "15/Sep/2023:00:18:46 +0200"
           "GET /x HTTP/1.1" "Googlebot/2.1".


(** A line that ends in an empty quoted field with no quote-then-space
    before it. *)
Definition line_robot_empty_quotes : str :=
  lit "1.2.3.4 robot " ++ [dquote; dquote].


(** *** Timestamps as the server writes them *)

(** The character of a decimal digit. *)
Definition digit_char (n : Z) : ascii := ascii_of_nat (48 + Z.to_nat n).

Definition two_digits (n : Z) : str :=
  [digit_char (n / 10); digit_char (n mod 10)]%Z.

Definition four_digits (n : Z) : str :=
  [digit_char (n / 1000); digit_char (n / 100 mod 10);
   digit_char (n / 10 mod 10); digit_char (n mod 10)]%Z.

Definition month_abbr : list str :=
  map lit ["Jan"; "Feb"; "Mar"; "Apr"; "May"; "Jun";
           "Jul"; "Aug"; "Sep"; "Oct"; "Nov"; "Dec"]%string.

(** A point in time with the offset of its zone from UTC. *)
Record timestamp : Type := Timestamp {
  ts_day : Z; ts_month : Z; ts_year : Z;
  ts_hour : Z; ts_minute : Z; ts_second : Z;
  ts_east : bool; ts_zone_hours : Z; ts_zone_minutes : Z
}.

Definition valid_timestamp (t : timestamp) : Prop :=
  (1 <= ts_year t <= 9999 /\ 1 <= ts_month t <= 12 /\
   1 <= ts_day t <= Strptime.days_in_month (ts_year t) (ts_month t) /\
   0 <= ts_hour t <= 23 /\ 0 <= ts_minute t <= 59 /\ 0 <= ts_second t <= 59 /\
   0 <= ts_zone_hours t <= 23 /\ 0 <= ts_zone_minutes t <= 59)%Z.

(** [day/Mon/Year:Hour:Minute:Second +hhmm], every number zero padded. *)
Definition write_timestamp (t : timestamp) : str :=
  two_digits (ts_day t) ++ "/" ::
  nth (Z.to_nat (ts_month t - 1)) month_abbr [] ++ "/" ::
  four_digits (ts_year t) ++ ":" ::
  two_digits (ts_hour t) ++ ":" ::
  two_digits (ts_minute t) ++ ":" ::
  two_digits (ts_second t) ++ " " ::
  (if ts_east t then "+" else "-") ::
  two_digits (ts_zone_hours t) ++ two_digits (ts_zone_minutes t).

(** [pattern.fullmatch(w)], as a test. *)
Definition fullmatch (r : Re.regex) (w : str) : bool :=
  bool_decide (is_Some (Re.run r (Re.MState [] w [])
                 (fun st => match Re.after st with [] => Some tt | _ :: _ => None end))).

(** The offset of a timestamp's zone, in seconds east of UTC. *)
Definition zone_offset (t : timestamp) : Z :=
  let off := (ts_zone_hours t * 3600 + ts_zone_minutes t * 60)%Z in
  if ts_east t then off else (- off)%Z.

(** The characters of a timestamp, one by one. *)
Definition timestamp_text
    (d1 d2 m1 m2 m3 y1 y2 y3 y4 h1 h2 n1 n2 s1 s2 sg z1 z2 z3 z4 : ascii) : str :=
  [d1; d2; "/"; m1; m2; m3; "/"; y1; y2; y3; y4; ":"; h1; h2; ":"; n1; n2; ":";
   s1; s2; " "; sg; z1; z2; z3; z4].

(** The spans of the seven fields in such a text, last field first. *)
Definition timestamp_groups : list (nat * (nat * nat)) :=
  [(7, (21, 26)); (6, (18, 20)); (5, (15, 17)); (4, (12, 14)); (3, (7, 11));
   (2, (3, 6)); (1, (0, 2))]%nat.

(** Neither a bracket nor a newline. *)
Definition timestamp_char (c : ascii) : bool :=
  negb (Str.mem c ["["; "]"; newline]).

(** What the proofs need of the name of month [mo], as a test. *)
Definition month_ok (mo : Z) : bool :=
  let name := nth (Z.to_nat (mo - 1)) month_abbr [] in
  bool_decide (length name = 3%nat) && fullmatch Strptime.re_b name &&
  bool_decide (Strptime.index_of (Str.lower name) Strptime.a_month 1 = Some mo) &&
  forallb timestamp_char name.

(** The number of lines whose hour is [h]. *)
Fixpoint count_hour (h : Z) (lines : list str) : Z :=
  match lines with
  | [] => 0
  | line :: rest =>
      match get_hour line with
      | Ok h' => if bool_decide (h' = h) then 1 + count_hour h rest
                 else count_hour h rest
      | Raise _ => count_hour h rest
      end
  end%Z.

(** The count an hour has after [n] more lines with that hour. *)
Definition add_count (o : option Z) (n : Z) : option Z :=
  if (n =? 0)%Z then o else Some (default 0 o + n)%Z.

(** The parenthesis of the address pattern, [([0-9]+\.)]. *)
#[local] Abbreviation ip_group :=
  (Re.Group 1 (Re.Seq (Re.Plus Re.Digit) (Re.Char "."))).

(** The text of some groups of digits, each followed by its dot. *)
#[local] Abbreviation dotted_groups gs := (concat (map (fun g : str => g ++ ["."]) gs)).

(** The characters [get_user_agent] strips. *)
#[local] Abbreviation strip_chars := [dquote; " "; newline].

(** *** Further notions *)

(** An opening bracket, at least one character other than a newline, and a
    closing bracket. *)
Definition has_bracket_pair (line : str) : Prop :=
  exists pre w post,
    line = pre ++ "[" :: w ++ "]" :: post /\ w ≠ [] /\ (newline ∉ w).

(** Whether some character class of the pattern accepts [c]. *)
Fixpoint may_consume (r : Re.regex) (c : ascii) : bool :=
  match r with
  | Re.Eps | Re.Bol | Re.WordB => false
  | Re.Chr p => p c
  | Re.Seq r1 r2 | Re.Alt r1 r2 => may_consume r1 c || may_consume r2 c
  | Re.Star r' | Re.Group _ r' => may_consume r' c
  end.

(** Whether the pattern has a parenthesis numbered [i]. *)
Fixpoint has_group (r : Re.regex) (i : nat) : bool :=
  match r with
  | Re.Eps | Re.Chr _ | Re.Bol | Re.WordB => false
  | Re.Seq r1 r2 | Re.Alt r1 r2 => has_group r1 i || has_group r2 i
  | Re.Star r' => has_group r' i
  | Re.Group j r' => bool_decide (i = j) || has_group r' i
  end.

(** The sum of the counts of a histogram. *)
Definition hist_total (m : gmap Z Z) : Z :=
  map_fold (fun _ n acc => (n + acc)%Z) 0%Z m.

(** A timestamp whose numbers fit the digits [write_timestamp] gives them,
    whether or not there is such a day. *)
Definition writable_timestamp (t : timestamp) : Prop :=
  (0 <= ts_year t <= 9999 /\ 1 <= ts_month t <= 12 /\ 1 <= ts_day t <= 31 /\
   0 <= ts_hour t <= 23 /\ 0 <= ts_minute t <= 59 /\ 0 <= ts_second t <= 59 /\
   0 <= ts_zone_hours t <= 23 /\ 0 <= ts_zone_minutes t <= 59)%Z.

(** Six lines on which the self-test passes: three in hour 5 (one of them a
    bot's), two in hour 7, one in hour 23, from two addresses that are not
    a bot's. *)
Definition short_log_lines : list str :=
  [log_line "34.105.93.183" "21/Dec/2023:05:10:00 +0100" "GET / HTTP/1.1"
            "Mozilla/5.0 (X11; Linux x86_64)";
   log_line "66.249.66.35" "21/Dec/2023:05:20:00 +0100" "GET /robots.txt HTTP/1.1"
            "Mozilla/5.0 (compatible; Googlebot/2.1)";
   log_line "34.105.93.183" "21/Dec/2023:05:30:00 +0100" "GET /a HTTP/1.1"
            "Mozilla/5.0 (X11; Linux x86_64)";
   log_line "39.103.168.88" "21/Dec/2023:07:01:00 +0100" "GET /b HTTP/1.1"
            "curl/7.68.0";
   log_line "39.103.168.88" "21/Dec/2023:07:02:00 +0100" "GET /c HTTP/1.1"
            "curl/7.68.0";
   log_line "34.105.93.183" "21/Dec/2023:23:59:59 +0100" "GET /d HTTP/1.1"
            "Mozilla/5.0 (X11; Linux x86_64)"].

(** A file system that holds one file. *)
Definition one_file (name : str) (lines : list str) : file_system :=
  fun filename => if bool_decide (filename = name) then Some lines else None.

(** ** Facts about the [str] methods *)

Lemma strip_prefix_Some p s rest :
  Str.strip_prefix p s = Some rest <-> s = p ++ rest.
Proof.
  revert s. induction p as [|a p IH]; intros s; simpl.
  - split; congruence.
  - destruct s as [|b s]; [split; discriminate|].
    case_bool_decide as Hab.
    + subst b. rewrite IH. split; [intros ->; reflexivity | congruence].
    + split; [discriminate | intros [= -> _]; contradiction].
Qed.

Lemma partition_no_occurrence sep s :
  sep ≠ [] -> ~ Str.contains sep s -> Str.partition sep s = (s, None).
Proof.
  intros Hsep. induction s as [|c s IH]; intros Hno.
  - destruct sep; [contradiction|reflexivity].
  - cbn [Str.partition].
    destruct (Str.strip_prefix sep (c :: s)) as [rest|] eqn:Hp.
    + apply strip_prefix_Some in Hp. exfalso. apply Hno.
      exists [], rest. exact Hp.
    + rewrite IH; [reflexivity|].
      intros (pre & post & ->). apply Hno.
      exists (c :: pre), post. reflexivity.
Qed.

Lemma split_no_occurrence sep s :
  sep ≠ [] -> ~ Str.contains sep s -> Str.split sep s = [s].
Proof.
  intros Hsep Hno. unfold Str.split.
  destruct (length s); simpl; rewrite partition_no_occurrence by assumption;
    reflexivity.
Qed.

(** ** The matcher against the declarative notion of a match *)

Section Matcher.
Context {A : Type}.
Implicit Types (k : Re.mstate -> option A) (st : Re.mstate).

(** Whatever the matcher returns comes from a match after which the
    continuation succeeded. *)
Lemma run_sound r : forall st k x,
  Re.run r st k = Some x -> exists st', matches r st st' /\ k st' = Some x.
Proof.
  induction r as [|p| | |r1 IH1 r2 IH2|r1 IH1 r2 IH2|r IH|i r IH];
    intros st k x; cbn [Re.run].
  - intros H. exists st. split; [constructor | exact H].
  - destruct (Re.after st) as [|c rest] eqn:Ha; [discriminate|].
    destruct (p c) eqn:Hp; [|discriminate].
    intros H. exists (Re.advance c rest st). split; [|exact H].
    by constructor.
  - destruct (Re.before st) eqn:Hb; [|discriminate].
    intros H. exists st. split; [by constructor | exact H].
  - destruct (Re.at_boundary st) eqn:Hb; [|discriminate].
    intros H. exists st. split; [by constructor | exact H].
  - intros H. apply IH1 in H as (st1 & H1 & H).
    apply IH2 in H as (st2 & H2 & H).
    exists st2. split; [econstructor; eassumption | exact H].
  - destruct (Re.run r1 st k) as [y|] eqn:H1.
    + intros [= ->]. apply IH1 in H1 as (st' & H1 & H).
      exists st'. split; [by apply M_AltL | exact H].
    + intros H2. apply IH2 in H2 as (st' & H2 & H).
      exists st'. split; [by apply M_AltR | exact H].
  - generalize (length (Re.after st)) as fuel. intros fuel. revert st.
    induction fuel as [|fuel IHf]; intros st; cbn [Re.star_loop].
    + intros H. exists st. split; [constructor | exact H].
    + match goal with |- context [Re.run r st ?k'] =>
        destruct (Re.run r st k') as [y|] eqn:Hb end.
      * intros [= ->]. apply IH in Hb as (st1 & H1 & Hb).
        destruct (length (Re.after st1) <? length (Re.after st))%nat eqn:Hlt;
          [|discriminate].
        apply Nat.ltb_lt in Hlt.
        apply IHf in Hb as (st2 & H2 & Hb).
        exists st2. split; [econstructor; eassumption | exact Hb].
      * intros H. exists st. split; [constructor | exact H].
  - intros H. apply IH in H as (st' & H1 & H).
    exists (Re.close_group i (Re.pos st) st'). split; [by constructor | exact H].
Qed.

Lemma star_loop_None r
    (IH : forall st k, Re.run r st k = None ->
                       forall st', matches r st st' -> k st' = None) :
  forall fuel st k,
    (length (Re.after st) <= fuel)%nat ->
    Re.star_loop (Re.run r) k fuel st = None ->
    forall st', matches (Re.Star r) st st' -> k st' = None.
Proof.
  induction fuel as [|fuel IHf]; intros st k Hlen Hrun st' Hm;
    cbn [Re.star_loop] in Hrun.
  - inversion Hm; subst; [exact Hrun | lia].
  - match type of Hrun with context [Re.run r st ?k'] =>
      destruct (Re.run r st k') as [y|] eqn:Hb end; [discriminate|].
    inversion Hm as [| | | | | | |? ?|? ? st1 ? H1 Hlt H2|]; subst;
      [exact Hrun|].
    specialize (IH _ _ Hb _ H1). cbn beta in IH.
    apply Nat.ltb_lt in Hlt as Hlt'. rewrite Hlt' in IH.
    eapply IHf; [|exact IH|exact H2]. lia.
Qed.

(** When the matcher gives up, no match makes the continuation succeed. *)
Lemma run_None r : forall st k,
  Re.run r st k = None -> forall st', matches r st st' -> k st' = None.
Proof.
  induction r as [|p| | |r1 IH1 r2 IH2|r1 IH1 r2 IH2|r IH|i r IH];
    intros st k Hrun st' Hm; cbn [Re.run] in Hrun.
  - inversion Hm; subst. exact Hrun.
  - inversion Hm as [|? c rest ? Ha Hp| | | | | | | |]; subst.
    rewrite Ha, Hp in Hrun. exact Hrun.
  - inversion Hm as [| |? Hb| | | | | | |]; subst.
    rewrite Hb in Hrun. exact Hrun.
  - inversion Hm as [| | |? Hb| | | | | |]; subst.
    rewrite Hb in Hrun. exact Hrun.
  - inversion Hm as [| | | |? ? ? st1 ? H1 H2| | | | |]; subst.
    eapply IH2; [|exact H2]. exact (IH1 _ _ Hrun _ H1).
  - destruct (Re.run r1 st k) as [y|] eqn:H1; [discriminate|].
    inversion Hm; subst; [eapply IH1 | eapply IH2]; eassumption.
  - eapply star_loop_None; [exact IH| |exact Hrun|exact Hm]. lia.
  - inversion Hm as [| | | | | | | | |? ? ? st1 H1]; subst.
    exact (IH _ _ Hrun _ H1).
Qed.

(** So the matcher succeeds exactly when some match makes the
    continuation succeed. *)
Lemma run_is_Some r st k :
  is_Some (Re.run r st k) <->
  exists st', matches r st st' /\ is_Some (k st').
Proof.
  split.
  - intros [x Hx]. apply run_sound in Hx as (st' & H & Hx). eauto.
  - intros (st' & H & [x Hx]).
    destruct (Re.run r st k) as [y|] eqn:Hr; [eauto|].
    rewrite (run_None _ _ _ Hr _ H) in Hx. discriminate.
Qed.

End Matcher.

Lemma slice_consumed (b w a : str) :
  Str.slice (length b) (length (rev w ++ b)) (rev b ++ w ++ a) = w.
Proof.
  unfold Str.slice.
  rewrite drop_app_length' by (by rewrite length_rev).
  rewrite length_app, length_rev.
  replace (length w + length b - length b)%nat with (length w) by lia.
  by rewrite take_app_length.
Qed.

(** [search] finds a match exactly when the pattern matches somewhere. *)
Lemma search_from_is_Some r s : forall aft bef,
  is_Some (Re.search_from r s bef aft) <->
  exists pre post st',
    aft = pre ++ post /\ matches r (Re.MState (rev pre ++ bef) post []) st'.
Proof.
  induction aft as [|c aft IH]; intros bef; cbn [Re.search_from];
    unfold Re.match_at.
  - match goal with |- context [Re.run r ?st ?k] =>
      pose proof (run_is_Some r st k) as Hr;
      destruct (Re.run r st k) as [m|] eqn:Hrun end.
    + split; [intros _|eauto].
      destruct Hr as [(st' & Hm & _) _]; [eauto|].
      exists [], [], st'. done.
    + split; [intros [? ?]; discriminate|].
      intros (pre & post & st' & Heq & Hm).
      symmetry in Heq. apply app_eq_nil in Heq as [-> ->].
      apply Hr. exists st'. split; [exact Hm | eauto].
  - match goal with |- context [Re.run r ?st ?k] =>
      pose proof (run_is_Some r st k) as Hr;
      destruct (Re.run r st k) as [m|] eqn:Hrun end.
    + split; [intros _|eauto].
      destruct Hr as [(st' & Hm & _) _]; [eauto|].
      exists [], (c :: aft), st'. done.
    + rewrite IH. split.
      * intros (pre & post & st' & -> & Hm).
        exists (c :: pre), post, st'. split; [done|].
        simpl. by rewrite <- app_assoc.
      * intros (pre & post & st' & Heq & Hm).
        destruct pre as [|c' pre].
        -- exfalso. simpl in *. subst post.
           destruct Hr as [_ Hr]. destruct Hr as [? ?]; [|discriminate].
           exists st'. split; [exact Hm | eauto].
        -- injection Heq as <- ->. exists pre, post, st'. split; [done|].
           simpl in Hm. by rewrite <- app_assoc in Hm.
Qed.

(** The match object [search] returns describes a match of the pattern. *)
Lemma search_from_Some r s m : forall aft bef,
  Re.search_from r s bef aft = Some m ->
  exists pre post st',
    aft = pre ++ post /\
    matches r (Re.MState (rev pre ++ bef) post []) st' /\
    m = Re.MkMatch s (length (rev pre ++ bef)) (Re.pos st') (Re.groups st').
Proof.
  induction aft as [|c aft IH]; intros bef; cbn [Re.search_from];
    unfold Re.match_at.
  - match goal with |- context [Re.run r ?st ?k] =>
      destruct (Re.run r st k) as [m'|] eqn:Hrun end; [|discriminate].
    intros [= ->]. apply run_sound in Hrun as (st' & Hm & [= <-]).
    exists [], [], st'. done.
  - match goal with |- context [Re.run r ?st ?k] =>
      destruct (Re.run r st k) as [m'|] eqn:Hrun end.
    + intros [= ->]. apply run_sound in Hrun as (st' & Hm & [= <-]).
      exists [], (c :: aft), st'. done.
    + intros H. apply IH in H as (pre & post & st' & -> & Hm & ->).
      exists (c :: pre), post, st'. simpl. rewrite <- !app_assoc. done.
Qed.

(** ** Matches of the building blocks of the program's patterns *)

Lemma consumed_nil st : consumed st st [].
Proof. by split. Qed.

Lemma consumed_app st st1 st2 w1 w2 :
  consumed st st1 w1 -> consumed st1 st2 w2 -> consumed st st2 (w1 ++ w2).
Proof.
  intros [Ha1 Hb1] [Ha2 Hb2]. split.
  - by rewrite Ha1, Ha2, app_assoc.
  - by rewrite Hb2, Hb1, rev_app_distr, app_assoc.
Qed.

Lemma matches_Chr_inv p st st' :
  matches (Re.Chr p) st st' ->
  exists c, p c = true /\ consumed st st' [c] /\ Re.groups st' = Re.groups st.
Proof.
  inversion 1 as [|? c rest ? Ha Hp| | | | | | | |]; subst.
  exists c. split; [exact Hp|]. split; [|reflexivity].
  split; simpl; [exact Ha | reflexivity].
Qed.

Lemma matches_Chr_intro p c b a g :
  p c = true -> matches (Re.Chr p) (Re.MState b (c :: a) g) (Re.MState (c :: b) a g).
Proof. intros Hp. by apply (M_Chr p c a (Re.MState b (c :: a) g)). Qed.

Lemma matches_Lit_inv s : forall st st',
  matches (Re.Lit s) st st' -> consumed st st' s.
Proof.
  induction s as [|c s IH]; intros st st' Hm; cbn [Re.Lit] in Hm.
  - inversion Hm; subst. apply consumed_nil.
  - inversion Hm as [| | | |? ? ? st1 ? H1 H2| | | | |]; subst.
    apply matches_Chr_inv in H1 as (d & Hd & Hc & _).
    apply bool_decide_eq_true in Hd as ->.
    exact (consumed_app _ _ _ [c] s Hc (IH _ _ H2)).
Qed.

Lemma matches_Lit_intro s : forall b a g,
  matches (Re.Lit s) (Re.MState b (s ++ a) g) (Re.MState (rev s ++ b) a g).
Proof.
  induction s as [|c s IH]; intros b a g; cbn [Re.Lit].
  - constructor.
  - apply M_Seq with (st1 := Re.MState (c :: b) (s ++ a) g).
    + apply matches_Chr_intro. by apply bool_decide_eq_true.
    + simpl. rewrite <- app_assoc. apply IH.
Qed.

(** Searching for a literal is the substring test. *)
Lemma search_Lit_is_Some sub s :
  is_Some (Re.search (Re.Lit sub) s) <-> Str.contains sub s.
Proof.
  unfold Re.search. rewrite search_from_is_Some. split.
  - intros (pre & post & st' & -> & Hm).
    apply matches_Lit_inv in Hm as [Ha _]. simpl in Ha.
    exists pre, (Re.after st'). by rewrite Ha.
  - intros (pre & post & ->).
    exists pre, (sub ++ post), (Re.MState (rev sub ++ rev pre ++ []) post []).
    split; [done | apply matches_Lit_intro].
Qed.

Lemma is_bot_contains s :
  is_bot (Some s) = true <-> Str.contains (lit "bot") (Str.lower s).
Proof.
  destruct s as [|c s].
  - simpl. split; [discriminate|].
    intros (pre & post & H). destruct pre; discriminate.
  - cbn [is_bot]. rewrite bool_decide_eq_true. apply search_Lit_is_Some.
Qed.

(** *** Runs of one character class *)

Lemma matches_Star_Chr_inv p st st' :
  matches (Re.Star (Re.Chr p)) st st' ->
  exists w, Forall (fun c => p c = true) w /\ consumed st st' w /\
            Re.groups st' = Re.groups st.
Proof.
  remember (Re.Star (Re.Chr p)) as r eqn:Hr. intros Hm. revert Hr.
  induction Hm as [| | | | | | |r st|r st st1 st2 H1 _ Hlt _ IH2|]; try discriminate.
  - intros _. exists []. split; [constructor|]. split; [apply consumed_nil|done].
  - intros [= ->]. destruct (IH2 eq_refl) as (w & Hw & Hc & Hg).
    apply matches_Chr_inv in H1 as (c & Hp & Hc1 & Hg1).
    exists (c :: w). split; [by constructor|]. split.
    + exact (consumed_app _ _ _ [c] w Hc1 Hc).
    + by rewrite Hg, Hg1.
Qed.

Lemma matches_Star_Chr_intro p w : forall b a g,
  Forall (fun c => p c = true) w ->
  matches (Re.Star (Re.Chr p)) (Re.MState b (w ++ a) g) (Re.MState (rev w ++ b) a g).
Proof.
  induction w as [|c w IH]; intros b a g Hw.
  - constructor.
  - inversion Hw as [|? ? Hc Hw']; subst.
    apply M_StarCons with (st1 := Re.MState (c :: b) (w ++ a) g).
    + by apply matches_Chr_intro.
    + simpl. lia.
    + simpl. rewrite <- app_assoc. by apply IH.
Qed.

Lemma matches_Plus_Digit_inv st st' :
  matches (Re.Plus Re.Digit) st st' ->
  exists ds, digits ds /\ consumed st st' ds /\ Re.groups st' = Re.groups st.
Proof.
  unfold Re.Plus, Re.Digit.
  inversion 1 as [| | | |? ? ? st1 ? H1 H2| | | | |]; subst.
  apply matches_Chr_inv in H1 as (c & Hp & Hc1 & Hg1).
  apply matches_Star_Chr_inv in H2 as (w & Hw & Hc & Hg).
  exists (c :: w). split; [split; [done | by constructor]|]. split.
  - exact (consumed_app _ _ _ [c] w Hc1 Hc).
  - by rewrite Hg, Hg1.
Qed.

Lemma matches_Plus_Digit_intro ds b a g :
  digits ds ->
  matches (Re.Plus Re.Digit) (Re.MState b (ds ++ a) g) (Re.MState (rev ds ++ b) a g).
Proof.
  intros [Hne Hds]. destruct ds as [|c w]; [done|].
  inversion Hds as [|? ? Hc Hw]; subst.
  apply M_Seq with (st1 := Re.MState (c :: b) (w ++ a) g).
  - by apply matches_Chr_intro.
  - simpl. rewrite <- app_assoc. by apply matches_Star_Chr_intro.
Qed.

(** *** The address pattern *)

Lemma consumed_close_group st st' i n w :
  consumed st (Re.close_group i n st') w <-> consumed st st' w.
Proof. reflexivity. Qed.

Lemma matches_ip_group_inv st st' :
  matches ip_group st st' -> exists ds, digits ds /\ consumed st st' (ds ++ ["."]).
Proof.
  inversion 1 as [| | | | | | | | |? ? ? st2 Hb]; subst.
  inversion Hb as [| | | |? ? ? st1 ? H1 H2| | | | |]; subst.
  apply matches_Plus_Digit_inv in H1 as (ds & Hds & Hc1 & _).
  apply matches_Chr_inv in H2 as (c & Hc & Hc2 & _).
  apply bool_decide_eq_true in Hc as ->.
  exists ds. split; [exact Hds|].
  apply consumed_close_group. exact (consumed_app _ _ _ _ _ Hc1 Hc2).
Qed.

Lemma matches_ip_group_intro ds b a g :
  digits ds ->
  matches ip_group (Re.MState b ((ds ++ ["."]) ++ a) g)
    (Re.MState (rev (ds ++ ["."]) ++ b) a ((1, (length b, length (rev (ds ++ ["."]) ++ b))) :: g)).
Proof.
  intros Hds.
  apply (M_Group 1 _ (Re.MState b ((ds ++ ["."]) ++ a) g)
           (Re.MState (rev (ds ++ ["."]) ++ b) a g)).
  apply M_Seq with (st1 := Re.MState (rev ds ++ b) ("." :: a) g).
  - rewrite <- app_assoc. by apply matches_Plus_Digit_intro.
  - rewrite rev_app_distr. simpl. apply matches_Chr_intro.
    by apply bool_decide_eq_true.
Qed.

Lemma matches_ip_groups_inv st st' :
  matches (Re.Star ip_group) st st' ->
  exists gs, Forall digits gs /\ consumed st st' (dotted_groups gs).
Proof.
  remember (Re.Star ip_group) as r eqn:Hr. intros Hm. revert Hr.
  induction Hm as [| | | | | | |r st|r st st1 st2 H1 _ Hlt _ IH2|]; try discriminate.
  - intros _. exists []. split; [constructor | apply consumed_nil].
  - intros [= ->]. destruct (IH2 eq_refl) as (gs & Hgs & Hc).
    apply matches_ip_group_inv in H1 as (ds & Hds & Hc1).
    exists (ds :: gs). split; [by constructor|].
    exact (consumed_app _ _ _ _ _ Hc1 Hc).
Qed.

Lemma matches_ip_groups_intro gs : forall b a g,
  Forall digits gs ->
  exists g', matches (Re.Star ip_group)
               (Re.MState b (dotted_groups gs ++ a) g)
               (Re.MState (rev (dotted_groups gs) ++ b) a g').
Proof.
  induction gs as [|ds gs IH]; intros b a g Hgs.
  - exists g. constructor.
  - inversion Hgs as [|? ? Hds Hgs']; subst.
    destruct (IH (rev (ds ++ ["."]) ++ b) a
                ((1, (length b, length (rev (ds ++ ["."]) ++ b))) :: g) Hgs')
      as (g' & Hm).
    exists g'. cbn [map concat].
    replace (rev ((ds ++ ["."]) ++ dotted_groups gs) ++ b)
      with (rev (dotted_groups gs) ++ rev (ds ++ ["."]) ++ b)
      by (by rewrite (rev_app_distr (ds ++ ["."])), <- app_assoc).
    rewrite <- (app_assoc (ds ++ ["."])).
    eapply M_StarCons; [by apply matches_ip_group_intro| |exact Hm].
    simpl. rewrite !length_app. simpl. lia.
Qed.

Lemma digits_last_word ds b :
  digits ds -> Re.word_at (rev ds ++ b) = true.
Proof.
  intros [Hne Hds]. destruct (rev ds) as [|c r] eqn:Hr.
  - apply (f_equal (@rev _)) in Hr. rewrite rev_involutive in Hr. done.
  - simpl. assert (Hin : c ∈ ds).
    { apply list_elem_of_In, in_rev. rewrite Hr. by left. }
    rewrite Forall_forall in Hds. unfold Chars.is_word.
    by rewrite (Hds _ Hin).
Qed.

(** A match of the whole address pattern: it starts at the beginning of the
    line, covers a dotted-numeric text, and ends at a word boundary. *)
Lemma matches_ipaddr_pattern_inv st st' :
  matches ipaddr_pattern st st' ->
  Re.before st = [] /\
  exists a, dotted_numeric a /\ consumed st st' a /\
            Re.word_at (Re.after st') = false.
Proof.
  unfold ipaddr_pattern, Re.Plus at 1.
  inversion 1 as [| | | |? ? ? st0 ? H0 H1| | | | |]; subst.
  inversion H0 as [| |? Hb| | | | | | |]; subst.
  split; [exact Hb|]. clear H0.
  inversion H1 as [| | | |? ? ? st2 ? H2 H3| | | | |]; subst.
  inversion H2 as [| | | |? ? ? st1 ? Hg1 Hgs| | | | |]; subst.
  inversion H3 as [| | | |? ? ? st3 ? Hd Hw| | | | |]; subst.
  inversion Hw as [| | |? Hbd| | | | | |]; subst.
  apply matches_ip_group_inv in Hg1 as (g1 & Hg1 & Hc1).
  apply matches_ip_groups_inv in Hgs as (gs & Hgs & Hc2).
  apply matches_Plus_Digit_inv in Hd as (ds & Hds & Hc3 & _).
  exists (dotted_groups (g1 :: gs) ++ ds). split; [|split].
  - exists (g1 :: gs), ds. split; [done|]. split; [by constructor|]. done.
  - simpl. rewrite <- app_assoc.
    eapply consumed_app; [exact Hc1|]. eapply consumed_app; eassumption.
  - unfold Re.at_boundary in Hbd. destruct Hc3 as [_ Hb3].
    rewrite Hb3, (digits_last_word _ _ Hds) in Hbd.
    by destruct (Re.word_at (Re.after st')).
Qed.

Lemma matches_ipaddr_pattern_intro a rest :
  dotted_numeric a -> Re.word_at rest = false ->
  exists g, matches ipaddr_pattern (Re.MState [] (a ++ rest) [])
              (Re.MState (rev a) rest g).
Proof.
  intros (gs & ds & Hne & Hgs & Hds & ->) Hrest.
  destruct gs as [|g1 gs]; [done|].
  inversion Hgs as [|? ? Hg1 Hgs']; subst.
  destruct (matches_ip_groups_intro gs (rev (g1 ++ ["."]) ++ []) (ds ++ rest)
              [(1, (length (@nil ascii), length (rev (g1 ++ ["."]) ++ [])))] Hgs')
    as (g' & Hm).
  exists g'. unfold ipaddr_pattern.
  apply M_Seq with (st1 := Re.MState [] ((dotted_groups (g1 :: gs) ++ ds) ++ rest) []);
    [by constructor|].
  apply M_Seq with (st1 := Re.MState (rev (dotted_groups gs) ++ rev (g1 ++ ["."]) ++ [])
                             (ds ++ rest) g').
  - unfold Re.Plus. eapply M_Seq; [|exact Hm].
    simpl. rewrite <- !app_assoc.
    pose proof (matches_ip_group_intro g1 [] (dotted_groups gs ++ ds ++ rest) [] Hg1) as H.
    rewrite <- app_assoc in H. exact H.
  - assert (Hrev : rev (dotted_groups (g1 :: gs) ++ ds)
                   = rev ds ++ rev (dotted_groups gs) ++ rev (g1 ++ ["."]) ++ []).
    { simpl. by rewrite !rev_app_distr, app_nil_r. }
    rewrite Hrev.
    eapply M_Seq; [by apply matches_Plus_Digit_intro|].
    constructor. unfold Re.at_boundary. simpl Re.before. simpl Re.after.
    by rewrite (digits_last_word _ _ Hds), Hrest.
Qed.

(** ** Patterns without groups and anchors as sets of texts *)

Lemma matches_plain_inv r : plain r = true -> forall b a g st',
  matches r (Re.MState b a g) st' ->
  exists w a', a = w ++ a' /\ st' = Re.MState (rev w ++ b) a' g /\ lang r w.
Proof.
  induction r as [|p| | |r1 IH1 r2 IH2|r1 IH1 r2 IH2|r IH|i r IH];
    cbn [plain]; intros Hp b a g st' Hm; try discriminate.
  - inversion Hm; subst. exists [], a. done.
  - inversion Hm as [|? c rest ? Ha Hc| | | | | | | |]; subst. simpl in Ha. subst a.
    exists [c], rest. split; [done|]. split; [done|]. by exists c.
  - apply andb_prop in Hp as [Hp1 Hp2].
    inversion Hm as [| | | |? ? ? st1 ? H1 H2| | | | |]; subst.
    destruct (IH1 Hp1 _ _ _ _ H1) as (w1 & a1 & -> & -> & Hw1).
    destruct (IH2 Hp2 _ _ _ _ H2) as (w2 & a2 & -> & -> & Hw2).
    exists (w1 ++ w2), a2. split; [by rewrite app_assoc|].
    split; [by rewrite rev_app_distr, app_assoc|]. by exists w1, w2.
  - apply andb_prop in Hp as [Hp1 Hp2].
    inversion Hm as [| | | | |? ? ? ? H1|? ? ? ? H2| | |]; subst.
    + destruct (IH1 Hp1 _ _ _ _ H1) as (w & a' & -> & -> & Hw).
      exists w, a'. split; [done|]. split; [done|]. by left.
    + destruct (IH2 Hp2 _ _ _ _ H2) as (w & a' & -> & -> & Hw).
      exists w, a'. split; [done|]. split; [done|]. by right.
  - remember (Re.Star r) as rs eqn:Hrs.
    remember (Re.MState b a g) as st eqn:Hst.
    revert b a g Hst Hrs.
    induction Hm as [| | | | | | |r0 st|r0 st st1 st2 H1 _ Hlt H2 IH2|];
      intros b a g Hst Hrs; try discriminate.
    + subst st. exists [], a. split; [done|]. split; [done|]. by exists [].
    + injection Hrs as ->. subst st.
      destruct (IH Hp _ _ _ _ H1) as (w1 & a1 & -> & -> & Hw1).
      destruct (IH2 _ _ _ eq_refl eq_refl) as (w2 & a2 & -> & -> & ws & -> & Hws).
      exists (w1 ++ concat ws), a2. split; [by rewrite app_assoc|].
      split; [by rewrite rev_app_distr, app_assoc|].
      exists (w1 :: ws). split; [done|]. constructor; [|done].
      split; [|done]. intros ->. simpl in Hlt. lia.
Qed.

Lemma matches_plain_intro r : plain r = true -> forall w b a g,
  lang r w -> matches r (Re.MState b (w ++ a) g) (Re.MState (rev w ++ b) a g).
Proof.
  induction r as [|p| | |r1 IH1 r2 IH2|r1 IH1 r2 IH2|r IH|i r IH];
    cbn [plain lang]; intros Hp w b a g Hw; try discriminate.
  - subst w. constructor.
  - destruct Hw as (c & -> & Hc). by apply matches_Chr_intro.
  - apply andb_prop in Hp as [Hp1 Hp2]. destruct Hw as (w1 & w2 & -> & Hw1 & Hw2).
    rewrite <- app_assoc, rev_app_distr, <- app_assoc.
    eapply M_Seq; [by apply IH1 | by apply IH2].
  - apply andb_prop in Hp as [Hp1 Hp2]. destruct Hw as [Hw|Hw].
    + apply M_AltL. by apply IH1.
    + apply M_AltR. by apply IH2.
  - destruct Hw as (ws & -> & Hws). revert b.
    induction Hws as [|w1 ws [Hne Hw1] _ IHws]; intros b; [constructor|].
    cbn [concat]. rewrite <- app_assoc, rev_app_distr, <- app_assoc.
    eapply M_StarCons; [by apply IH| |apply IHws].
    simpl. rewrite !length_app. destruct w1; [done|simpl; lia].
Qed.

(** ** [get_ipaddr] *)

Lemma get_ipaddr_Ok line a :
  get_ipaddr line = Ok a -> leading_token line a.
Proof.
  unfold get_ipaddr, Re.search.
  destruct (Re.search_from ipaddr_pattern line [] line) as [m|] eqn:Hs;
    [|discriminate].
  intros [= <-].
  apply search_from_Some in Hs as (pre & post & st' & Hline & Hm & ->).
  apply matches_ipaddr_pattern_inv in Hm as (Hb & a & Ha & [Haft Hbef] & Hw).
  simpl in Hb, Haft, Hbef.
  rewrite app_nil_r in Hb.
  assert (pre = []) as ->.
  { apply (f_equal (@rev _)) in Hb. by rewrite rev_involutive in Hb. }
  simpl in Hline. subst post.
  assert (Hg : Re.group0 (Re.MkMatch line (length (rev (@nil ascii) ++ []))
                            (Re.pos st') (Re.groups st')) = a).
  { unfold Re.group0, Re.pos. cbn [Re.m_start Re.m_end Re.m_string].
    rewrite Hbef, Haft. exact (slice_consumed [] a (Re.after st')). }
  rewrite Hg. exists (Re.after st'). done.
Qed.

Lemma get_ipaddr_succeeds line a :
  leading_token line a -> exists a', get_ipaddr line = Ok a'.
Proof.
  intros (rest & -> & Ha & Hw).
  destruct (matches_ipaddr_pattern_intro a rest Ha Hw) as (g & Hm).
  assert (Hs : is_Some (Re.search ipaddr_pattern (a ++ rest))).
  { apply search_from_is_Some. exists [], (a ++ rest). eauto. }
  destruct Hs as [m Hs]. unfold get_ipaddr. rewrite Hs. eauto.
Qed.

Lemma get_ipaddr_cases line :
  (exists a, get_ipaddr line = Ok a) \/ get_ipaddr line = Raise AttributeError.
Proof.
  unfold get_ipaddr. destruct (Re.search ipaddr_pattern line); eauto.
Qed.

(** ** [get_hour] on a line without an opening bracket *)


(** ** Cutting a line at the delimiter of [get_user_agent] *)

Lemma partition_Some sep s : forall a r,
  Str.partition sep s = (a, Some r) -> s = a ++ sep ++ r.
Proof.
  induction s as [|c s IH]; intros a r; cbn [Str.partition].
  - destruct (Str.strip_prefix sep []) as [rest|] eqn:Hp; [|discriminate].
    intros [= <- <-]. by apply strip_prefix_Some in Hp.
  - destruct (Str.strip_prefix sep (c :: s)) as [rest|] eqn:Hp.
    + intros [= <- <-]. by apply strip_prefix_Some in Hp.
    + destruct (Str.partition sep s) as [a' b'] eqn:Hq.
      intros [= <- ->]. by rewrite (IH _ _ eq_refl).
Qed.

Lemma split_fuel_enough sep : sep ≠ [] -> forall n m s,
  (length s <= n)%nat -> (length s <= m)%nat ->
  Str.split_fuel n sep s = Str.split_fuel m sep s.
Proof.
  intros Hsep. induction n as [|n IH]; intros m s Hn Hm.
  - destruct s; [|simpl in Hn; lia].
    destruct m; simpl; destruct sep; done.
  - cbn [Str.split_fuel].
    destruct (Str.partition sep s) as [a [r|]] eqn:Hp.
    + apply partition_Some in Hp as Hs.
      assert (length r < length s)%nat.
      { rewrite Hs, !length_app. destruct sep; [done|simpl; lia]. }
      destruct m as [|m]; [lia|]. cbn [Str.split_fuel]. rewrite Hp.
      f_equal. apply IH; lia.
    + destruct m; cbn [Str.split_fuel]; by rewrite Hp.
Qed.

(** [split] cuts at the first occurrence and goes on with the rest. *)
Lemma split_unfold sep s :
  sep ≠ [] ->
  Str.split sep s =
  match Str.partition sep s with
  | (a, None) => [a]
  | (a, Some r) => a :: Str.split sep r
  end.
Proof.
  intros Hsep. unfold Str.split.
  destruct (Str.partition sep s) as [a [r|]] eqn:Hp.
  - apply partition_Some in Hp as Hs.
    assert (length r < length s)%nat.
    { rewrite Hs, !length_app. destruct sep; [done|simpl; lia]. }
    destruct (length s) as [|n] eqn:Hl; [lia|].
    cbn [Str.split_fuel]. rewrite Hp. f_equal.
    apply split_fuel_enough; [done|lia|lia].
  - destruct (length s); cbn [Str.split_fuel]; by rewrite Hp.
Qed.

Lemma split_nonempty sep s : sep ≠ [] -> Str.split sep s ≠ [].
Proof.
  intros Hsep. rewrite split_unfold by done.
  by destruct (Str.partition sep s) as [a [r|]].
Qed.

(** With the delimiter quote-then-space, the first cut of a text that has
    the delimiter after [pre] is at or before the end of [pre], and what is
    left still has that occurrence whole. *)
Lemma partition_delim pre : forall rest,
  exists a r,
    Str.partition [dquote; " "] (pre ++ [dquote; " "] ++ rest) = (a, Some r) /\
    (r = rest \/ exists pre', r = pre' ++ [dquote; " "] ++ rest /\
                              (length pre' < length pre)%nat).
Proof.
  induction pre as [|c pre IH]; intros rest.
  - exists [], rest. split; [reflexivity | by left].
  - destruct (Str.strip_prefix [dquote; " "] ((c :: pre) ++ [dquote; " "] ++ rest))
      as [r|] eqn:Hp.
    + exists [], r. split; [simpl in *; by rewrite Hp|].
      apply strip_prefix_Some in Hp. right.
      destruct pre as [|d pre]; [simpl in Hp; by injection Hp|].
      exists pre. split; [|simpl; lia].
      simpl in Hp. by injection Hp as _ _ <-.
    + destruct (IH rest) as (a & r & Hq & Hr).
      exists (c :: a), r. split.
      * change ((c :: pre) ++ [dquote; " "] ++ rest)
          with (c :: (pre ++ [dquote; " "] ++ rest)) in *.
        cbn [Str.partition]. by rewrite Hp, Hq.
      * destruct Hr as [->|(pre' & -> & Hlt)]; [by left|right].
        exists pre'. split; [done|simpl; lia].
Qed.

(** So the last piece of the split is the last piece of what follows any
    occurrence of the delimiter. *)
Lemma last_item_split_delim pre rest :
  Str.last_item (Str.split [dquote; " "] (pre ++ [dquote; " "] ++ rest)) =
  Str.last_item (Str.split [dquote; " "] rest).
Proof.
  remember (length pre) as n eqn:Hn. revert pre Hn.
  induction n as [n IH] using lt_wf_ind. intros pre ->.
  rewrite split_unfold by done.
  destruct (partition_delim pre rest) as (a & r & -> & Hr).
  assert (Hlast : forall l, l ≠ [] -> Str.last_item (a :: l) = Str.last_item l).
  { intros [|x l] Hl; [done|reflexivity]. }
  rewrite Hlast by (by apply split_nonempty).
  destruct Hr as [->|(pre' & -> & Hlt)]; [done|].
  by apply (IH (length pre') Hlt).
Qed.

(** ** Stripping *)

Lemma rev_reverse (l : str) : rev l = reverse l.
Proof. unfold reverse. apply rev_alt. Qed.

Lemma lstrip_all chars x y :
  Forall (fun c => Str.mem c chars = true) x ->
  Str.lstrip chars (x ++ y) = Str.lstrip chars y.
Proof.
  induction 1 as [|c x Hc _ IH]; [reflexivity|].
  simpl. by rewrite Hc.
Qed.

Lemma lstrip_stop chars y :
  (forall c, head y = Some c -> Str.mem c chars = false) ->
  Str.lstrip chars y = y.
Proof.
  destruct y as [|c y]; [reflexivity|].
  intros H. simpl. by rewrite (H c eq_refl).
Qed.

Lemma trimmed_not_stripped ua c :
  dquote ∉ ua -> trimmed ua ->
  head ua = Some c \/ last ua = Some c -> Str.mem c strip_chars = false.
Proof.
  intros Hq Ht Hc. destruct (Ht c Hc) as [Hsp Hnl].
  assert (c ≠ dquote).
  { intros ->. apply Hq. destruct Hc as [Hc|Hc].
    - by apply head_Some_elem_of.
    - by apply last_Some_elem_of. }
  simpl. by rewrite !bool_decide_eq_false_2.
Qed.

Lemma line_end_stripped post :
  line_end post -> Forall (fun c => Str.mem c strip_chars = true) post.
Proof. intros [->| ->]; repeat constructor. Qed.

(** Stripping the last field, quotes included, leaves its content. *)
Lemma strip_quoted ua post :
  dquote ∉ ua -> trimmed ua -> line_end post ->
  Str.strip strip_chars (dquote :: ua ++ dquote :: post) = ua.
Proof.
  intros Hq Ht Hpost. unfold Str.strip, Str.rstrip.
  apply line_end_stripped in Hpost as Hall.
  destruct ua as [|c ua].
  - change (dquote :: [] ++ dquote :: post) with ([dquote; dquote] ++ post).
    rewrite lstrip_all by (repeat constructor).
    rewrite <- (app_nil_r post), lstrip_all by done. reflexivity.
  - remember (c :: ua) as u eqn:Hu.
    change (dquote :: u ++ dquote :: post) with ([dquote] ++ u ++ dquote :: post).
    rewrite lstrip_all by (repeat constructor).
    rewrite (lstrip_stop _ (u ++ dquote :: post)).
    2:{ subst u. intros d [= <-]. apply (trimmed_not_stripped (c :: ua)); auto. }
    rewrite rev_app_distr.
    change (rev (dquote :: post)) with (rev post ++ [dquote]).
    rewrite lstrip_all.
    2:{ apply Forall_app. split; [by apply Forall_rev | by repeat constructor]. }
    rewrite lstrip_stop; [apply rev_involutive|].
    intros d Hd. apply (trimmed_not_stripped u); [done..|].
    right. by rewrite rev_reverse, head_reverse in Hd.
Qed.

(** The last field holds no further delimiter. *)
Lemma no_delim_in_tail ua post :
  dquote ∉ ua -> line_end post ->
  ~ Str.contains [dquote; " "] (ua ++ dquote :: post).
Proof.
  intros Hq Hpost. induction ua as [|c ua IH].
  - intros (pre & y & H). destruct pre as [|d pre]; simpl in H.
    + destruct Hpost as [->| ->]; discriminate.
    + injection H as _ H. destruct Hpost as [->| ->].
      * by destruct pre.
      * destruct pre as [|? [|? ?]]; discriminate.
  - intros (pre & y & H). destruct pre as [|d pre]; simpl in H.
    + injection H as -> _. apply Hq. by left.
    + injection H as _ H. apply IH.
      * intros Hin. apply Hq. by right.
      * by exists pre, y.
Qed.

Lemma no_delim_in_quoted ua post :
  dquote ∉ ua -> trimmed ua -> line_end post ->
  ~ Str.contains [dquote; " "] (dquote :: ua ++ dquote :: post).
Proof.
  intros Hq Ht Hpost (pre & y & H). destruct pre as [|d pre]; simpl in H.
  - injection H as H. destruct ua as [|c ua]; [discriminate|].
    injection H as -> _. by destruct (Ht " " (or_introl eq_refl)).
  - injection H as _ H. apply (no_delim_in_tail ua post Hq Hpost).
    by exists pre, y.
Qed.

(** ** [get_user_agent] *)

(** On a line that ends in the quoted referrer, a space and the quoted user
    agent, [get_user_agent] looks at the content of that last field. *)
Lemma get_user_agent_quoted pre ua post :
  dquote ∉ ua -> trimmed ua -> line_end post ->
  get_user_agent (pre ++ [dquote; " "] ++ dquote :: ua ++ dquote :: post) =
  if (2 <? length ua)%nat then Some ua else None.
Proof.
  intros Hq Ht Hpost. unfold get_user_agent.
  rewrite last_item_split_delim.
  rewrite split_no_occurrence by (done || by apply no_delim_in_quoted).
  cbn [Str.last_item List.last]. by rewrite strip_quoted.
Qed.

(** On a line without the delimiter, [get_user_agent] looks at the whole
    line. *)
Lemma get_user_agent_no_delim line :
  ~ Str.contains [dquote; " "] line ->
  get_user_agent line =
  if (2 <? length (Str.strip strip_chars line))%nat
  then Some (Str.strip strip_chars line) else None.
Proof.
  intros Hno. unfold get_user_agent.
  by rewrite split_no_occurrence.
Qed.

(** ** The loops *)

Lemma bind_Ok {A B : Type} (m : result A) (f : A -> result B) b :
  m ≫= f = Ok b <-> exists a, m = Ok a /\ f a = Ok b.
Proof.
  destruct m as [a|e]; simpl.
  - split; [eauto | by intros (? & [= <-] & ?)].
  - split; [discriminate | by intros (? & [=] & _)].
Qed.


(** *** The histogram loop *)

Lemma count_hour_nonneg h lines : (0 <= count_hour h lines)%Z.
Proof.
  induction lines as [|l lines IH]; simpl; [lia|].
  destruct (get_hour l); [case_bool_decide|]; lia.
Qed.

Lemma count_hour_perm h lines lines' :
  lines ≡ₚ lines' -> count_hour h lines = count_hour h lines'.
Proof.
  induction 1 as [|l ? ? _ IH|l1 l2 ?|? ? ? _ IH1 _ IH2]; simpl.
  - reflexivity.
  - by rewrite IH.
  - destruct (get_hour l1), (get_hour l2); repeat case_bool_decide; lia.
  - congruence.
Qed.

Lemma hist_step_lookup m line h0 :
  get_hour line = Ok h0 ->
  exists m', hist_step m line = Ok m' /\
    forall h, m' !! h =
      if bool_decide (h0 = h) then Some (default 0 (m !! h) + 1)%Z else m !! h.
Proof.
  intros Hh. unfold hist_step. rewrite Hh. simpl.
  destruct (m !! h0) as [n|] eqn:Hm; eexists; (split; [reflexivity|]);
    intros h; case_bool_decide as Heq.
  - subst h. by rewrite lookup_insert_eq, Hm.
  - by rewrite lookup_insert_ne.
  - subst h. by rewrite lookup_insert_eq, Hm.
  - by rewrite lookup_insert_ne.
Qed.

Lemma hist_for_each lines : forall m0,
  (forall L, L ∈ lines -> exists h, get_hour L = Ok h) ->
  exists m, for_each hist_step lines m0 = Ok m /\
    forall h, m !! h = add_count (m0 !! h) (count_hour h lines).
Proof.
  induction lines as [|l lines IH]; intros m0 Hall.
  - exists m0. split; [reflexivity|]. intros h. reflexivity.
  - destruct (Hall l) as [h0 Hh0]; [by left|].
    destruct (hist_step_lookup m0 l h0 Hh0) as (m1 & Hstep & Hm1).
    destruct (IH m1) as (m & Hm & Hlook).
    { intros L HL. apply Hall. by right. }
    exists m. split; [simpl; by rewrite Hstep|].
    intros h. rewrite Hlook, Hm1. simpl. rewrite Hh0.
    pose proof (count_hour_nonneg h lines) as Hc.
    unfold add_count.
    case_bool_decide as Heq.
    + destruct (count_hour h lines =? 0)%Z eqn:E1;
        destruct (1 + count_hour h lines =? 0)%Z eqn:E2;
        try (apply Z.eqb_eq in E1); try (apply Z.eqb_eq in E2);
        simpl; try lia; f_equal; lia.
    + reflexivity.
Qed.

(** *** The address loop *)

Lemma ip_step_bot S line :
  is_bot (get_user_agent line) = true -> ip_step S line = Ok S.
Proof. intros H. unfold ip_step. by rewrite H. Qed.

Lemma ip_step_nonbot S line a :
  is_bot (get_user_agent line) = false -> get_ipaddr line = Ok a ->
  ip_step S line = Ok ({[a]} ∪ S).
Proof. intros H Ha. unfold ip_step. by rewrite H, Ha. Qed.

Lemma ip_for_each lines : forall S0,
  (forall L, L ∈ lines -> is_bot (get_user_agent L) = false ->
             exists a, get_ipaddr L = Ok a) ->
  exists S, for_each ip_step lines S0 = Ok S /\
    forall a, a ∈ S <->
      a ∈ S0 \/
      exists L, L ∈ lines /\ is_bot (get_user_agent L) = false /\
                get_ipaddr L = Ok a.
Proof.
  induction lines as [|l lines IH]; intros S0 Hall.
  - exists S0. split; [reflexivity|]. intros a. split; [by left|].
    intros [H|(L & HL & _)]; [done | by apply elem_of_nil in HL].
  - assert (Hrest : forall L, L ∈ lines -> is_bot (get_user_agent L) = false ->
                              exists a, get_ipaddr L = Ok a).
    { intros L HL. apply Hall. by right. }
    cbn [for_each].
    destruct (is_bot (get_user_agent l)) eqn:Hbot.
    + rewrite ip_step_bot by done.
      destruct (IH S0 Hrest) as (S & HS & Hmem). exists S. split; [done|].
      intros a. rewrite Hmem. split; intros [H|(L & HL & Hb & Ha)]; auto.
      * right. exists L. split; [by right|done].
      * apply elem_of_cons in HL as [->|HL]; [congruence|].
        right. by exists L.
    + destruct (Hall l) as [a0 Ha0]; [by left|done|].
      rewrite (ip_step_nonbot _ _ a0) by done.
      destruct (IH ({[a0]} ∪ S0) Hrest) as (S & HS & Hmem). exists S.
      split; [done|]. intros a. rewrite Hmem, elem_of_union, elem_of_singleton.
      split.
      * intros [[->|H]|(L & HL & Hb & Ha)]; auto.
        -- right. exists l. split; [by left|done].
        -- right. exists L. split; [by right|done].
      * intros [H|(L & HL & Hb & Ha)]; auto.
        apply elem_of_cons in HL as [->|HL].
        -- left. left. congruence.
        -- right. by exists L.
Qed.

(** ** [strptime] on a timestamp as the server writes it *)

Lemma code_digit_char n :
  (0 <= n <= 9)%Z -> Chars.code (digit_char n) = (48 + Z.to_nat n)%nat.
Proof.
  intros Hn. unfold Chars.code, digit_char. apply nat_ascii_embedding. lia.
Qed.

Lemma between_digit_char lo hi n :
  (0 <= lo)%Z -> (hi <= 9)%Z -> (lo <= n <= hi)%Z ->
  Chars.between (digit_char lo) (digit_char hi) (digit_char n) = true.
Proof.
  intros Hlo Hhi Hn. unfold Chars.between.
  rewrite !code_digit_char by lia.
  apply andb_true_intro. split; apply Nat.leb_le; lia.
Qed.

Lemma is_digit_digit_char n :
  (0 <= n <= 9)%Z -> Chars.is_digit (digit_char n) = true.
Proof. intros Hn. by apply (between_digit_char 0 9 n). Qed.

Lemma digit_val_digit_char n :
  (0 <= n <= 9)%Z -> Chars.digit_val (digit_char n) = n.
Proof.
  intros Hn. unfold Chars.digit_val. rewrite code_digit_char by lia. lia.
Qed.

Lemma is_digit_not c d :
  Chars.is_digit c = true -> Chars.is_digit d = false -> c ≠ d.
Proof. intros Hc Hd ->. congruence. Qed.

Lemma lstrip_digits chars w :
  (forall c, Chars.is_digit c = true -> Str.mem c chars = false) ->
  (forall c, head w = Some c -> Chars.is_digit c = true) ->
  Str.lstrip chars w = w.
Proof. intros Hchars Hw. apply lstrip_stop. intros c Hc. auto. Qed.

(** [int] on a text of digits is its decimal value. *)
Lemma int_digits w :
  w ≠ [] -> Forall (fun c => Chars.is_digit c = true) w ->
  Strptime.int w = Strptime.digits_val 0 w.
Proof.
  intros Hne Hw. unfold Strptime.int.
  assert (Hsp : forall c, Chars.is_digit c = true -> Str.mem c (lit " ") = false).
  { intros c Hc. simpl. rewrite bool_decide_eq_false_2; [done|].
    by apply (is_digit_not c " "). }
  assert (Hstrip : Str.strip (lit " ") w = w).
  { unfold Str.strip, Str.rstrip.
    rewrite (lstrip_digits _ w Hsp).
    2:{ intros c Hc. apply head_Some_elem_of in Hc.
        rewrite Forall_forall in Hw. auto. }
    rewrite (lstrip_digits _ (rev w) Hsp); [apply rev_involutive|].
    intros c Hc. rewrite rev_reverse, head_reverse in Hc.
    apply last_Some_elem_of in Hc. rewrite Forall_forall in Hw. auto. }
  rewrite Hstrip. by destruct w.
Qed.

Lemma int_two c1 c2 :
  Chars.is_digit c1 = true -> Chars.is_digit c2 = true ->
  Strptime.int [c1; c2] = Some (10 * Chars.digit_val c1 + Chars.digit_val c2)%Z.
Proof.
  intros H1 H2. rewrite int_digits by (done || by repeat constructor).
  cbn [Strptime.digits_val]. rewrite H1, H2. f_equal.
Qed.

Lemma int_two_digits n :
  (0 <= n <= 99)%Z -> Strptime.int (two_digits n) = Some n.
Proof.
  intros Hn. unfold two_digits.
  assert (0 <= n / 10 <= 9)%Z by (Z.div_mod_to_equations; lia).
  assert (0 <= n mod 10 <= 9)%Z by (Z.div_mod_to_equations; lia).
  rewrite int_two by (by apply is_digit_digit_char).
  rewrite !digit_val_digit_char by done. f_equal.
  Z.div_mod_to_equations; lia.
Qed.

Lemma int_four c1 c2 c3 c4 :
  Chars.is_digit c1 = true -> Chars.is_digit c2 = true ->
  Chars.is_digit c3 = true -> Chars.is_digit c4 = true ->
  Strptime.int [c1; c2; c3; c4] =
  Some (1000 * Chars.digit_val c1 + 100 * Chars.digit_val c2 +
        10 * Chars.digit_val c3 + Chars.digit_val c4)%Z.
Proof.
  intros H1 H2 H3 H4. rewrite int_digits by (done || by repeat constructor).
  cbn [Strptime.digits_val]. rewrite H1, H2, H3, H4. f_equal. lia.
Qed.

Lemma int_four_digits n :
  (0 <= n <= 9999)%Z -> Strptime.int (four_digits n) = Some n.
Proof.
  intros Hn. unfold four_digits.
  assert (0 <= n / 1000 <= 9)%Z by (Z.div_mod_to_equations; lia).
  assert (0 <= n / 100 mod 10 <= 9)%Z by (Z.div_mod_to_equations; lia).
  assert (0 <= n / 10 mod 10 <= 9)%Z by (Z.div_mod_to_equations; lia).
  assert (0 <= n mod 10 <= 9)%Z by (Z.div_mod_to_equations; lia).
  rewrite int_four by (by apply is_digit_digit_char).
  rewrite !digit_val_digit_char by done. f_equal.
  Z.div_mod_to_equations; lia.
Qed.

(** *** One field of the format at a time *)

Lemma step_group i F r b a g st' :
  plain F = true ->
  matches (Re.Seq (Re.Group i F) r) (Re.MState b a g) st' ->
  exists w a', a = w ++ a' /\ lang F w /\
    matches r (Re.MState (rev w ++ b) a'
                 ((i, (length b, length (rev w ++ b))) :: g)) st'.
Proof.
  intros Hp Hm. inversion Hm as [| | | |? ? ? st1 ? H1 H2| | | | |]; subst.
  inversion H1 as [| | | | | | | | |? ? ? st2 HF]; subst.
  destruct (matches_plain_inv F Hp _ _ _ _ HF) as (w & a' & -> & -> & Hw).
  by exists w, a'.
Qed.

Lemma step_plain F r b a g st' :
  plain F = true ->
  matches (Re.Seq F r) (Re.MState b a g) st' ->
  exists w a', a = w ++ a' /\ lang F w /\
    matches r (Re.MState (rev w ++ b) a' g) st'.
Proof.
  intros Hp Hm. inversion Hm as [| | | |? ? ? st1 ? H1 H2| | | | |]; subst.
  destruct (matches_plain_inv F Hp _ _ _ _ H1) as (w & a' & -> & -> & Hw).
  by exists w, a'.
Qed.

Lemma intro_group i F r w b a g st' :
  plain F = true -> lang F w ->
  matches r (Re.MState (rev w ++ b) a
               ((i, (length b, length (rev w ++ b))) :: g)) st' ->
  matches (Re.Seq (Re.Group i F) r) (Re.MState b (w ++ a) g) st'.
Proof.
  intros Hp Hw Hr. eapply M_Seq; [|exact Hr].
  apply (M_Group i F (Re.MState b (w ++ a) g) (Re.MState (rev w ++ b) a g)).
  by apply matches_plain_intro.
Qed.

Lemma intro_plain F r w b a g st' :
  plain F = true -> lang F w ->
  matches r (Re.MState (rev w ++ b) a g) st' ->
  matches (Re.Seq F r) (Re.MState b (w ++ a) g) st'.
Proof.
  intros Hp Hw Hr. eapply M_Seq; [|exact Hr]. by apply matches_plain_intro.
Qed.

(** Takes apart what the hypotheses on [lang] of concrete patterns say. *)
Ltac break_lang :=
  repeat match goal with
         | H : lang _ _ |- _ =>
             progress cbn [lang Re.Char Re.Digit Re.Opt Re.Plus Strptime.Range
                           Strptime.OneOf Strptime.ICharR Strptime.ILit
                           Strptime.Seqs Strptime.Alts Strptime.UpTo map] in H
         | H : _ \/ _ |- _ => destruct H as [H|H]
         | H : exists _, _ |- _ => destruct H as [? H]
         | H : _ /\ _ |- _ => destruct H as [? H]
         | H : bool_decide (_ = _) = true |- _ => apply bool_decide_eq_true in H
         end;
  subst.

Lemma lang_Char c w : lang (Re.Char c) w <-> w = [c].
Proof.
  split.
  - intros (d & -> & Hd). by apply bool_decide_eq_true in Hd as ->.
  - intros ->. exists c. split; [done|]. by apply bool_decide_eq_true.
Qed.

Lemma lang_re_d_length w : lang Strptime.re_d w -> length w = 1%nat \/ length w = 2%nat.
Proof. unfold Strptime.re_d. intros H. break_lang; simpl; auto. Qed.

Lemma lang_re_H_length w : lang Strptime.re_H w -> length w = 1%nat \/ length w = 2%nat.
Proof. unfold Strptime.re_H. intros H. break_lang; simpl; auto. Qed.

Lemma lang_re_M_length w : lang Strptime.re_M w -> length w = 1%nat \/ length w = 2%nat.
Proof. unfold Strptime.re_M. intros H. break_lang; simpl; auto. Qed.

Lemma lang_re_S_length w : lang Strptime.re_S w -> length w = 1%nat \/ length w = 2%nat.
Proof. unfold Strptime.re_S. intros H. break_lang; simpl; auto. Qed.

Lemma lang_re_Y_length w : lang Strptime.re_Y w -> length w = 4%nat.
Proof. unfold Strptime.re_Y. intros H. break_lang; simpl; auto. Qed.

Lemma lang_re_b_length w : lang Strptime.re_b w -> length w = 3%nat.
Proof.
  unfold Strptime.re_b, Strptime.a_month, lit. cbn [map list_ascii_of_string].
  intros H. break_lang; simpl; auto.
Qed.

Lemma lang_Plus_Chr p w :
  lang (Re.Plus (Re.Chr p)) w ->
  exists c w', w = c :: w' /\ p c = true /\ Forall (fun d => p d = true) w'.
Proof.
  intros (w1 & w2 & -> & (c & -> & Hc) & ws & -> & Hws).
  exists c, (concat ws). split; [done|]. split; [done|].
  induction Hws as [|x ws [_ (d & -> & Hd)] _ IH]; [constructor|].
  by constructor.
Qed.

(** Closes a case in which a character would have to be of two kinds. *)
Ltac not_this_char :=
  exfalso;
  match goal with
  | H : Chars.is_digit _ = true |- _ => by vm_compute in H
  | H : Chars.between _ _ _ = true |- _ => by vm_compute in H
  | H : Chars.is_space _ = true |- _ => by vm_compute in H
  | H : Str.mem _ _ = true |- _ => by vm_compute in H
  | H : _ = _ \/ _ = _ |- _ => by destruct H
  end.

(** One step through a sequence whose first pattern has no group. *)
Ltac pstep H :=
  apply step_plain in H; [|reflexivity];
  let w := fresh "w" in
  let a := fresh "a" in
  let Ha := fresh "Ha" in
  let Hw := fresh "Hw" in
  destruct H as (w & a & Ha & Hw & H);
  break_lang; simpl in Ha; simplify_eq; try not_this_char;
  cbn [rev app] in H.

(** The same through a parenthesis, given the lengths its content may have. *)
Ltac gstep H len_lemma :=
  apply step_group in H; [|reflexivity];
  let w := fresh "w" in
  let a := fresh "a" in
  let Ha := fresh "Ha" in
  let Hw := fresh "Hw" in
  destruct H as (w & a & Ha & Hw & H);
  apply len_lemma in Hw;
  repeat (destruct w as [|? w]; simpl in Hw; try (destruct Hw; discriminate);
          try discriminate);
  simpl in Ha; simplify_eq; try clear Hw;
  cbn [rev app length] in H.

(** At the end of the text the optional seconds of an offset match
    nothing. *)
Lemma matches_opt_seconds_at_end i R b g st' :
  matches (Re.Seq (Re.Opt (Re.Group i
             (Re.Seq (Re.Opt (Re.Char ":")) (Re.Seq (Strptime.Range "0" "5") R))))
             Re.Eps)
    (Re.MState b [] g) st' ->
  st' = Re.MState b [] g.
Proof.
  intros Hm.
  inversion Hm as [| | | |? ? ? st1 ? H1 H2| | | | |]; subst; clear Hm.
  inversion H2; subst; clear H2.
  inversion H1 as [| | | | |? ? ? ? H|? ? ? ? H| | |]; subst; clear H1.
  - exfalso. inversion H as [| | | | | | | | |? ? ? st2 HX]; subst; clear H.
    pstep HX. pstep HX.
  - by inversion H.
Qed.

Lemma matches_re_z_inv sg z1 z2 z3 z4 b g st' :
  Str.mem sg ["+"; "-"] = true -> Chars.is_digit z3 = true ->
  matches Strptime.re_z (Re.MState b [sg; z1; z2; z3; z4] g) st' ->
  st' = Re.MState ([z4; z3; z2; z1; sg] ++ b) [] g.
Proof.
  intros Hsg Hz3 Hm. unfold Strptime.re_z in Hm.
  inversion Hm as [| | | | |? ? ? ? H|? ? ? ? H| | |]; subst; clear Hm.
  - cbn [Strptime.Seqs] in H.
    pstep H. pstep H. pstep H. pstep H. pstep H. pstep H.
    by apply matches_opt_seconds_at_end in H.
  - apply matches_Chr_inv in H as (c & Hc & [Ha _] & _).
    simpl in Ha. apply bool_decide_eq_true in Hc. simplify_eq; try not_this_char.
Qed.

Lemma matches_re_z_intro sg z1 z2 z3 z4 b g :
  Str.mem sg ["+"; "-"] = true ->
  Chars.is_digit z1 = true -> Chars.is_digit z2 = true ->
  Chars.between "0" "5" z3 = true -> Chars.is_digit z4 = true ->
  matches Strptime.re_z (Re.MState b [sg; z1; z2; z3; z4] g)
    (Re.MState ([z4; z3; z2; z1; sg] ++ b) [] g).
Proof.
  intros Hsg H1 H2 H3 H4. unfold Strptime.re_z. apply M_AltL.
  cbn [Strptime.Seqs].
  apply (intro_plain _ _ [sg] b); [done|by exists sg|].
  apply (intro_plain _ _ [z1]); [done|by exists z1|].
  apply (intro_plain _ _ [z2]); [done|by exists z2|].
  apply (intro_plain _ _ []); [done|by right|].
  apply (intro_plain _ _ [z3]); [done|by exists z3|].
  apply (intro_plain _ _ [z4]); [done|by exists z4|].
  eapply M_Seq; [apply M_AltR|]; constructor.
Qed.

Lemma digit_not_space c :
  Chars.is_digit c = true -> Chars.is_space c = true -> False.
Proof.
  unfold Chars.is_digit, Chars.is_space, Chars.between.
  intros Hd Hs. apply andb_prop in Hd as [Hd1 Hd2].
  apply Nat.leb_le in Hd1, Hd2. change (Chars.code "0") with 48%nat in Hd1.
  apply orb_prop in Hs as [Hs|Hs]; [apply orb_prop in Hs as [Hs|Hs]|].
  - apply bool_decide_eq_true in Hs. subst c. vm_compute in Hd1. lia.
  - apply andb_prop in Hs as [_ Hs]. apply Nat.leb_le in Hs.
    change (Chars.code "013") with 13%nat in Hs. lia.
  - apply andb_prop in Hs as [_ Hs]. apply Nat.leb_le in Hs.
    change (Chars.code "031") with 31%nat in Hs. lia.
Qed.

Lemma sign_cases sg : Str.mem sg ["+"; "-"] = true -> sg = "+" \/ sg = "-".
Proof.
  unfold Str.mem. cbn [existsb]. intros H.
  apply orb_prop in H as [H|H]; [left; by apply bool_decide_eq_true in H|].
  apply orb_prop in H as [H|H]; [right; by apply bool_decide_eq_true in H|done].
Qed.

Lemma sign_not_space sg :
  Str.mem sg ["+"; "-"] = true -> Chars.is_space sg = true -> False.
Proof. intros H Hs. by destruct (sign_cases sg H) as [-> | ->]. Qed.

(** On a timestamp of the usual shape the format's pattern has one match
    only: each field ends where its text ends. *)
Lemma format_regex_unique d1 d2 m1 m2 m3 y1 y2 y3 y4 h1 h2 n1 n2 s1 s2 sg z1 z2 z3 z4 st' :
  Chars.is_digit d2 = true -> Chars.is_digit h2 = true ->
  Chars.is_digit n2 = true -> Chars.is_digit s2 = true ->
  Str.mem sg ["+"; "-"] = true -> Chars.is_digit z3 = true ->
  matches Strptime.format_regex
    (Re.MState [] (timestamp_text d1 d2 m1 m2 m3 y1 y2 y3 y4 h1 h2 n1 n2 s1 s2 sg z1 z2 z3 z4) [])
    st' ->
  st' = Re.MState (rev (timestamp_text d1 d2 m1 m2 m3 y1 y2 y3 y4 h1 h2 n1 n2 s1 s2 sg z1 z2 z3 z4))
          [] timestamp_groups.
Proof.
  intros Hd2 Hh2 Hn2 Hs2 Hsg Hz3 H.
  unfold Strptime.format_regex, timestamp_text in *. cbn [Strptime.Seqs] in H.
  gstep H lang_re_d_length; pstep H.
  gstep H lang_re_b_length; pstep H.
  gstep H lang_re_Y_length; pstep H.
  gstep H lang_re_H_length; pstep H.
  gstep H lang_re_M_length; pstep H.
  gstep H lang_re_S_length;
    (apply step_plain in H; [|reflexivity]);
    destruct H as (w & a & Ha & Hw & H);
    apply lang_Plus_Chr in Hw as (c & w' & -> & Hc & Hw');
    simpl in Ha; injection Ha as <- Ha.
  - exfalso. by apply (digit_not_space s2).
  - destruct w' as [|c' w']; simpl in Ha.
    2:{ exfalso. injection Ha as Hc' _. subst c'. inversion Hw'; subst.
        by apply (sign_not_space sg). }
    subst a. cbn [rev app] in H.
    inversion H as [| | | |? ? ? st1 ? H1 H2| | | | |]; subst; clear H.
    inversion H2; subst; clear H2.
    inversion H1 as [| | | | | | | | |? ? ? st2 Hz]; subst; clear H1.
    apply matches_re_z_inv in Hz; [|done..]. subst st2. reflexivity.
Qed.

(** And it has that match when each field is a text of its directive. *)
Lemma format_regex_matches d1 d2 m1 m2 m3 y1 y2 y3 y4 h1 h2 n1 n2 s1 s2 sg z1 z2 z3 z4 :
  lang Strptime.re_d [d1; d2] -> lang Strptime.re_b [m1; m2; m3] ->
  lang Strptime.re_Y [y1; y2; y3; y4] -> lang Strptime.re_H [h1; h2] ->
  lang Strptime.re_M [n1; n2] -> lang Strptime.re_S [s1; s2] ->
  Str.mem sg ["+"; "-"] = true ->
  Chars.is_digit z1 = true -> Chars.is_digit z2 = true ->
  Chars.between "0" "5" z3 = true -> Chars.is_digit z4 = true ->
  matches Strptime.format_regex
    (Re.MState [] (timestamp_text d1 d2 m1 m2 m3 y1 y2 y3 y4 h1 h2 n1 n2 s1 s2 sg z1 z2 z3 z4) [])
    (Re.MState (rev (timestamp_text d1 d2 m1 m2 m3 y1 y2 y3 y4 h1 h2 n1 n2 s1 s2 sg z1 z2 z3 z4))
       [] timestamp_groups).
Proof.
  intros Hd Hb HY HH HM HS Hsg Hz1 Hz2 Hz3 Hz4.
  unfold Strptime.format_regex, timestamp_text, timestamp_groups.
  cbn [Strptime.Seqs rev app].
  apply (intro_group 1 _ _ [d1; d2] []); [done|exact Hd|]. cbn [rev app length].
  apply (intro_plain _ _ ["/"]); [done|by apply lang_Char|]. cbn [rev app].
  apply (intro_group 2 _ _ [m1; m2; m3]); [done|exact Hb|]. cbn [rev app length].
  apply (intro_plain _ _ ["/"]); [done|by apply lang_Char|]. cbn [rev app].
  apply (intro_group 3 _ _ [y1; y2; y3; y4]); [done|exact HY|]. cbn [rev app length].
  apply (intro_plain _ _ [":"]); [done|by apply lang_Char|]. cbn [rev app].
  apply (intro_group 4 _ _ [h1; h2]); [done|exact HH|]. cbn [rev app length].
  apply (intro_plain _ _ [":"]); [done|by apply lang_Char|]. cbn [rev app].
  apply (intro_group 5 _ _ [n1; n2]); [done|exact HM|]. cbn [rev app length].
  apply (intro_plain _ _ [":"]); [done|by apply lang_Char|]. cbn [rev app].
  apply (intro_group 6 _ _ [s1; s2]); [done|exact HS|]. cbn [rev app length].
  apply (intro_plain _ _ [" "]); [done| |]. 
  { exists [" "], []. split; [done|]. split; [by exists " "|].
    exists []. split; [done|constructor]. }
  cbn [rev app].
  eapply M_Seq; [|constructor].
  match goal with |- matches _ ?st _ =>
    apply (M_Group 7 _ st (Re.MState ([z4; z3; z2; z1; sg] ++ Re.before st) [] (Re.groups st)))
  end.
  by apply matches_re_z_intro.
Qed.

Lemma match_format d1 d2 m1 m2 m3 y1 y2 y3 y4 h1 h2 n1 n2 s1 s2 sg z1 z2 z3 z4 :
  lang Strptime.re_d [d1; d2] -> lang Strptime.re_b [m1; m2; m3] ->
  lang Strptime.re_Y [y1; y2; y3; y4] -> lang Strptime.re_H [h1; h2] ->
  lang Strptime.re_M [n1; n2] -> lang Strptime.re_S [s1; s2] ->
  Chars.is_digit d2 = true -> Chars.is_digit h2 = true ->
  Chars.is_digit n2 = true -> Chars.is_digit s2 = true ->
  Str.mem sg ["+"; "-"] = true ->
  Chars.is_digit z1 = true -> Chars.is_digit z2 = true ->
  Chars.between "0" "5" z3 = true -> Chars.is_digit z4 = true ->
  Re.match_ Strptime.format_regex
    (timestamp_text d1 d2 m1 m2 m3 y1 y2 y3 y4 h1 h2 n1 n2 s1 s2 sg z1 z2 z3 z4)
  = Some (Re.MkMatch
            (timestamp_text d1 d2 m1 m2 m3 y1 y2 y3 y4 h1 h2 n1 n2 s1 s2 sg z1 z2 z3 z4)
            0 26 timestamp_groups).
Proof.
  intros Hd Hb HY HH HM HS Hd2 Hh2 Hn2 Hs2 Hsg Hz1 Hz2 Hz3 Hz4.
  assert (Hz3' : Chars.is_digit z3 = true).
  { unfold Chars.is_digit, Chars.between in *.
    apply andb_prop in Hz3 as [Hlo Hhi]. apply Nat.leb_le in Hhi.
    apply andb_true_intro. split; [done|]. apply Nat.leb_le.
    change (Chars.code "5") with 53%nat in Hhi.
    change (Chars.code "9") with 57%nat. lia. }
  pose proof (format_regex_matches d1 d2 m1 m2 m3 y1 y2 y3 y4 h1 h2 n1 n2 s1 s2
                sg z1 z2 z3 z4 Hd Hb HY HH HM HS Hsg Hz1 Hz2 Hz3 Hz4) as Hex.
  unfold Re.match_, Re.match_at.
  match goal with |- Re.run _ ?st ?k = _ =>
    destruct (Re.run Strptime.format_regex st k) as [m|] eqn:Hrun end.
  - apply run_sound in Hrun as (st' & Hm & Hk).
    apply format_regex_unique in Hm; [|done..]. subst st'.
    rewrite <- Hk. reflexivity.
  - pose proof (run_None _ _ _ Hrun _ Hex) as Hk. discriminate.
Qed.

Lemma gmtoff_of_text sg z1 z2 z3 z4 :
  Str.mem sg ["+"; "-"] = true ->
  Chars.is_digit z1 = true -> Chars.is_digit z2 = true ->
  Chars.is_digit z3 = true -> Chars.is_digit z4 = true ->
  Strptime.gmtoff_of [sg; z1; z2; z3; z4] =
  Some (let off := ((10 * Chars.digit_val z1 + Chars.digit_val z2) * 3600 +
                    (10 * Chars.digit_val z3 + Chars.digit_val z4) * 60 + 0)%Z in
        if bool_decide (sg = "-") then (- off)%Z else off).
Proof.
  intros Hsg H1 H2 H3 H4. unfold Strptime.gmtoff_of.
  rewrite bool_decide_eq_false_2 by discriminate.
  change ([sg; z1; z2; z3; z4] !! 3%nat) with (Some z3).
  rewrite bool_decide_eq_false_2.
  2:{ intros [= ->]. by vm_compute in H3. }
  cbn [mbind option_bind].
  change (Str.slice 1 3 [sg; z1; z2; z3; z4]) with [z1; z2].
  change (Str.slice 3 5 [sg; z1; z2; z3; z4]) with [z3; z4].
  change (Str.slice 5 7 [sg; z1; z2; z3; z4]) with (@nil ascii).
  rewrite !int_two by done. cbn [mbind option_bind head].
  f_equal. destruct (sign_cases sg Hsg) as [-> | ->]; reflexivity.
Qed.

(** *** The fields of a written timestamp *)

Lemma fullmatch_lang r w : plain r = true -> fullmatch r w = true -> lang r w.
Proof.
  intros Hp H. apply bool_decide_eq_true in H as [x Hx].
  apply run_sound in Hx as (st' & Hm & Hk).
  apply (matches_plain_inv r Hp) in Hm as (w' & a' & -> & -> & Hw).
  simpl in Hk. destruct a'; [|discriminate]. by rewrite app_nil_r.
Qed.

(** A check run on every number of a range holds for each of them. *)
Lemma range_check (P : Z -> bool) (lo : Z) (n : nat) :
  forallb P (map (fun i => lo + Z.of_nat i)%Z (seq 0 n)) = true ->
  forall h, (lo <= h < lo + Z.of_nat n)%Z -> P h = true.
Proof.
  intros Hall h Hh. rewrite forallb_forall in Hall. apply Hall.
  apply in_map_iff. exists (Z.to_nat (h - lo)). split; [lia|].
  apply in_seq. lia.
Qed.

Lemma lang_re_d_two_digits n :
  (1 <= n <= 31)%Z -> lang Strptime.re_d (two_digits n).
Proof.
  intros Hn. apply fullmatch_lang; [done|].
  apply (range_check (fun n => fullmatch Strptime.re_d (two_digits n)) 1 31);
    [by vm_compute | lia].
Qed.

Lemma lang_re_H_two_digits n :
  (0 <= n <= 23)%Z -> lang Strptime.re_H (two_digits n).
Proof.
  intros Hn. apply fullmatch_lang; [done|].
  apply (range_check (fun n => fullmatch Strptime.re_H (two_digits n)) 0 24);
    [by vm_compute | lia].
Qed.

Lemma lang_re_M_two_digits n :
  (0 <= n <= 59)%Z -> lang Strptime.re_M (two_digits n).
Proof.
  intros Hn. apply fullmatch_lang; [done|].
  apply (range_check (fun n => fullmatch Strptime.re_M (two_digits n)) 0 60);
    [by vm_compute | lia].
Qed.

Lemma lang_re_S_two_digits n :
  (0 <= n <= 59)%Z -> lang Strptime.re_S (two_digits n).
Proof.
  intros Hn. apply fullmatch_lang; [done|].
  apply (range_check (fun n => fullmatch Strptime.re_S (two_digits n)) 0 60);
    [by vm_compute | lia].
Qed.

Lemma lang_Seq_Chr p r c w :
  p c = true -> lang r w -> lang (Re.Seq (Re.Chr p) r) (c :: w).
Proof. intros Hc Hw. exists [c], w. split; [done|]. split; [by exists c|done]. Qed.

Lemma lang_re_Y_four_digits n :
  (0 <= n <= 9999)%Z -> lang Strptime.re_Y (four_digits n).
Proof.
  intros Hn.
  assert (0 <= n / 1000 <= 9)%Z by (Z.div_mod_to_equations; lia).
  assert (0 <= n / 100 mod 10 <= 9)%Z by (Z.div_mod_to_equations; lia).
  assert (0 <= n / 10 mod 10 <= 9)%Z by (Z.div_mod_to_equations; lia).
  assert (0 <= n mod 10 <= 9)%Z by (Z.div_mod_to_equations; lia).
  unfold Strptime.re_Y, four_digits, Re.Digit. cbn [Strptime.Seqs].
  repeat (apply lang_Seq_Chr; [by apply is_digit_digit_char|]). done.
Qed.

(** The abbreviated name of a month is three letters long, is a text of
    [%b], stands at the month's place in [strptime]'s list of names, and
    holds no bracket and no newline. *)
Lemma month_abbr_ok mo :
  (1 <= mo <= 12)%Z ->
  exists m1 m2 m3,
    nth (Z.to_nat (mo - 1)) month_abbr [] = [m1; m2; m3] /\
    lang Strptime.re_b [m1; m2; m3] /\
    Strptime.index_of (Str.lower [m1; m2; m3]) Strptime.a_month 1 = Some mo /\
    forallb timestamp_char [m1; m2; m3] = true.
Proof.
  intros Hmo.
  assert (Hok : month_ok mo = true).
  { apply (range_check month_ok 1 12); [by vm_compute | lia]. }
  unfold month_ok in Hok. cbn zeta in Hok.
  apply andb_prop in Hok as [Hok Hch]. apply andb_prop in Hok as [Hok Hidx].
  apply andb_prop in Hok as [Hlen Hre].
  apply bool_decide_eq_true in Hlen, Hidx.
  destruct (nth (Z.to_nat (mo - 1)) month_abbr []) as [|m1 [|m2 [|m3 [|]]]];
    try discriminate.
  exists m1, m2, m3. split; [done|]. split; [|done].
  by apply fullmatch_lang.
Qed.

Lemma days_in_month_le y m : (Strptime.days_in_month y m <= 31)%Z.
Proof.
  unfold Strptime.days_in_month.
  repeat match goal with |- context [if ?b then _ else _] => destruct b end; lia.
Qed.

Lemma digit_quot n : (0 <= n <= 99)%Z -> (0 <= n / 10 <= 9)%Z.
Proof. intros. Z.div_mod_to_equations; lia. Qed.

Lemma digit_rem n : (0 <= n mod 10 <= 9)%Z.
Proof. Z.div_mod_to_equations; lia. Qed.

(** What [parse] makes of the groups of the format's match. *)
Lemma parse_timestamp_text
    d1 d2 m1 m2 m3 y1 y2 y3 y4 h1 h2 n1 n2 s1 s2 sg z1 z2 z3 z4 D mo Y H M S off :
  Re.match_ Strptime.format_regex
    (timestamp_text d1 d2 m1 m2 m3 y1 y2 y3 y4 h1 h2 n1 n2 s1 s2 sg z1 z2 z3 z4)
  = Some (Re.MkMatch
            (timestamp_text d1 d2 m1 m2 m3 y1 y2 y3 y4 h1 h2 n1 n2 s1 s2 sg z1 z2 z3 z4)
            0 26 timestamp_groups) ->
  Strptime.int [d1; d2] = Some D ->
  Strptime.index_of (Str.lower [m1; m2; m3]) Strptime.a_month 1 = Some mo ->
  Strptime.int [y1; y2; y3; y4] = Some Y ->
  Strptime.int [h1; h2] = Some H ->
  Strptime.int [n1; n2] = Some M ->
  Strptime.int [s1; s2] = Some S ->
  Strptime.gmtoff_of [sg; z1; z2; z3; z4] = Some off ->
  (1 <= Y)%Z -> (D <= Strptime.days_in_month Y mo)%Z -> (S <= 59)%Z ->
  (-86400 < off < 86400)%Z ->
  Strptime.parse
    (timestamp_text d1 d2 m1 m2 m3 y1 y2 y3 y4 h1 h2 n1 n2 s1 s2 sg z1 z2 z3 z4)
  = Some (Strptime.Datetime Y mo D H M S off).
Proof.
  intros Hm HD Hmo HY HH HM HS Hoff H1 H2 H3 H4.
  unfold Strptime.parse. rewrite Hm. cbn [mbind option_bind].
  rewrite option_guard_True by reflexivity.
  set (found := Re.MkMatch _ _ _ _).
  assert (G1 : Re.group found 1 = Some [d1; d2]) by (vm_compute; reflexivity).
  assert (G2 : Re.group found 2 = Some [m1; m2; m3]) by (vm_compute; reflexivity).
  assert (G3 : Re.group found 3 = Some [y1; y2; y3; y4]) by (vm_compute; reflexivity).
  assert (G4 : Re.group found 4 = Some [h1; h2]) by (vm_compute; reflexivity).
  assert (G5 : Re.group found 5 = Some [n1; n2]) by (vm_compute; reflexivity).
  assert (G6 : Re.group found 6 = Some [s1; s2]) by (vm_compute; reflexivity).
  assert (G7 : Re.group found 7 = Some [sg; z1; z2; z3; z4]) by (vm_compute; reflexivity).
  rewrite G1, G2, G3, G4, G5, G6, G7. cbn [mbind option_bind].
  rewrite HD, Hmo, HY, HH, HM, HS, Hoff. cbn [mbind option_bind].
  by rewrite option_guard_True.
Qed.

Lemma write_timestamp_text t m1 m2 m3 :
  nth (Z.to_nat (ts_month t - 1)) month_abbr [] = [m1; m2; m3] ->
  write_timestamp t =
  timestamp_text
    (digit_char (ts_day t / 10)) (digit_char (ts_day t mod 10)) m1 m2 m3
    (digit_char (ts_year t / 1000)) (digit_char (ts_year t / 100 mod 10))
    (digit_char (ts_year t / 10 mod 10)) (digit_char (ts_year t mod 10))
    (digit_char (ts_hour t / 10)) (digit_char (ts_hour t mod 10))
    (digit_char (ts_minute t / 10)) (digit_char (ts_minute t mod 10))
    (digit_char (ts_second t / 10)) (digit_char (ts_second t mod 10))
    (if ts_east t then "+" else "-")
    (digit_char (ts_zone_hours t / 10)) (digit_char (ts_zone_hours t mod 10))
    (digit_char (ts_zone_minutes t / 10)) (digit_char (ts_zone_minutes t mod 10)).
Proof. intros Hnth. unfold write_timestamp. rewrite Hnth. reflexivity. Qed.

(** [strptime] reads a valid timestamp, written the usual way, back as it
    is: in particular its hour is the hour written. *)
Lemma strptime_write_timestamp t :
  valid_timestamp t ->
  Strptime.strptime (Some (write_timestamp t)) =
  Ok (Strptime.Datetime (ts_year t) (ts_month t) (ts_day t)
        (ts_hour t) (ts_minute t) (ts_second t) (zone_offset t)).
Proof.
  intros (HY & Hmo & Hd & Hh & Hmi & Hs & Hzh & Hzm).
  destruct (month_abbr_ok _ Hmo) as (m1 & m2 & m3 & Hnth & Hb & Hidx & _).
  pose proof (days_in_month_le (ts_year t) (ts_month t)) as Hdim.
  rewrite (write_timestamp_text t m1 m2 m3 Hnth).
  set (sg := if ts_east t then "+" else "-").
  assert (Hsg : Str.mem sg ["+"; "-"] = true) by (unfold sg; by destruct (ts_east t)).
  assert (Hz3 : (0 <= ts_zone_minutes t / 10 <= 5)%Z)
    by (Z.div_mod_to_equations; lia).
  unfold Strptime.strptime.
  erewrite parse_timestamp_text; [reflexivity|..].
  - apply match_format; try (apply is_digit_digit_char, digit_rem); try done.
    + apply lang_re_d_two_digits. lia.
    + apply lang_re_Y_four_digits. lia.
    + by apply lang_re_H_two_digits.
    + by apply lang_re_M_two_digits.
    + by apply lang_re_S_two_digits.
    + apply is_digit_digit_char, digit_quot. lia.
    + by apply (between_digit_char 0 5).
  - apply (int_two_digits (ts_day t)). lia.
  - exact Hidx.
  - apply (int_four_digits (ts_year t)). lia.
  - apply (int_two_digits (ts_hour t)). lia.
  - apply (int_two_digits (ts_minute t)). lia.
  - apply (int_two_digits (ts_second t)). lia.
  - rewrite gmtoff_of_text; try (apply is_digit_digit_char, digit_rem); try done.
    + f_equal. cbn zeta.
      rewrite !digit_val_digit_char
        by (apply digit_rem || (apply digit_quot; lia)).
      unfold zone_offset, sg. cbn zeta.
      destruct (ts_east t); rewrite ?bool_decide_eq_false_2, ?bool_decide_eq_true_2 by done;
        Z.div_mod_to_equations; lia.
    + apply is_digit_digit_char, digit_quot. lia.
    + apply is_digit_digit_char, digit_quot. lia.
  - lia.
  - lia.
  - lia.
  - unfold zone_offset. cbn zeta. destruct (ts_east t); lia.
Qed.

Lemma digit_timestamp_char c :
  Chars.is_digit c = true -> timestamp_char c = true.
Proof.
  intros Hc. unfold timestamp_char, Str.mem. cbn [existsb].
  rewrite !bool_decide_eq_false_2; [done|..]; by apply is_digit_not.
Qed.

(** A written timestamp is not empty and holds no bracket and no newline. *)
Lemma write_timestamp_chars t :
  valid_timestamp t ->
  write_timestamp t ≠ [] /\ ("[" ∉ write_timestamp t) /\
  ("]" ∉ write_timestamp t) /\ (newline ∉ write_timestamp t).
Proof.
  intros (HY & Hmo & Hd & Hh & Hmi & Hs & Hzh & Hzm).
  destruct (month_abbr_ok _ Hmo) as (m1 & m2 & m3 & Hnth & _ & _ & Hch).
  pose proof (days_in_month_le (ts_year t) (ts_month t)) as Hdim.
  rewrite (write_timestamp_text t m1 m2 m3 Hnth).
  cbn [forallb] in Hch.
  apply andb_prop in Hch as [H1 Hch]. apply andb_prop in Hch as [H2 Hch].
  apply andb_prop in Hch as [H3 _].
  assert (Hall : Forall (fun c => timestamp_char c = true)
            (timestamp_text
               (digit_char (ts_day t / 10)) (digit_char (ts_day t mod 10)) m1 m2 m3
               (digit_char (ts_year t / 1000)) (digit_char (ts_year t / 100 mod 10))
               (digit_char (ts_year t / 10 mod 10)) (digit_char (ts_year t mod 10))
               (digit_char (ts_hour t / 10)) (digit_char (ts_hour t mod 10))
               (digit_char (ts_minute t / 10)) (digit_char (ts_minute t mod 10))
               (digit_char (ts_second t / 10)) (digit_char (ts_second t mod 10))
               (if ts_east t then "+" else "-")
               (digit_char (ts_zone_hours t / 10)) (digit_char (ts_zone_hours t mod 10))
               (digit_char (ts_zone_minutes t / 10))
               (digit_char (ts_zone_minutes t mod 10)))).
  { unfold timestamp_text.
    repeat (apply Forall_cons; split); try apply Forall_nil;
      try reflexivity; try assumption;
      try (apply digit_timestamp_char, is_digit_digit_char;
           Z.div_mod_to_equations; lia).
    by destruct (ts_east t). }
  rewrite Forall_forall in Hall.
  split; [done|].
  split; [|split]; intros Hin; by apply Hall in Hin.
Qed.

(** ** [get_hour] on a line with one bracketed timestamp *)

(** Where a character that [l2] does not hold stands in [l2 ++ c :: r2]. *)
Lemma split_at_first (c : ascii) l2 : forall l1 r1 r2,
  l1 ++ c :: r1 = l2 ++ c :: r2 -> c ∉ l2 ->
  (l1 = l2 /\ r1 = r2) \/ (exists k, l1 = l2 ++ c :: k /\ r2 = k ++ c :: r1).
Proof.
  induction l2 as [|d l2 IH]; intros l1 r1 r2 Heq Hc.
  - destruct l1 as [|e l1]; simpl in Heq.
    + left. by injection Heq.
    + right. injection Heq as -> <-. by exists l1.
  - destruct l1 as [|e l1]; simpl in Heq.
    + injection Heq as <- _. exfalso. apply Hc. by left.
    + injection Heq as -> Heq.
      destruct (IH l1 r1 r2 Heq) as [[-> ->]|(k & -> & ->)].
      * intros Hin. apply Hc. by right.
      * by left.
      * right. by exists k.
Qed.

Lemma lang_Plus_Dot w :
  w ≠ [] -> newline ∉ w -> lang (Re.Plus Re.Dot) w.
Proof.
  intros Hne Hnl. destruct w as [|c w]; [done|].
  assert (Hdot : forall d, d ∈ c :: w ->
            negb (bool_decide (d = "010")) = true).
  { intros d Hd. apply negb_true_iff, bool_decide_eq_false. by intros ->. }
  exists [c], w. split; [done|]. split.
  - exists c. split; [done|]. apply Hdot. by left.
  - exists (map (fun d => [d]) w). split.
    + clear. induction w as [|d w IH]; [done|]. simpl. by rewrite <- IH.
    + apply Forall_map, Forall_forall. intros d Hd. split; [done|].
      exists d. split; [done|]. apply Hdot. by right.
Qed.

(** On a line whose only brackets around the timestamp are the timestamp's
    own, the pattern's group is the timestamp. *)
Lemma search_hour_pattern pre ts post :
  "[" ∉ pre -> "[" ∉ ts -> "]" ∉ ts -> "]" ∉ post ->
  ts ≠ [] -> newline ∉ ts ->
  exists m, Re.search hour_pattern (pre ++ "[" :: ts ++ "]" :: post) = Some m /\
            Re.group m 1 = Some ts.
Proof.
  intros Hpre Hts1 Hts2 Hpost Hne Hnl.
  assert (Hex : is_Some (Re.search hour_pattern (pre ++ "[" :: ts ++ "]" :: post))).
  { apply search_from_is_Some.
    exists pre, ("[" :: ts ++ "]" :: post). eexists. split; [done|].
    unfold hour_pattern.
    apply (intro_plain _ _ ["["]); [done|by apply lang_Char|].
    apply (intro_group 1 _ _ ts); [done|by apply lang_Plus_Dot|].
    apply matches_Chr_intro. by apply bool_decide_eq_true. }
  destruct Hex as [m Hm]. exists m. split; [exact Hm|].
  apply search_from_Some in Hm as (pre0 & post0 & st' & Hline & Hmatch & ->).
  unfold hour_pattern in Hmatch.
  apply step_plain in Hmatch as (w0 & a0 & -> & Hw0 & Hmatch); [|done].
  apply lang_Char in Hw0 as ->.
  apply step_group in Hmatch as (w & a & -> & Hw & Hmatch); [|done].
  apply matches_Chr_inv in Hmatch as (c & Hc & [Ha _] & Hg).
  apply bool_decide_eq_true in Hc as ->. simpl in Ha, Hg.
  symmetry in Hline. simpl in Hline. rewrite Ha in Hline.
  assert (Hsame : pre0 = pre /\ w = ts).
  { apply split_at_first in Hline as [[-> Heq]|(k & -> & Heq)]; [| |done].
    - split; [done|].
      apply split_at_first in Heq as [[-> _]|(k & _ & ->)]; [done| |done].
      exfalso. apply Hpost, elem_of_app. right. by left.
    - exfalso.
      assert (Heq' : (k ++ "[" :: w) ++ "]" :: Re.after st' = ts ++ "]" :: post)
        by (by rewrite <- app_assoc).
      apply split_at_first in Heq' as [[Heq' _]|(k' & _ & ->)]; [| |done].
      + apply Hts1. rewrite <- Heq', elem_of_app. right. by left.
      + apply Hpost, elem_of_app. right. by left. }
  destruct Hsame as [-> ->].
  unfold Re.group. cbn [Re.m_groups Re.m_string]. rewrite Hg.
  cbn [Re.assoc]. rewrite bool_decide_eq_true_2 by done.
  cbn [mbind option_bind fst snd]. f_equal.
  pose proof (slice_consumed ("[" :: rev pre ++ []) ts ("]" :: post)) as Hs.
  replace (rev ("[" :: rev pre ++ []) ++ ts ++ "]" :: post)
    with (pre ++ "[" :: ts ++ "]" :: post) in Hs; [exact Hs|].
  simpl. by rewrite app_nil_r, rev_involutive, <- app_assoc.
Qed.

(** On a line with one bracketed timestamp, [get_hour] returns the hour
    written in it. *)
Lemma get_hour_write_timestamp t pre post :
  valid_timestamp t -> "[" ∉ pre -> "]" ∉ post ->
  get_hour (pre ++ "[" :: write_timestamp t ++ "]" :: post) = Ok (ts_hour t).
Proof.
  intros Hv Hpre Hpost.
  destruct (write_timestamp_chars t Hv) as (Hne & H1 & H2 & H3).
  destruct (search_hour_pattern pre (write_timestamp t) post)
    as (m & Hm & Hg); try done.
  unfold get_hour. rewrite Hm, Hg, strptime_write_timestamp by done.
  reflexivity.
Qed.

(** * The claims *)

(** C1: on the two lines of scenario A, the histogram loop returns exactly
    [{0: 1, 12: 1}] and the address loop returns exactly the set holding
    [147.96.46.52]; the same holds when each line ends with a newline, as
    the lines of a file do, and through [histbyhour] and [ipaddreses] on a
    file with these lines. *)
Theorem scenario_A_results :
  histbyhour_lines scenario_A = Ok {[0%Z := 1%Z; 12%Z := 1%Z]} /\
  ipaddreses_lines scenario_A = Ok {[lit "147.96.46.52"]} /\
  histbyhour_lines scenario_A_file = Ok {[0%Z := 1%Z; 12%Z := 1%Z]} /\
  ipaddreses_lines scenario_A_file = Ok {[lit "147.96.46.52"]} /\
  histbyhour (fun _ => Some scenario_A_file) (lit "access.log")
    = Ok {[0%Z := 1%Z; 12%Z := 1%Z]} /\
  ipaddreses (fun _ => Some scenario_A_file) (lit "access.log")
    = Ok {[lit "147.96.46.52"]}.
Proof. repeat split; vm_compute; reflexivity. Qed.

(** C2, as it stands, fails: the last quoted field of
    [line_robot_empty_quotes] is empty, yet the line has a user agent, all
    of the line before the quotes, which classifies as a bot's, and the
    address of the line is not collected. *)
Lemma empty_quoted_field_classed_bot :
  final_quoted line_robot_empty_quotes [] /\
  get_user_agent line_robot_empty_quotes = Some (lit "1.2.3.4 robot") /\
  is_bot (get_user_agent line_robot_empty_quotes) = true /\
  get_ipaddr line_robot_empty_quotes = Ok (lit "1.2.3.4") /\
  ipaddreses_lines [line_robot_empty_quotes] = Ok ∅.
Proof.
  split; [|repeat split; vm_compute; reflexivity].
  exists (lit "1.2.3.4 robot "), []. split; [reflexivity|].
  split; apply not_elem_of_nil.
Qed.

(** C2, amended: when every line that is not a bot's has an address, the
    address loop returns the set of the addresses of the lines whose user
    agent does not classify as a bot. A line without a user agent counts as
    not a bot's and its address is in the set; a line that ends in
    quote-then-space and an empty quoted field, followed by nothing or by
    the newline, has no user agent; and a line whose address is already in
    the set leaves the set as it is. *)
Theorem ipaddreses_collects_nonbot lines :
  (forall L, L ∈ lines -> is_bot (get_user_agent L) = false ->
             exists a, get_ipaddr L = Ok a) ->
  exists S, ipaddreses_lines lines = Ok S /\
    (forall a, a ∈ S <->
       exists L, L ∈ lines /\ is_bot (get_user_agent L) = false /\
                 get_ipaddr L = Ok a) /\
    (forall L a, L ∈ lines -> get_user_agent L = None ->
                 get_ipaddr L = Ok a -> a ∈ S) /\
    (forall pre post, line_end post ->
       get_user_agent (pre ++ [dquote; " "] ++ [dquote; dquote] ++ post) = None) /\
    (forall L a, a ∈ S -> get_ipaddr L = Ok a -> ip_step S L = Ok S).
Proof.
  intros Hall. destruct (ip_for_each lines ∅ Hall) as (S & HS & Hmem).
  assert (Hmem' : forall a, a ∈ S <->
            exists L, L ∈ lines /\ is_bot (get_user_agent L) = false /\
                      get_ipaddr L = Ok a).
  { intros a. rewrite Hmem. split; [|by right].
    intros [H|H]; [by apply not_elem_of_empty in H | exact H]. }
  exists S. split; [exact HS|]. split; [exact Hmem'|]. split; [|split].
  - intros L a HL Hua Ha. apply Hmem'. exists L. by rewrite Hua.
  - intros pre post Hpost.
    apply (get_user_agent_quoted pre [] post); [apply not_elem_of_nil| |exact Hpost].
    by intros c [H|H].
  - intros L a Ha HL. destruct (is_bot (get_user_agent L)) eqn:Hb.
    + by apply ip_step_bot.
    + rewrite (ip_step_nonbot _ _ a) by done. f_equal.
      by apply subseteq_union_1_L, singleton_subseteq_l.
Qed.

Lemma ipaddreses_collects_nonbot_witness :
  exists S,
    ipaddreses_lines [line_googlebot; line_firefox; line_empty_agent] = Ok S /\
    lit "147.96.46.52" ∈ S.
Proof.
  destruct (ipaddreses_collects_nonbot
              [line_googlebot; line_firefox; line_empty_agent])
    as (S & HS & Hmem & Habsent & _).
  - intros L HL _.
    apply elem_of_cons in HL as [->|HL]; [vm_compute; eauto|].
    apply elem_of_cons in HL as [->|HL]; [vm_compute; eauto|].
    apply elem_of_cons in HL as [->|HL]; [vm_compute; eauto|].
    by apply elem_of_nil in HL.
  - exists S. split; [exact HS|].
    apply (Habsent line_empty_agent).
    + right. right. left.
    + vm_compute. reflexivity.
    + vm_compute. reflexivity.
Defined.

(** C3 (the code departs from it): on a well-formed line whose user agent
    holds a closing bracket, the greedy [(.+)] runs on to that last bracket,
    [strptime] is given everything up to it and raises; the hour written in
    the timestamp, which the same line with another user agent yields, is
    not returned. *)
Theorem get_hour_later_bracket :
  get_hour line_netscape = Raise ValueError /\
  get_hour line_firefox = Ok 12%Z /\
  get_hour (log_line "147.96.46.52" "10/Oct/2023:12:55:47 +0200"
                     "GET /y HTTP/1.1" "Mozilla/4.08 (Win98; I ;Nav)") = Ok 12%Z.
Proof. repeat split; vm_compute; reflexivity. Qed.

(** C4: [is_bot] holds exactly when the lowered text contains [bot]; it
    holds for [GoogleBOT] and [googlebot], not for [Mozilla/5.0 Firefox],
    and not for [None] or the empty string. *)
Theorem is_bot_iff_bot_substring :
  (forall s, is_bot (Some s) = true <-> Str.contains (lit "bot") (Str.lower s)) /\
  is_bot (Some (lit "GoogleBOT")) = true /\
  is_bot (Some (lit "googlebot")) = true /\
  is_bot (Some (lit "Mozilla/5.0 Firefox")) = false /\
  is_bot None = false /\
  is_bot (Some []) = false.
Proof. split; [exact is_bot_contains|]. repeat split; vm_compute; reflexivity. Qed.

(** C5, as it stands, fails: a user agent of two characters is not [-] and
    not empty, yet [get_user_agent] returns nothing for it; and on a line
    without the delimiter the result is not the content of the last pair of
    quotes. *)
Lemma short_user_agent_is_absent :
  final_quoted line_short_agent (lit "ab") /\
  lit "ab" ≠ lit "-" /\ lit "ab" ≠ [] /\
  get_user_agent line_short_agent = None /\
  final_quoted (lit "GET " ++ quoted "Mozilla") (lit "Mozilla") /\
  get_user_agent (lit "GET " ++ quoted "Mozilla") = Some (lit "GET " ++ dquote :: lit "Mozilla").
Proof.
  split; [|split; [|split; [|split; [|split]]]]; try done.
  - exists (lit "147.96.46.52 - - [10/Oct/2023:12:55:47 +0200] " ++
            quoted "GET /y HTTP/1.1" ++ lit " 200 100 " ++ quoted "-" ++ lit " "), [].
    split; [reflexivity|]. split; [|apply not_elem_of_nil].
    apply (bool_decide_unpack _). by vm_compute.
  - exists (lit "GET "), []. split; [reflexivity|]. split; [|apply not_elem_of_nil].
    apply (bool_decide_unpack _). by vm_compute.
Qed.

(** C5, amended: on a line that ends with the delimiter quote-then-space
    and the quoted user agent (then nothing more, or the newline), where the
    user agent holds no double quote and neither begins nor ends with a
    space or a newline, that user agent is the content of the final pair of
    quotes, and [get_user_agent] returns nothing when it is at most two
    characters long (so for [-] and for the empty one) and returns it
    exactly otherwise. *)
Theorem get_user_agent_last_field pre ua post :
  dquote ∉ ua -> trimmed ua -> line_end post ->
  final_quoted (pre ++ [dquote; " "] ++ dquote :: ua ++ dquote :: post) ua /\
  ((length ua <= 2)%nat ->
   get_user_agent (pre ++ [dquote; " "] ++ dquote :: ua ++ dquote :: post) = None) /\
  ((2 < length ua)%nat ->
   get_user_agent (pre ++ [dquote; " "] ++ dquote :: ua ++ dquote :: post) = Some ua) /\
  (ua = lit "-" \/ ua = [] ->
   get_user_agent (pre ++ [dquote; " "] ++ dquote :: ua ++ dquote :: post) = None).
Proof.
  intros Hq Ht Hpost.
  pose proof (get_user_agent_quoted pre ua post Hq Ht Hpost) as Hua.
  split; [|split; [|split]].
  - exists (pre ++ [dquote; " "]), post. split; [by rewrite <- app_assoc|].
    split; [exact Hq|]. destruct Hpost as [->| ->].
    + apply not_elem_of_nil.
    + apply (bool_decide_unpack _). by vm_compute.
  - intros Hlen. rewrite Hua.
    destruct (2 <? length ua)%nat eqn:E; [apply Nat.ltb_lt in E; lia|done].
  - intros Hlen. rewrite Hua.
    by destruct (2 <? length ua)%nat eqn:E; [|apply Nat.ltb_ge in E; lia].
  - intros [->| ->]; rewrite Hua; reflexivity.
Qed.

Lemma get_user_agent_last_field_witness :
  get_user_agent line_firefox = Some (lit "Mozilla/5.0 (X11; Ubuntu) Firefox/117.0").
Proof.
  refine (proj1 (proj2 (proj2
    (get_user_agent_last_field
       (lit "147.96.46.52 - - [10/Oct/2023:12:55:47 +0200] " ++
        quoted "GET /y HTTP/1.1" ++ lit " 404 50 " ++ quoted "-")
       (lit "Mozilla/5.0 (X11; Ubuntu) Firefox/117.0") [] _ _ _))) _).
  - apply (bool_decide_unpack _). by vm_compute.
  - intros c [H|H]; vm_compute in H; injection H as <-; split; discriminate.
  - by left.
  - vm_compute. lia.
Defined.




(** The histogram loop completes only when every line has an hour. *)
Lemma hist_for_each_Ok lines : forall m m',
  for_each hist_step lines m = Ok m' ->
  forall L, L ∈ lines -> exists h, get_hour L = Ok h.
Proof.
  induction lines as [|l lines IH]; intros m m' Hrun L HL.
  - by apply elem_of_nil in HL.
  - cbn [for_each] in Hrun. apply bind_Ok in Hrun as (m1 & Hstep & Hrun).
    apply elem_of_cons in HL as [->|HL]; [|by apply (IH m1 m')].
    unfold hist_step in Hstep. apply bind_Ok in Hstep as (h & Hh & _). eauto.
Qed.



(** C8: for lines on which the extractions the loops need succeed, the
    histogram and the address set do not depend on the order of the lines:
    on any permutation of the lines each loop returns the same value. *)
Theorem aggregations_order_independent lines lines' :
  lines ≡ₚ lines' ->
  ((forall L, L ∈ lines -> exists h, get_hour L = Ok h) ->
   exists m, histbyhour_lines lines = Ok m /\ histbyhour_lines lines' = Ok m) /\
  ((forall L, L ∈ lines -> is_bot (get_user_agent L) = false ->
              exists a, get_ipaddr L = Ok a) ->
   exists S, ipaddreses_lines lines = Ok S /\ ipaddreses_lines lines' = Ok S).
Proof.
  intros Hperm. split.
  - intros Hall.
    destruct (hist_for_each lines ∅ Hall) as (m & Hm & Hlook).
    destruct (hist_for_each lines' ∅) as (m' & Hm' & Hlook').
    { intros L HL. apply Hall. by rewrite Hperm. }
    exists m. split; [exact Hm|]. unfold histbyhour_lines. rewrite Hm'.
    f_equal. apply map_eq. intros h.
    by rewrite Hlook, Hlook', (count_hour_perm h lines lines' Hperm).
  - intros Hall.
    destruct (ip_for_each lines ∅ Hall) as (S & HS & Hmem).
    destruct (ip_for_each lines' ∅) as (S' & HS' & Hmem').
    { intros L HL. apply Hall. by rewrite Hperm. }
    exists S. split; [exact HS|]. unfold ipaddreses_lines. rewrite HS'.
    f_equal. apply set_eq. intros a. rewrite Hmem, Hmem'.
    split; (intros [H|(L & HL & H)]; [by left|right; exists L; split; [|done]]).
    + by rewrite Hperm.
    + by rewrite <- Hperm.
Qed.

Lemma aggregations_order_independent_witness :
  (exists m, histbyhour_lines [line_googlebot; line_firefox] = Ok m /\
             histbyhour_lines [line_firefox; line_googlebot] = Ok m) /\
  (exists S, ipaddreses_lines [line_googlebot; line_firefox] = Ok S /\
             ipaddreses_lines [line_firefox; line_googlebot] = Ok S).
Proof.
  destruct (aggregations_order_independent
              [line_googlebot; line_firefox] [line_firefox; line_googlebot])
    as [Hh Hi].
  - apply perm_swap.
  - split.
    + apply Hh. intros L HL.
      apply elem_of_cons in HL as [->|HL]; [vm_compute; eauto|].
      apply elem_of_cons in HL as [->|HL]; [vm_compute; eauto|].
      by apply elem_of_nil in HL.
    + apply Hi. intros L HL _.
      apply elem_of_cons in HL as [->|HL]; [vm_compute; eauto|].
      apply elem_of_cons in HL as [->|HL]; [vm_compute; eauto|].
      by apply elem_of_nil in HL.
Defined.

Lemma ip_for_each_filter lines : forall S0,
  for_each ip_step (filter (fun L => is_bot (get_user_agent L) = false) lines) S0
  = for_each ip_step lines S0.
Proof.
  induction lines as [|l lines IH]; intros S0; [reflexivity|].
  destruct (is_bot (get_user_agent l)) eqn:Hb.
  - rewrite filter_cons_False by congruence.
    cbn [for_each]. rewrite ip_step_bot by done. apply IH.
  - rewrite filter_cons_True by done.
    cbn [for_each]. destruct (ip_step S0 l) as [S1|e]; [apply IH|reflexivity].
Qed.

(** C9: the address loop extracts the address only on lines that are not a
    bot's. A bot's line leaves the set as it is whatever [get_ipaddr] would
    do on it, so when every line is a bot's or has an address the loop
    completes, with the value it returns on the other lines alone. *)
Theorem bot_lines_skip_address_extraction lines :
  (forall L, L ∈ lines ->
     is_bot (get_user_agent L) = true \/ exists a, get_ipaddr L = Ok a) ->
  (forall S L, is_bot (get_user_agent L) = true -> ip_step S L = Ok S) /\
  exists S,
    ipaddreses_lines lines = Ok S /\
    ipaddreses_lines (filter (fun L => is_bot (get_user_agent L) = false) lines)
    = Ok S.
Proof.
  intros Hall. split; [exact ip_step_bot|].
  destruct (ip_for_each lines ∅) as (S & HS & _).
  { intros L HL Hb. destruct (Hall L HL) as [H|H]; [congruence|exact H]. }
  exists S. split; [exact HS|].
  unfold ipaddreses_lines. by rewrite ip_for_each_filter.
Qed.

Lemma bot_lines_skip_address_extraction_witness :
  get_ipaddr line_bot_hostname = Raise AttributeError /\
  exists S, ipaddreses_lines [line_bot_hostname; line_firefox] = Ok S.
Proof.
  split; [vm_compute; reflexivity|].
  destruct (bot_lines_skip_address_extraction [line_bot_hostname; line_firefox])
    as (_ & S & HS & _).
  - intros L HL.
    apply elem_of_cons in HL as [->|HL]; [left; vm_compute; reflexivity|].
    apply elem_of_cons in HL as [->|HL]; [right; vm_compute; eauto|].
    by apply elem_of_nil in HL.
  - exists S. exact HS.
Defined.

(** C10: on a line without the delimiter quote-then-space, when the whole
    line stripped of surrounding double quotes, spaces and newlines is
    longer than two characters, [get_user_agent] returns that stripped line,
    and the line classifies as a bot's exactly when that text, lowered,
    contains [bot]. *)
Theorem get_user_agent_whole_line line :
  ~ Str.contains [dquote; " "] line ->
  (2 < length (Str.strip [dquote; " "; newline] line))%nat ->
  get_user_agent line = Some (Str.strip [dquote; " "; newline] line) /\
  (is_bot (get_user_agent line) = true <->
   Str.contains (lit "bot") (Str.lower (Str.strip [dquote; " "; newline] line))).
Proof.
  intros Hno Hlen.
  assert (Hua : get_user_agent line = Some (Str.strip [dquote; " "; newline] line)).
  { rewrite get_user_agent_no_delim by done.
    by destruct (2 <? _)%nat eqn:E; [|apply Nat.ltb_ge in E; lia]. }
  split; [exact Hua|]. rewrite Hua. apply is_bot_contains.
Qed.

Lemma contains_head_elem c sub (s : str) : Str.contains (c :: sub) s -> c ∈ s.
Proof.
  intros (pre & post & ->). apply elem_of_app. right. by left.
Qed.

Lemma get_user_agent_whole_line_witness :
  get_user_agent (lit "10.0.0.7 GET /robots.txt") = Some (lit "10.0.0.7 GET /robots.txt") /\
  is_bot (get_user_agent (lit "10.0.0.7 GET /robots.txt")) = true.
Proof.
  destruct (get_user_agent_whole_line (lit "10.0.0.7 GET /robots.txt")) as [Hua Hbot].
  - intros H. apply contains_head_elem in H. revert H.
    apply (bool_decide_unpack _). by vm_compute.
  - vm_compute. lia.
  - split; [exact Hua|]. apply Hbot.
    exists (lit "10.0.0.7 get /ro"), (lit "s.txt"). vm_compute. reflexivity.
Defined.

(** * Further properties *)

(** X1: on a line with a valid timestamp written the usual way between
    brackets, no opening bracket before it and no closing bracket after it,
    [get_hour] returns the hour written in the timestamp, a number from 0
    to 23, whatever the zone offset. *)
Theorem get_hour_bracketed_timestamp t pre post :
  valid_timestamp t -> "[" ∉ pre -> "]" ∉ post ->
  get_hour (pre ++ "[" :: write_timestamp t ++ "]" :: post) = Ok (ts_hour t) /\
  (0 <= ts_hour t <= 23)%Z.
Proof.
  intros Hv Hpre Hpost. split; [by apply get_hour_write_timestamp|].
  by destruct Hv as (_ & _ & _ & Hh & _).
Qed.

Lemma get_hour_bracketed_timestamp_witness : get_hour line_firefox = Ok 12%Z.
Proof.
  refine (proj1 (get_hour_bracketed_timestamp
                   (Timestamp 10 10 2023 12 55 47 true 2 0)
                   (lit "147.96.46.52 - - ")
                   (lit " " ++ quoted "GET /y HTTP/1.1" ++ lit " 404 50 " ++
                    quoted "-" ++ lit " " ++
                    quoted "Mozilla/5.0 (X11; Ubuntu) Firefox/117.0") _ _ _)).
  - unfold valid_timestamp. repeat split; by vm_compute.
  - apply (bool_decide_unpack _). by vm_compute.
  - apply (bool_decide_unpack _). by vm_compute.
Defined.

(** X2: when every line has an hour, the histogram maps each hour to the
    number of lines with that hour, and has no key for an hour that no line
    has. *)
Theorem histbyhour_counts lines :
  (forall L, L ∈ lines -> exists h, get_hour L = Ok h) ->
  exists m, histbyhour_lines lines = Ok m /\
    forall h, m !! h =
      if (count_hour h lines =? 0)%Z then None else Some (count_hour h lines).
Proof.
  intros Hall. destruct (hist_for_each lines ∅ Hall) as (m & Hm & Hlook).
  exists m. split; [exact Hm|]. intros h. rewrite Hlook, lookup_empty.
  unfold add_count. by destruct (count_hour h lines =? 0)%Z.
Qed.

Lemma histbyhour_counts_witness :
  exists m, histbyhour_lines scenario_A = Ok m /\ m !! 12%Z = Some 1%Z.
Proof.
  destruct (histbyhour_counts scenario_A) as (m & Hm & Hlook).
  - intros L HL.
    apply elem_of_cons in HL as [->|HL]; [vm_compute; eauto|].
    apply elem_of_cons in HL as [->|HL]; [vm_compute; eauto|].
    by apply elem_of_nil in HL.
  - exists m. split; [exact Hm|]. rewrite Hlook. vm_compute. reflexivity.
Defined.

(** ** Which exceptions the extraction functions raise *)

Lemma lang_Plus_Dot_inv w : lang (Re.Plus Re.Dot) w -> w ≠ [] /\ (newline ∉ w).
Proof.
  intros Hw. apply lang_Plus_Chr in Hw as (c & w' & -> & Hc & Hw').
  split; [done|]. intros Hin.
  assert (Hall : Forall (fun d => negb (bool_decide (d = "010")) = true) (c :: w'))
    by (by constructor).
  rewrite Forall_forall in Hall. specialize (Hall _ Hin).
  by rewrite bool_decide_eq_true_2 in Hall.
Qed.

(** The pattern of [get_hour] matches somewhere exactly on the lines with a
    bracket pair, and its group then takes part in the match. *)
Lemma search_hour_pattern_is_Some line :
  is_Some (Re.search hour_pattern line) <-> has_bracket_pair line.
Proof.
  unfold Re.search. rewrite search_from_is_Some. split.
  - intros (pre & post & st' & -> & Hm). unfold hour_pattern in Hm.
    apply step_plain in Hm as (w0 & a0 & -> & Hw0 & Hm); [|done].
    apply lang_Char in Hw0 as ->.
    apply step_group in Hm as (w & a & -> & Hw & Hm); [|done].
    apply matches_Chr_inv in Hm as (c & Hc & [Ha _] & _).
    apply bool_decide_eq_true in Hc as ->. simpl in Ha.
    apply lang_Plus_Dot_inv in Hw as [Hne Hnl].
    exists pre, w, (Re.after st'). by rewrite Ha.
  - intros (pre & w & post & -> & Hne & Hnl).
    exists pre, ("[" :: w ++ "]" :: post). eexists. split; [done|].
    unfold hour_pattern.
    apply (intro_plain _ _ ["["]); [done|by apply lang_Char|].
    apply (intro_group 1 _ _ w); [done|by apply lang_Plus_Dot|].
    apply matches_Chr_intro. by apply bool_decide_eq_true.
Qed.

Lemma search_hour_pattern_group line m :
  Re.search hour_pattern line = Some m -> is_Some (Re.group m 1).
Proof.
  intros Hs. apply search_from_Some in Hs as (pre & post & st' & -> & Hm & ->).
  unfold hour_pattern in Hm.
  apply step_plain in Hm as (w0 & a0 & -> & Hw0 & Hm); [|done].
  apply step_group in Hm as (w & a & -> & Hw & Hm); [|done].
  apply matches_Chr_inv in Hm as (c & Hc & _ & Hg).
  unfold Re.group. cbn [Re.m_groups]. rewrite Hg. cbn [Re.groups Re.assoc].
  rewrite bool_decide_eq_true_2 by done. by eexists.
Qed.

Lemma get_hour_cases line :
  (exists h, get_hour line = Ok h) \/ get_hour line = Raise ValueError \/
  (get_hour line = Raise AttributeError /\ ~ has_bracket_pair line).
Proof.
  unfold get_hour.
  destruct (Re.search hour_pattern line) as [m|] eqn:Hs.
  - destruct (search_hour_pattern_group line m Hs) as [w Hw]. rewrite Hw.
    unfold Strptime.strptime. destruct (Strptime.parse w); simpl; eauto.
  - right. right. split; [done|]. intros Hp.
    apply search_hour_pattern_is_Some in Hp as [m Hm]. congruence.
Qed.

Lemma hist_for_each_exn lines : forall m e,
  for_each hist_step lines m = Raise e -> e = AttributeError \/ e = ValueError.
Proof.
  induction lines as [|l lines IH]; intros m e; cbn [for_each]; [discriminate|].
  destruct (hist_step m l) as [m1|e1] eqn:Hstep; simpl; [apply IH|].
  intros [= ->]. unfold hist_step in Hstep.
  destruct (get_hour_cases l) as [[h Hh]|[Hh|[Hh _]]]; rewrite Hh in Hstep;
    simpl in Hstep.
  - by destruct (m !! h).
  - injection Hstep as <-. by right.
  - injection Hstep as <-. by left.
Qed.

Lemma ip_for_each_exn lines : forall S e,
  for_each ip_step lines S = Raise e -> e = AttributeError.
Proof.
  induction lines as [|l lines IH]; intros S e; cbn [for_each]; [discriminate|].
  destruct (ip_step S l) as [S1|e1] eqn:Hstep; simpl; [apply IH|].
  intros [= ->]. unfold ip_step in Hstep.
  destruct (negb (is_bot (get_user_agent l))); [|discriminate].
  destruct (get_ipaddr_cases l) as [[a Ha]|Ha]; rewrite Ha in Hstep;
    simpl in Hstep; congruence.
Qed.

Lemma ip_for_each_Ok lines : forall S S',
  for_each ip_step lines S = Ok S' ->
  forall L, L ∈ lines -> is_bot (get_user_agent L) = false ->
    exists a, get_ipaddr L = Ok a.
Proof.
  induction lines as [|l lines IH]; intros S S' Hrun L HL Hb.
  - by apply elem_of_nil in HL.
  - cbn [for_each] in Hrun. apply bind_Ok in Hrun as (S1 & Hstep & Hrun).
    apply elem_of_cons in HL as [->|HL]; [|by apply (IH S1 S')].
    unfold ip_step in Hstep. rewrite Hb in Hstep. simpl in Hstep.
    apply bind_Ok in Hstep as (a & Ha & _). eauto.
Qed.

Lemma ip_for_each_Raise lines : forall S e,
  for_each ip_step lines S = Raise e ->
  exists L, L ∈ lines /\ is_bot (get_user_agent L) = false /\
            get_ipaddr L = Raise e.
Proof.
  induction lines as [|l lines IH]; intros S e; cbn [for_each]; [discriminate|].
  destruct (ip_step S l) as [S1|e1] eqn:Hstep; simpl.
  - intros Hrun. destruct (IH _ _ Hrun) as (L & HL & H).
    exists L. split; [by right|exact H].
  - intros [= ->]. exists l. split; [by left|]. unfold ip_step in Hstep.
    destruct (is_bot (get_user_agent l)); [discriminate|]. split; [done|].
    simpl in Hstep. destruct (get_ipaddr l); simpl in Hstep; congruence.
Qed.

(** X3: [get_hour] raises [AttributeError] exactly on the lines without an
    opening bracket followed, before any newline, by at least one character
    and a closing bracket; on every other line it returns an hour or raises
    [ValueError]. It never raises [TypeError]: [strptime] is always given a
    text. *)
Theorem get_hour_outcomes line :
  (get_hour line = Raise AttributeError <-> ~ has_bracket_pair line) /\
  (has_bracket_pair line ->
   (exists h, get_hour line = Ok h) \/ get_hour line = Raise ValueError) /\
  get_hour line ≠ Raise TypeError /\ get_hour line ≠ Raise FileNotFoundError.
Proof.
  assert (Hpair : has_bracket_pair line -> get_hour line ≠ Raise AttributeError).
  { intros Hp. apply search_hour_pattern_is_Some in Hp as [m Hm].
    unfold get_hour. rewrite Hm.
    destruct (search_hour_pattern_group line m Hm) as [w ->].
    unfold Strptime.strptime. by destruct (Strptime.parse w). }
  assert (Hnopair : ~ has_bracket_pair line -> get_hour line = Raise AttributeError).
  { intros Hn. unfold get_hour.
    destruct (Re.search hour_pattern line) as [m|] eqn:Hs; [|done].
    exfalso. apply Hn, search_hour_pattern_is_Some. by eexists. }
  split; [|split; [|split]].
  - split; [|exact Hnopair]. intros Hh Hp. by apply Hpair in Hp.
  - intros Hp. apply Hpair in Hp.
    destruct (get_hour_cases line) as [?|[?|[? _]]]; [by left|by right|done].
  - destruct (get_hour_cases line) as [[h Hh]|[Hh|[Hh _]]]; by rewrite Hh.
  - destruct (get_hour_cases line) as [[h Hh]|[Hh|[Hh _]]]; by rewrite Hh.
Qed.

(** X4: [histbyhour] raises [FileNotFoundError] exactly when [open] does;
    on a file that opens and yields its lines, whatever it raises is the
    [AttributeError] or the [ValueError] of [get_hour], and it returns a
    histogram exactly when every line has an hour. *)
Theorem histbyhour_exceptions fs filename :
  (histbyhour fs filename = Raise FileNotFoundError <-> fs filename = None) /\
  (forall lines, fs filename = Some lines ->
     (forall e, histbyhour fs filename = Raise e ->
        e = AttributeError \/ e = ValueError) /\
     ((exists m, histbyhour fs filename = Ok m) <->
      forall L, L ∈ lines -> exists h, get_hour L = Ok h)).
Proof.
  unfold histbyhour, histbyhour_lines.
  destruct (fs filename) as [lines|] eqn:Hfs.
  - split.
    + split; [|done]. intros H. by apply hist_for_each_exn in H as [|].
    + intros ? [= <-]. split.
      * intros e H. by apply hist_for_each_exn in H.
      * split.
        -- intros [m Hm]. by apply (hist_for_each_Ok lines ∅ m).
        -- intros Hall. destruct (hist_for_each lines ∅ Hall) as (m & Hm & _). eauto.
  - split; [done|]. done.
Qed.

(** X5: [ipaddreses] raises [FileNotFoundError] exactly when [open] does;
    on a file that opens and yields its lines it raises nothing but
    [AttributeError], and, when the lines are of ASCII characters, it
    raises exactly when some line that is not a bot's has no leading
    dotted-numeric token that ends at a word boundary: such a line is not
    skipped. *)
Theorem ipaddreses_exceptions fs filename :
  (ipaddreses fs filename = Raise FileNotFoundError <-> fs filename = None) /\
  (forall lines, fs filename = Some lines ->
     (forall e, ipaddreses fs filename = Raise e -> e = AttributeError) /\
     (Forall ascii_text lines ->
      (ipaddreses fs filename = Raise AttributeError <->
       exists L, L ∈ lines /\ is_bot (get_user_agent L) = false /\
                 forall a, ~ leading_token L a))).
Proof.
  unfold ipaddreses, ipaddreses_lines.
  destruct (fs filename) as [lines|] eqn:Hfs.
  - split.
    + split; [|done]. intros H. by apply ip_for_each_exn in H.
    + intros ? [= <-]. split.
      * intros e H. by apply ip_for_each_exn in H.
      * intros _. split.
        -- intros Hraise.
           apply ip_for_each_Raise in Hraise as (L & HL & Hb & Hr).
           exists L. split; [exact HL|]. split; [exact Hb|]. intros a Ha.
           apply get_ipaddr_succeeds in Ha as [a' Ha']. congruence.
        -- intros (L & HL & Hb & Hno).
           destruct (for_each ip_step lines ∅) as [S|e] eqn:Hrun.
           ++ destruct (ip_for_each_Ok lines ∅ S Hrun L HL Hb) as [a Ha].
              apply get_ipaddr_Ok in Ha. by apply Hno in Ha.
           ++ by apply ip_for_each_exn in Hrun as ->.
  - split; [done|]. done.
Qed.

(** ** [main] *)

Lemma test_ipaddresses_outcomes fs :
  match fs short_log with
  | None => test_ipaddresses fs = Some (Raised FileNotFoundError)
  | Some lines =>
      test_ipaddresses fs ≠ Some (Raised FileNotFoundError) /\
      (test_ipaddresses fs = None <-> ipaddreses_lines lines = Ok expected_addresses) /\
      (forall x, test_ipaddresses fs = Some x ->
         x = AssertionError \/ x = Raised AttributeError)
  end.
Proof.
  unfold test_ipaddresses, ipaddreses.
  destruct (fs short_log) as [lines|]; [|done].
  unfold ipaddreses_lines.
  destruct (for_each ip_step lines ∅) as [S|e] eqn:Hrun.
  - case_bool_decide as HS.
    + subst S. split; [done|]. split; [done|]. done.
    + split; [done|]. split; [|intros x [= <-]; by left].
      split; [done|]. intros [= ->]. done.
  - apply ip_for_each_exn in Hrun as ->.
    split; [done|]. split; [done|]. intros x [= <-]. by right.
Qed.

Lemma test_hist_outcomes fs :
  match fs short_log with
  | None => test_hist fs = Some (Raised FileNotFoundError)
  | Some lines =>
      test_hist fs ≠ Some (Raised FileNotFoundError) /\
      (test_hist fs = None <-> histbyhour_lines lines = Ok expected_hist) /\
      (forall x, test_hist fs = Some x ->
         x = AssertionError \/ x = Raised AttributeError \/ x = Raised ValueError)
  end.
Proof.
  unfold test_hist, histbyhour.
  destruct (fs short_log) as [lines|]; [|done].
  unfold histbyhour_lines.
  destruct (for_each hist_step lines ∅) as [m|e] eqn:Hrun.
  - case_bool_decide as Hm.
    + subst m. split; [done|]. split; [done|]. done.
    + split; [done|]. split; [|intros x [= <-]; by left].
      split; [done|]. intros [= ->]. done.
  - apply hist_for_each_exn in Hrun as [-> | ->];
      (split; [done|]); (split; [done|]); intros x [= <-]; auto.
Qed.

(** X6: [main] returns normally with the one record [Error found: ...] of
    the [FileNotFoundError] exactly when the file [access_short.log] is
    missing, and [FileNotFoundError] never escapes it. *)
Theorem main_missing_file fs :
  (fs short_log = None <-> main fs = (None, [LogError FileNotFoundError])) /\
  fst (main fs) ≠ Some (Raised FileNotFoundError).
Proof.
  pose proof (test_ipaddresses_outcomes fs) as Hip.
  pose proof (test_hist_outcomes fs) as Hh.
  unfold main. destruct (fs short_log) as [lines|].
  - destruct Hip as (Hip1 & _ & Hip3), Hh as (Hh1 & _ & Hh3).
    destruct (test_ipaddresses fs) as [x|].
    + destruct (Hip3 x eq_refl) as [-> | ->]; by split.
    + destruct (test_hist fs) as [x|]; [|by split].
      destruct (Hh3 x eq_refl) as [-> | [-> | ->]]; by split.
  - rewrite Hip. by split.
Qed.

(** X7: when [access_short.log] opens and yields its lines, [main] logs
    nothing; it returns normally exactly when both aggregations return the
    expected values on these lines; what escapes it otherwise is an
    [AssertionError], an [AttributeError] or a [ValueError]; and when the
    addresses are not the expected ones the outcome is that of
    [test_ipaddresses]: [test_hist] is not reached. *)
Theorem main_file_present fs lines :
  fs short_log = Some lines ->
  snd (main fs) = [] /\
  (fst (main fs) = None <->
   ipaddreses_lines lines = Ok expected_addresses /\
   histbyhour_lines lines = Ok expected_hist) /\
  (forall x, fst (main fs) = Some x ->
     x = AssertionError \/ x = Raised AttributeError \/ x = Raised ValueError) /\
  (ipaddreses_lines lines ≠ Ok expected_addresses ->
   fst (main fs) = test_ipaddresses fs).
Proof.
  intros Hfs.
  pose proof (test_ipaddresses_outcomes fs) as Hip.
  pose proof (test_hist_outcomes fs) as Hh.
  rewrite Hfs in Hip, Hh.
  destruct Hip as (Hip1 & Hip2 & Hip3), Hh as (Hh1 & Hh2 & Hh3).
  unfold main.
  destruct (test_ipaddresses fs) as [x|] eqn:Hti.
  - assert (Hne : ipaddreses_lines lines ≠ Ok expected_addresses).
    { intros H. by apply Hip2 in H. }
    destruct (Hip3 x eq_refl) as [-> | ->]; cbn [fst snd].
    + split; [done|]. split; [|split; [|done]].
      * split; [done|]. by intros [? _].
      * intros x [= <-]. by left.
    + split; [done|]. split; [|split; [|done]].
      * split; [done|]. by intros [? _].
      * intros x [= <-]. right. by left.
  - assert (Hok : ipaddreses_lines lines = Ok expected_addresses) by by apply Hip2.
    destruct (test_hist fs) as [x|] eqn:Hth.
    + assert (Hne : histbyhour_lines lines ≠ Ok expected_hist).
      { intros H. by apply Hh2 in H. }
      destruct (Hh3 x eq_refl) as [-> | [-> | ->]]; cbn [fst snd];
        (split; [done|]); (split; [|split; [|done]]);
        try (split; [done|]; by intros [_ ?]); intros x [= <-]; auto.
    + cbn [fst snd]. split; [done|]. split; [|split; [done|done]].
      split; [|done]. intros _. split; [done|]. by apply Hh2.
Qed.

Lemma main_file_present_witness :
  main (fun _ => Some short_log_lines) = (None, []).
Proof.
  destruct (main_file_present (fun _ => Some short_log_lines) short_log_lines
              eq_refl) as (Hlog & Hret & _).
  destruct (main (fun _ => Some short_log_lines)) as [escaped log].
  cbn [fst snd] in Hlog, Hret. subst log. f_equal.
  apply Hret. split; vm_compute; reflexivity.
Defined.

(** ** The order in which the matcher tries things *)

Section Priority.
Context {A : Type}.
Implicit Types (k : Re.mstate -> option A) (st : Re.mstate).

(** When a pattern can match in one way only, the matcher goes on from
    there. *)
Lemma run_unique r st st0 k :
  matches r st st0 -> (forall st', matches r st st' -> st' = st0) ->
  Re.run r st k = k st0.
Proof.
  intros Hm Huniq. destruct (Re.run r st k) as [x|] eqn:Hrun.
  - apply run_sound in Hrun as (st' & Hm' & Hk). by rewrite <- (Huniq _ Hm').
  - symmetry. by apply (run_None r st k Hrun).
Qed.

(** When no match makes the continuation succeed, the matcher fails. *)
Lemma run_fails r st k :
  (forall st', matches r st st' -> k st' = None) -> Re.run r st k = None.
Proof.
  intros Hall. destruct (Re.run r st k) as [x|] eqn:Hrun; [|done].
  apply run_sound in Hrun as (st' & Hm & Hk). rewrite (Hall _ Hm) in Hk. done.
Qed.

Lemma star_loop_ext (body : Re.mstate -> (Re.mstate -> option A) -> option A) :
  (forall st k1 k2, (forall st', k1 st' = k2 st') -> body st k1 = body st k2) ->
  forall fuel st k1 k2,
    (forall st', k1 st' = k2 st') ->
    Re.star_loop body k1 fuel st = Re.star_loop body k2 fuel st.
Proof.
  intros Hbody. induction fuel as [|fuel IH]; intros st k1 k2 Hk; simpl; [done|].
  rewrite (Hbody st _ (fun st' =>
    if (length (Re.after st') <? length (Re.after st))%nat
    then Re.star_loop body k2 fuel st' else None)).
  - by rewrite Hk.
  - intros st'. destruct (_ <? _)%nat; [by apply IH|done].
Qed.

Lemma run_ext r : forall st k1 k2,
  (forall st', k1 st' = k2 st') -> Re.run r st k1 = Re.run r st k2.
Proof.
  induction r as [|p| | |r1 IH1 r2 IH2|r1 IH1 r2 IH2|r IH|i r IH];
    intros st k1 k2 Hk; cbn [Re.run].
  - done.
  - destruct (Re.after st) as [|c rest]; [done|]. by destruct (p c).
  - by destruct (Re.before st).
  - by destruct (Re.at_boundary st).
  - apply IH1. intros st'. by apply IH2.
  - by rewrite (IH1 st k1 k2 Hk), (IH2 st k1 k2 Hk).
  - by apply star_loop_ext.
  - apply IH. intros st'. done.
Qed.

(** More rounds than the text has characters make no difference. *)
Lemma star_loop_fuel r : forall f1 f2 st k,
  (length (Re.after st) <= f1)%nat -> (length (Re.after st) <= f2)%nat ->
  Re.star_loop (Re.run r) k f1 st = Re.star_loop (Re.run r) k f2 st.
Proof.
  assert (Hzero : forall f st k, length (Re.after st) = 0%nat ->
            Re.star_loop (Re.run r) k f st = k st).
  { intros [|f] st k Hlen; simpl; [done|].
    rewrite run_fails; [done|]. intros st' _. rewrite Hlen. done. }
  induction f1 as [|f1 IH]; intros f2 st k H1 H2.
  - rewrite !Hzero by lia. done.
  - destruct f2 as [|f2]; [rewrite !Hzero by lia; done|].
    simpl. erewrite run_ext; [reflexivity|].
    intros st'. simpl.
    destruct (length (Re.after st') <? length (Re.after st))%nat eqn:Hlt; [|done].
    apply Nat.ltb_lt in Hlt. apply IH; lia.
Qed.

(** A repetition whose body matches in one way only, taking something:
    first the repetition from there, otherwise the text as it is. *)
Lemma run_Star_step r st st1 k :
  matches r st st1 -> (forall st', matches r st st' -> st' = st1) ->
  (length (Re.after st1) < length (Re.after st))%nat ->
  Re.run (Re.Star r) st k =
  match Re.run (Re.Star r) st1 k with
  | Some x => Some x
  | None => k st
  end.
Proof.
  intros Hm Huniq Hlt. cbn [Re.run].
  destruct (length (Re.after st)) as [|f] eqn:Hlen; [lia|].
  cbn [Re.star_loop]. rewrite (run_unique r st st1) by done.
  rewrite Hlen. apply Nat.ltb_lt in Hlt as Hlt'. rewrite Hlt'.
  rewrite (star_loop_fuel r f (length (Re.after st1))) by lia. done.
Qed.

(** A repetition whose body does not match takes nothing. *)
Lemma run_Star_stop r st k :
  (forall st', ~ matches r st st') -> Re.run (Re.Star r) st k = k st.
Proof.
  intros Hno. cbn [Re.run].
  destruct (length (Re.after st)) as [|f]; cbn [Re.star_loop]; [done|].
  rewrite run_fails; [done|]. intros st' Hm. by apply Hno in Hm.
Qed.

Lemma matches_Chr_unique p c b a g st' :
  matches (Re.Chr p) (Re.MState b (c :: a) g) st' -> st' = Re.MState (c :: b) a g.
Proof.
  inversion 1 as [|? c' rest ? Ha Hp| | | | | | | |]; subst.
  simpl in Ha. by injection Ha as <- <-.
Qed.

(** Greedy repetition of one character class: the longest run on which the
    rest of the pattern succeeds wins. *)
Lemma run_Star_Chr_last p k x : forall u b v g,
  Forall (fun c => p c = true) u ->
  k (Re.MState (rev u ++ b) v g) = Some x ->
  (forall v1 v2, v = v1 ++ v2 -> v1 ≠ [] ->
     k (Re.MState (rev v1 ++ rev u ++ b) v2 g) = None) ->
  Re.run (Re.Star (Re.Chr p)) (Re.MState b (u ++ v) g) k = Some x.
Proof.
  induction u as [|c u IH]; intros b v g Hu Hk Hlater.
  - cbn [rev app] in *. destruct (Re.run (Re.Star (Re.Chr p)) (Re.MState b v g) k) as [y|] eqn:Hrun.
    + apply run_sound in Hrun as (st' & Hm & Hy).
      apply matches_Star_Chr_inv in Hm as (w & Hw & [Ha Hb] & Hg).
      destruct st' as [b' a' g']. simpl in Ha, Hb, Hg. subst b' g'.
      destruct w as [|d w].
      * simpl in Ha. subst a'. simpl in Hy. congruence.
      * rewrite (Hlater (d :: w) a') in Hy; done.
    + by rewrite (run_None _ _ _ Hrun _ (M_StarNil _ _)) in Hk.
  - apply Forall_cons in Hu as [Hc Hu].
    rewrite (run_Star_step _ _ (Re.MState (c :: b) (u ++ v) g)).
    + rewrite (IH (c :: b) v g); [done|done| |].
      * rewrite <- Hk. cbn [rev]. by rewrite <- app_assoc.
      * intros v1 v2 Hv Hne. rewrite <- (Hlater v1 v2 Hv Hne).
        cbn [rev]. by rewrite <- !app_assoc.
    + by apply matches_Chr_intro.
    + apply matches_Chr_unique.
    + simpl. lia.
Qed.

End Priority.

(** ** [get_hour]: the text between the first opening and the last closing
    bracket *)

(** A match takes only characters that a class of the pattern accepts. *)
Lemma matches_may_consume r st st' :
  matches r st st' ->
  exists w, consumed st st' w /\ Forall (fun c => may_consume r c = true) w.
Proof.
  induction 1 as [st|p c rest st Ha Hp|st Hb|st Hb
                 |r1 r2 st st1 st2 _ IH1 _ IH2
                 |r1 r2 st st' _ IH|r1 r2 st st' _ IH
                 |r st|r st st1 st2 _ IH1 _ _ IH2|i r st st' _ IH].
  - exists []. split; [apply consumed_nil|constructor].
  - exists [c]. split; [by split|]. by repeat constructor.
  - exists []. split; [apply consumed_nil|constructor].
  - exists []. split; [apply consumed_nil|constructor].
  - destruct IH1 as (w1 & Hc1 & Hw1), IH2 as (w2 & Hc2 & Hw2).
    exists (w1 ++ w2). split; [by eapply consumed_app|].
    apply Forall_app. split; eapply Forall_impl; eauto; simpl; intros ? ->;
      auto using orb_true_r.
  - destruct IH as (w & Hc & Hw). exists w. split; [done|].
    eapply Forall_impl; eauto. simpl. by intros ? ->.
  - destruct IH as (w & Hc & Hw). exists w. split; [done|].
    eapply Forall_impl; eauto. simpl. intros ? ->. apply orb_true_r.
  - exists []. split; [apply consumed_nil|constructor].
  - destruct IH1 as (w1 & Hc1 & Hw1), IH2 as (w2 & Hc2 & Hw2).
    exists (w1 ++ w2). split; [by eapply consumed_app|].
    apply Forall_app. by split.
  - destruct IH as (w & Hc & Hw). exists w. split; [|done].
    by apply consumed_close_group.
Qed.

(** [strptime] accepts no text with a character foreign to its format. *)
Lemma parse_may_consume w dt :
  Strptime.parse w = Some dt ->
  Forall (fun c => may_consume Strptime.format_regex c = true) w.
Proof.
  unfold Strptime.parse, Re.match_, Re.match_at. intros Hp.
  destruct (Re.run Strptime.format_regex _ _) as [found|] eqn:Hrun; [|done].
  apply run_sound in Hrun as (st' & Hm & [= <-]).
  cbn [mbind option_bind Re.m_end] in Hp.
  destruct (guard (length w = Re.pos st')) as [Hlen|] eqn:Hg; [|done].
  clear Hp Hg.
  apply matches_may_consume in Hm as (u & [Ha Hb] & Hu). simpl in Ha, Hb.
  unfold Re.pos in Hlen. rewrite Hb, app_nil_r, length_rev in Hlen.
  rewrite Ha in Hlen. rewrite length_app in Hlen.
  destruct (Re.after st'); [|simpl in Hlen; lia].
  by rewrite Ha, app_nil_r.
Qed.

Lemma strptime_foreign_char w c :
  c ∈ w -> may_consume Strptime.format_regex c = false ->
  Strptime.strptime (Some w) = Raise ValueError.
Proof.
  intros Hc Hno. unfold Strptime.strptime.
  destruct (Strptime.parse w) as [dt|] eqn:Hp; [|done].
  apply parse_may_consume in Hp. rewrite Forall_forall in Hp.
  apply Hp in Hc. congruence.
Qed.

(** [search] passes over the positions where the pattern does not match. *)
Lemma search_from_skip r s pre : forall bef rest,
  (forall p1 c p2, pre = p1 ++ c :: p2 ->
     Re.match_at r s (rev p1 ++ bef) (c :: p2 ++ rest) = None) ->
  Re.search_from r s bef (pre ++ rest) = Re.search_from r s (rev pre ++ bef) rest.
Proof.
  induction pre as [|c pre IH]; intros bef rest Hno; [done|].
  pose proof (Hno [] c pre eq_refl) as H0. cbn [rev app] in H0.
  cbn [app Re.search_from]. rewrite H0, IH.
  - cbn [rev]. by rewrite <- app_assoc.
  - intros p1 d p2 ->. rewrite <- (Hno (c :: p1) d p2 eq_refl).
    cbn [rev]. by rewrite <- app_assoc.
Qed.

Lemma search_from_here r s bef aft m :
  Re.match_at r s bef aft = Some m -> Re.search_from r s bef aft = Some m.
Proof. intros H. destruct aft; cbn [Re.search_from]; by rewrite H. Qed.

Lemma run_Seq {A : Type} r1 r2 st (k : Re.mstate -> option A) :
  Re.run (Re.Seq r1 r2) st k = Re.run r1 st (fun st' => Re.run r2 st' k).
Proof. reflexivity. Qed.

Lemma run_Group {A : Type} i r st (k : Re.mstate -> option A) :
  Re.run (Re.Group i r) st k =
  Re.run r st (fun st' => k (Re.close_group i (Re.pos st) st')).
Proof. reflexivity. Qed.

Lemma run_Chr_ok {A : Type} p c b a g (k : Re.mstate -> option A) :
  p c = true ->
  Re.run (Re.Chr p) (Re.MState b (c :: a) g) k = k (Re.MState (c :: b) a g).
Proof. intros Hp. cbn. by rewrite Hp. Qed.

Lemma run_Char_other {A : Type} c b d a g (k : Re.mstate -> option A) :
  d ≠ c -> Re.run (Re.Char c) (Re.MState b (d :: a) g) k = None.
Proof. intros Hd. cbn. by rewrite bool_decide_eq_false_2. Qed.

Lemma run_Char_same {A : Type} c b a g (k : Re.mstate -> option A) :
  Re.run (Re.Char c) (Re.MState b (c :: a) g) k = k (Re.MState (c :: b) a g).
Proof. cbn. by rewrite bool_decide_eq_true_2. Qed.

(** The group of [get_hour]'s pattern: from the first opening bracket to
    the last closing bracket. *)
Lemma search_hour_pattern_greedy pre w post :
  "[" ∉ pre -> w ≠ [] -> newline ∉ w -> "]" ∉ post ->
  exists m, Re.search hour_pattern (pre ++ "[" :: w ++ "]" :: post) = Some m /\
            Re.group m 1 = Some w.
Proof.
  intros Hpre Hne Hnl Hpost.
  set (line := pre ++ "[" :: w ++ "]" :: post).
  set (b0 := "[" :: rev pre ++ []).
  exists (Re.MkMatch line (length (rev pre ++ []))
            (length ("]" :: rev w ++ b0))
            [(1, (length b0, length (rev w ++ b0)))]%nat).
  split.
  - unfold Re.search, line. rewrite search_from_skip.
    + apply search_from_here. unfold Re.match_at, hour_pattern.
      rewrite run_Seq, run_Char_same, run_Seq, run_Group. fold b0.
      destruct w as [|c w]; [done|].
      assert (Hc : negb (bool_decide (c = "010")) = true).
      { apply negb_true_iff, bool_decide_eq_false. intros ->. apply Hnl. by left. }
      unfold Re.Plus, Re.Dot. rewrite run_Seq. cbn [app].
      rewrite run_Chr_ok by exact Hc.
      erewrite (run_Star_Chr_last _ _ _ w (c :: b0) ("]" :: post) []).
      * reflexivity.
      * apply Forall_forall. intros d Hd.
        apply negb_true_iff, bool_decide_eq_false. intros ->. apply Hnl. by right.
      * unfold Re.close_group, Re.pos. cbn [Re.before Re.after Re.groups].
        rewrite run_Char_same. cbn [Re.before Re.groups rev].
        by rewrite <- app_assoc.
      * intros v1 v2 Hv Hv1. unfold Re.close_group, Re.pos.
        cbn [Re.before Re.after Re.groups].
        destruct v1 as [|e v1]; [done|]. injection Hv as <- ->.
        destruct v2 as [|d v2]; [done|]. apply run_Char_other.
        intros ->. apply Hpost, elem_of_app. right. by left.
    + intros p1 c p2 ->. unfold Re.match_at, hour_pattern. rewrite run_Seq.
      apply run_Char_other. intros ->.
      apply Hpre, elem_of_app. right. by left.
  - unfold Re.group. cbn [Re.m_groups Re.m_string Re.assoc].
    rewrite bool_decide_eq_true_2 by done.
    cbn [mbind option_bind fst snd]. f_equal.
    pose proof (slice_consumed b0 w ("]" :: post)) as Hs.
    replace (rev b0 ++ w ++ "]" :: post) with line in Hs; [exact Hs|].
    unfold line, b0. simpl. by rewrite app_nil_r, rev_involutive, <- app_assoc.
Qed.

(** X8: on a line with no opening bracket before the first one and no
    closing bracket after the last one, [get_hour] gives [strptime] all the
    text between those two, and so raises [ValueError] whenever that text
    holds a bracket of its own. *)
Theorem get_hour_first_to_last_bracket pre w post :
  "[" ∉ pre -> w ≠ [] -> newline ∉ w -> "]" ∉ post ->
  get_hour (pre ++ "[" :: w ++ "]" :: post) =
    (dt ← Strptime.strptime (Some w); Ok (Strptime.hour dt)) /\
  ("[" ∈ w \/ "]" ∈ w ->
   get_hour (pre ++ "[" :: w ++ "]" :: post) = Raise ValueError).
Proof.
  intros Hpre Hne Hnl Hpost.
  destruct (search_hour_pattern_greedy pre w post) as (m & Hm & Hg); try done.
  assert (Heq : get_hour (pre ++ "[" :: w ++ "]" :: post) =
            (dt ← Strptime.strptime (Some w); Ok (Strptime.hour dt))).
  { unfold get_hour. by rewrite Hm, Hg. }
  split; [exact Heq|]. intros Hin. rewrite Heq.
  destruct Hin as [Hin|Hin];
    rewrite (strptime_foreign_char w _ Hin); try done; by vm_compute.
Qed.

Lemma get_hour_first_to_last_bracket_witness :
  get_hour line_netscape = Raise ValueError.
Proof.
  refine (proj2 (get_hour_first_to_last_bracket
                   (lit "147.96.46.52 - - ")
                   (lit "10/Oct/2023:12:55:47 +0200] " ++ quoted "GET /y HTTP/1.1" ++
                    lit " 200 100 " ++ quoted "-" ++ lit " " ++
                    dquote :: lit "Mozilla/4.08 [en")
                   (lit " (Win98; I ;Nav)" ++ [dquote]) _ _ _ _) _).
  - apply (bool_decide_unpack _). by vm_compute.
  - done.
  - apply (bool_decide_unpack _). by vm_compute.
  - apply (bool_decide_unpack _). by vm_compute.
  - left. apply (bool_decide_unpack _). by vm_compute.
Defined.

(** ** Dates that do not exist *)

(** When the numbers fail the range checks, [parse] fails. *)
Lemma parse_timestamp_text_reject
    d1 d2 m1 m2 m3 y1 y2 y3 y4 h1 h2 n1 n2 s1 s2 sg z1 z2 z3 z4 D mo Y H M S off :
  Re.match_ Strptime.format_regex
    (timestamp_text d1 d2 m1 m2 m3 y1 y2 y3 y4 h1 h2 n1 n2 s1 s2 sg z1 z2 z3 z4)
  = Some (Re.MkMatch
            (timestamp_text d1 d2 m1 m2 m3 y1 y2 y3 y4 h1 h2 n1 n2 s1 s2 sg z1 z2 z3 z4)
            0 26 timestamp_groups) ->
  Strptime.int [d1; d2] = Some D ->
  Strptime.index_of (Str.lower [m1; m2; m3]) Strptime.a_month 1 = Some mo ->
  Strptime.int [y1; y2; y3; y4] = Some Y ->
  Strptime.int [h1; h2] = Some H ->
  Strptime.int [n1; n2] = Some M ->
  Strptime.int [s1; s2] = Some S ->
  Strptime.gmtoff_of [sg; z1; z2; z3; z4] = Some off ->
  ~ (1 <= Y /\ D <= Strptime.days_in_month Y mo /\ S <= 59 /\ -86400 < off < 86400)%Z ->
  Strptime.parse
    (timestamp_text d1 d2 m1 m2 m3 y1 y2 y3 y4 h1 h2 n1 n2 s1 s2 sg z1 z2 z3 z4)
  = None.
Proof.
  intros Hm HD Hmo HY HH HM HS Hoff Hno.
  unfold Strptime.parse. rewrite Hm. cbn [mbind option_bind].
  rewrite option_guard_True by reflexivity.
  set (found := Re.MkMatch _ _ _ _).
  assert (G1 : Re.group found 1 = Some [d1; d2]) by (vm_compute; reflexivity).
  assert (G2 : Re.group found 2 = Some [m1; m2; m3]) by (vm_compute; reflexivity).
  assert (G3 : Re.group found 3 = Some [y1; y2; y3; y4]) by (vm_compute; reflexivity).
  assert (G4 : Re.group found 4 = Some [h1; h2]) by (vm_compute; reflexivity).
  assert (G5 : Re.group found 5 = Some [n1; n2]) by (vm_compute; reflexivity).
  assert (G6 : Re.group found 6 = Some [s1; s2]) by (vm_compute; reflexivity).
  assert (G7 : Re.group found 7 = Some [sg; z1; z2; z3; z4]) by (vm_compute; reflexivity).
  rewrite G1, G2, G3, G4, G5, G6, G7. cbn [mbind option_bind].
  rewrite HD, Hmo, HY, HH, HM, HS, Hoff. cbn [mbind option_bind].
  by rewrite option_guard_False.
Qed.

Lemma strptime_impossible_date t :
  writable_timestamp t -> ~ valid_timestamp t ->
  Strptime.strptime (Some (write_timestamp t)) = Raise ValueError.
Proof.
  intros (HY & Hmo & Hd & Hh & Hmi & Hs & Hzh & Hzm) Hnv.
  destruct (month_abbr_ok _ Hmo) as (m1 & m2 & m3 & Hnth & Hb & Hidx & _).
  rewrite (write_timestamp_text t m1 m2 m3 Hnth).
  set (sg := if ts_east t then "+" else "-").
  assert (Hsg : Str.mem sg ["+"; "-"] = true) by (unfold sg; by destruct (ts_east t)).
  assert (Hz3 : (0 <= ts_zone_minutes t / 10 <= 5)%Z)
    by (Z.div_mod_to_equations; lia).
  unfold Strptime.strptime.
  erewrite parse_timestamp_text_reject; [reflexivity|..].
  - apply match_format; try (apply is_digit_digit_char, digit_rem); try done.
    + by apply lang_re_d_two_digits.
    + by apply lang_re_Y_four_digits.
    + by apply lang_re_H_two_digits.
    + by apply lang_re_M_two_digits.
    + by apply lang_re_S_two_digits.
    + apply is_digit_digit_char, digit_quot. lia.
    + by apply (between_digit_char 0 5).
  - apply (int_two_digits (ts_day t)). lia.
  - exact Hidx.
  - by apply (int_four_digits (ts_year t)).
  - apply (int_two_digits (ts_hour t)). lia.
  - apply (int_two_digits (ts_minute t)). lia.
  - apply (int_two_digits (ts_second t)). lia.
  - rewrite gmtoff_of_text; try (apply is_digit_digit_char, digit_rem); try done.
    + apply is_digit_digit_char, digit_quot. lia.
    + apply is_digit_digit_char, digit_quot. lia.
  - intros (H1 & H2 & _). apply Hnv. unfold valid_timestamp. lia.
Qed.

Lemma write_timestamp_no_newline t :
  writable_timestamp t -> write_timestamp t ≠ [] /\ (newline ∉ write_timestamp t).
Proof.
  intros (HY & Hmo & Hd & Hh & Hmi & Hs & Hzh & Hzm).
  destruct (month_abbr_ok _ Hmo) as (m1 & m2 & m3 & Hnth & _ & _ & Hch).
  rewrite (write_timestamp_text t m1 m2 m3 Hnth).
  cbn [forallb] in Hch.
  apply andb_prop in Hch as [H1 Hch]. apply andb_prop in Hch as [H2 Hch].
  apply andb_prop in Hch as [H3 _].
  assert (Hall : Forall (fun c => timestamp_char c = true)
            (timestamp_text
               (digit_char (ts_day t / 10)) (digit_char (ts_day t mod 10)) m1 m2 m3
               (digit_char (ts_year t / 1000)) (digit_char (ts_year t / 100 mod 10))
               (digit_char (ts_year t / 10 mod 10)) (digit_char (ts_year t mod 10))
               (digit_char (ts_hour t / 10)) (digit_char (ts_hour t mod 10))
               (digit_char (ts_minute t / 10)) (digit_char (ts_minute t mod 10))
               (digit_char (ts_second t / 10)) (digit_char (ts_second t mod 10))
               (if ts_east t then "+" else "-")
               (digit_char (ts_zone_hours t / 10)) (digit_char (ts_zone_hours t mod 10))
               (digit_char (ts_zone_minutes t / 10))
               (digit_char (ts_zone_minutes t mod 10)))).
  { unfold timestamp_text.
    repeat (apply Forall_cons; split); try apply Forall_nil;
      try reflexivity; try assumption;
      try (apply digit_timestamp_char, is_digit_digit_char;
           Z.div_mod_to_equations; lia).
    by destruct (ts_east t). }
  rewrite Forall_forall in Hall.
  split; [done|]. intros Hin. by apply Hall in Hin.
Qed.

(** X9: a timestamp written the usual way whose day its month does not
    have, or whose year is 0, makes [get_hour] raise [ValueError]. *)
Theorem get_hour_impossible_date t pre post :
  writable_timestamp t -> ~ valid_timestamp t -> "[" ∉ pre -> "]" ∉ post ->
  get_hour (pre ++ "[" :: write_timestamp t ++ "]" :: post) = Raise ValueError.
Proof.
  intros Hw Hnv Hpre Hpost.
  destruct (write_timestamp_no_newline t Hw) as [Hne Hnl].
  destruct (search_hour_pattern_greedy pre (write_timestamp t) post)
    as (m & Hm & Hg); try done.
  unfold get_hour. by rewrite Hm, Hg, strptime_impossible_date.
Qed.

Lemma get_hour_impossible_date_witness :
  get_hour (lit "147.96.46.52 - - [30/Feb/2023:12:55:47 +0200] " ++
            quoted "GET /y HTTP/1.1") = Raise ValueError.
Proof.
  refine (get_hour_impossible_date
            (Timestamp 30 2 2023 12 55 47 true 2 0)
            (lit "147.96.46.52 - - ")
            (lit " " ++ quoted "GET /y HTTP/1.1") _ _ _ _).
  - unfold writable_timestamp. repeat split; by vm_compute.
  - intros (_ & _ & [_ Hday] & _). by vm_compute in Hday.
  - apply (bool_decide_unpack _). by vm_compute.
  - apply (bool_decide_unpack _). by vm_compute.
Defined.

(** ** [get_ipaddr]: which leading token *)

(** Where a run of digits ends. *)
Lemma digit_run_prefix ds : forall ds' rest a,
  Forall (fun c => Chars.is_digit c = true) ds ->
  Forall (fun c => Chars.is_digit c = true) ds' ->
  (forall c, head rest = Some c -> Chars.is_digit c = false) ->
  ds ++ rest = ds' ++ a ->
  (ds' = ds /\ a = rest) \/
  (exists d a', a = d :: a' /\ Chars.is_digit d = true).
Proof.
  induction ds as [|c ds IH]; intros ds' rest a Hds Hds' Hrest Heq.
  - destruct ds' as [|d ds']; [by left|]. exfalso. simpl in Heq. subst rest.
    apply Forall_cons in Hds' as [Hd _]. rewrite (Hrest d) in Hd; done.
  - apply Forall_cons in Hds as [Hc Hds]. destruct ds' as [|d ds'].
    + right. simpl in Heq. subst a. by exists c, (ds ++ rest).
    + injection Heq as <- Heq. apply Forall_cons in Hds' as [_ Hds'].
      destruct (IH ds' rest a Hds Hds' Hrest Heq) as [[-> ->]|H]; [by left|by right].
Qed.

Lemma word_at_digit d a : Chars.is_digit d = true -> Re.word_at (d :: a) = true.
Proof. intros Hd. unfold Re.word_at, Chars.is_word. by rewrite Hd. Qed.

Lemma not_word_not_digit rest c :
  Re.word_at rest = false -> head rest = Some c -> Chars.is_digit c = false.
Proof.
  destruct rest as [|d rest]; [done|]. intros Hw [= ->].
  destruct (Chars.is_digit c) eqn:Hc; [|done].
  by rewrite word_at_digit in Hw.
Qed.

(** The end of the address pattern, [[0-9]+\b], on a run of digits. *)
Lemma matches_digits_boundary_inv b ds rest g st' :
  Forall (fun c => Chars.is_digit c = true) ds ->
  (forall c, head rest = Some c -> Chars.is_digit c = false) ->
  matches (Re.Seq (Re.Plus Re.Digit) Re.WordB) (Re.MState b (ds ++ rest) g) st' ->
  ds ≠ [] /\ Re.word_at rest = false /\ st' = Re.MState (rev ds ++ b) rest g.
Proof.
  intros Hds Hrest Hm.
  inversion Hm as [| | | |? ? ? st1 ? H1 H2| | | | |]; subst.
  apply matches_Plus_Digit_inv in H1 as (ds' & [Hne' Hds'] & [Ha Hb] & Hg).
  inversion H2 as [| | |? Hbd| | | | | |]; subst.
  destruct st' as [b' a' g']. simpl in Ha, Hb, Hg. subst b' g'.
  unfold Re.at_boundary in Hbd. cbn [Re.before Re.after] in Hbd.
  rewrite digits_last_word in Hbd by done.
  destruct (digit_run_prefix ds ds' rest a' Hds Hds' Hrest Ha)
    as [[-> ->]|(d & a'' & -> & Hd)].
  - split; [done|]. split; [|done]. by destruct (Re.word_at rest).
  - by rewrite word_at_digit in Hbd.
Qed.

Lemma matches_digits_boundary_intro b ds rest g :
  digits ds -> Re.word_at rest = false ->
  matches (Re.Seq (Re.Plus Re.Digit) Re.WordB) (Re.MState b (ds ++ rest) g)
    (Re.MState (rev ds ++ b) rest g).
Proof.
  intros Hds Hw. eapply M_Seq; [by apply matches_Plus_Digit_intro|].
  apply M_WordB. unfold Re.at_boundary. cbn [Re.before Re.after].
  by rewrite digits_last_word, Hw.
Qed.

Lemma run_digits_boundary {A : Type} (k : Re.mstate -> option A) b ds rest g :
  digits ds -> Re.word_at rest = false ->
  Re.run (Re.Seq (Re.Plus Re.Digit) Re.WordB) (Re.MState b (ds ++ rest) g) k =
  k (Re.MState (rev ds ++ b) rest g).
Proof.
  intros Hds Hw. apply run_unique; [by apply matches_digits_boundary_intro|].
  intros st' Hm. apply matches_digits_boundary_inv in Hm as (_ & _ & ->); [done| |].
  - by destruct Hds.
  - intros c. by apply not_word_not_digit.
Qed.

Lemma run_digits_no_boundary {A : Type} (k : Re.mstate -> option A) b ds rest g :
  Forall (fun c => Chars.is_digit c = true) ds ->
  (forall c, head rest = Some c -> Chars.is_digit c = false) ->
  ds = [] \/ Re.word_at rest = true ->
  Re.run (Re.Seq (Re.Plus Re.Digit) Re.WordB) (Re.MState b (ds ++ rest) g) k = None.
Proof.
  intros Hds Hrest Hor. apply run_fails. intros st' Hm.
  apply matches_digits_boundary_inv in Hm as (Hne & Hw & _); [|done|done].
  destruct Hor as [->|Hw']; [done|congruence].
Qed.

(** One group of the address pattern matches in one way. *)
Lemma digits_no_dot ds : Forall (fun c => Chars.is_digit c = true) ds -> "." ∉ ds.
Proof.
  intros Hds Hin. rewrite Forall_forall in Hds. by apply Hds in Hin.
Qed.

Lemma matches_ip_group_here b ds rest g :
  digits ds ->
  matches ip_group (Re.MState b (ds ++ "." :: rest) g)
    (Re.MState ("." :: rev ds ++ b) rest
       ((1, (length b, length ("." :: rev ds ++ b))) :: g)%nat).
Proof.
  intros Hds.
  apply (M_Group 1 _ (Re.MState b (ds ++ "." :: rest) g)
           (Re.MState ("." :: rev ds ++ b) rest g)).
  eapply M_Seq; [by apply matches_Plus_Digit_intro|].
  apply matches_Chr_intro. by apply bool_decide_eq_true.
Qed.

Lemma matches_ip_group_unique b ds rest g st' :
  digits ds ->
  matches ip_group (Re.MState b (ds ++ "." :: rest) g) st' ->
  st' = Re.MState ("." :: rev ds ++ b) rest
          ((1, (length b, length ("." :: rev ds ++ b))) :: g)%nat.
Proof.
  intros [_ Hds] Hm.
  inversion Hm as [| | | | | | | | |? ? ? st2 HF]; subst.
  inversion HF as [| | | |? ? ? st1 ? H1 H2| | | | |]; subst.
  apply matches_Plus_Digit_inv in H1 as (ds' & [_ Hds'] & [Ha Hb] & Hg).
  apply matches_Chr_inv in H2 as (c & Hc & [Ha2 Hb2] & Hg2).
  apply bool_decide_eq_true in Hc as ->.
  destruct st1 as [b1 a1 g1], st2 as [b2 a2 g2].
  simpl in Ha, Hb, Hg, Ha2, Hb2, Hg2. subst.
  apply split_at_first in Ha as [[-> ->]|(k & -> & _)]; [done| |by apply digits_no_dot].
  exfalso. eapply (digits_no_dot _ Hds), elem_of_app. right. by left.
Qed.

Lemma rev_dotted_cons (g0 : str) gs (b : str) :
  rev (dotted_groups (g0 :: gs)) ++ b = rev (dotted_groups gs) ++ "." :: rev g0 ++ b.
Proof.
  cbn [map concat]. rewrite !rev_app_distr. cbn [rev app].
  by rewrite <- !app_assoc.
Qed.

Lemma dotted_cons (g0 : str) gs (t : str) :
  dotted_groups (g0 :: gs) ++ t = g0 ++ "." :: dotted_groups gs ++ t.
Proof. cbn [map concat]. by rewrite <- !app_assoc. Qed.

Section IpGroups.
Context {A : Type} (k : Re.mstate -> option A) (tail : str).
Hypothesis no_group : forall ds rest, digits ds -> tail ≠ ds ++ "." :: rest.

Lemma run_ip_star_stop b g :
  Re.run (Re.Star ip_group) (Re.MState b tail g) k = k (Re.MState b tail g).
Proof.
  apply run_Star_stop. intros st' Hm.
  apply matches_ip_group_inv in Hm as (ds & Hds & [Ha _]). simpl in Ha.
  apply (no_group ds (Re.after st') Hds). by rewrite Ha, <- app_assoc.
Qed.

(** The repetition of the group gives back, one at a time, the groups after
    which the rest of the pattern fails. *)
Lemma run_ip_star_here gs : forall b g,
  Forall digits gs ->
  (forall gs1 gs2 g', gs = gs1 ++ gs2 -> gs1 ≠ [] ->
     k (Re.MState (rev (dotted_groups gs1) ++ b) (dotted_groups gs2 ++ tail) g') = None) ->
  Re.run (Re.Star ip_group) (Re.MState b (dotted_groups gs ++ tail) g) k =
  k (Re.MState b (dotted_groups gs ++ tail) g).
Proof.
  induction gs as [|g0 gs IH]; intros b g Hgs Hlater.
  - apply run_ip_star_stop.
  - apply Forall_cons in Hgs as [Hg0 Hgs]. rewrite dotted_cons.
    rewrite (run_Star_step _ _ _ _ (matches_ip_group_here b g0 _ g Hg0)).
    + rewrite IH; [|done|].
      * pose proof (Hlater [g0] gs) as H0. rewrite rev_dotted_cons in H0.
        cbn [map concat rev app] in H0. by rewrite H0.
      * intros gs1 gs2 g' -> Hne.
        pose proof (Hlater (g0 :: gs1) gs2 g' eq_refl) as H0.
        rewrite rev_dotted_cons in H0. by apply H0.
    + intros st'. by apply matches_ip_group_unique.
    + cbn [Re.after]. rewrite (length_app g0). cbn [length]. lia.
Qed.

(** The last group after which the rest of the pattern succeeds wins. *)
Lemma run_ip_star_last gs1 gs2 : forall b g,
  Forall digits gs1 -> Forall digits gs2 ->
  (forall g', is_Some (k (Re.MState (rev (dotted_groups gs1) ++ b)
                           (dotted_groups gs2 ++ tail) g'))) ->
  (forall gs2a gs2b g', gs2 = gs2a ++ gs2b -> gs2a ≠ [] ->
     k (Re.MState (rev (dotted_groups gs2a) ++ rev (dotted_groups gs1) ++ b)
          (dotted_groups gs2b ++ tail) g') = None) ->
  exists g',
    Re.run (Re.Star ip_group)
      (Re.MState b (dotted_groups gs1 ++ dotted_groups gs2 ++ tail) g) k =
    k (Re.MState (rev (dotted_groups gs1) ++ b) (dotted_groups gs2 ++ tail) g').
Proof.
  induction gs1 as [|g0 gs1 IH]; intros b g Hgs1 Hgs2 Hhere Hlater.
  - exists g. cbn [map concat rev app]. by apply run_ip_star_here.
  - apply Forall_cons in Hgs1 as [Hg0 Hgs1]. rewrite dotted_cons.
    rewrite (run_Star_step _ _ _ _ (matches_ip_group_here b g0 _ g Hg0)).
    + edestruct (IH ("." :: rev g0 ++ b)) as (g' & Hrun); [done|done| | |].
      * intros g'. specialize (Hhere g'). by rewrite rev_dotted_cons in Hhere.
      * intros gs2a gs2b g' Heq Hne. specialize (Hlater gs2a gs2b g' Heq Hne).
        by rewrite rev_dotted_cons in Hlater.
      * exists g'. rewrite Hrun. rewrite rev_dotted_cons.
        specialize (Hhere g'). rewrite rev_dotted_cons in Hhere.
        by destruct Hhere as [x ->].
    + intros st'. by apply matches_ip_group_unique.
    + cbn [Re.after]. rewrite (length_app g0). cbn [length]. lia.
Qed.

(** At least one group. *)
Lemma run_ip_plus_last g0 gs1 gs2 b g :
  Forall digits (g0 :: gs1) -> Forall digits gs2 ->
  (forall g', is_Some (k (Re.MState (rev (dotted_groups (g0 :: gs1)) ++ b)
                           (dotted_groups gs2 ++ tail) g'))) ->
  (forall gs2a gs2b g', gs2 = gs2a ++ gs2b -> gs2a ≠ [] ->
     k (Re.MState (rev (dotted_groups gs2a) ++ rev (dotted_groups (g0 :: gs1)) ++ b)
          (dotted_groups gs2b ++ tail) g') = None) ->
  exists g',
    Re.run (Re.Plus ip_group)
      (Re.MState b (dotted_groups (g0 :: gs1) ++ dotted_groups gs2 ++ tail) g) k =
    k (Re.MState (rev (dotted_groups (g0 :: gs1)) ++ b) (dotted_groups gs2 ++ tail) g').
Proof.
  intros Hgs Hgs2 Hhere Hlater. apply Forall_cons in Hgs as [Hg0 Hgs1].
  unfold Re.Plus. rewrite run_Seq, dotted_cons.
  rewrite (run_unique _ _ _ _ (matches_ip_group_here b g0 _ g Hg0))
    by (intros st'; by apply matches_ip_group_unique).
  edestruct (run_ip_star_last gs1 gs2 ("." :: rev g0 ++ b)) as (g' & Hrun);
    [done|done| | |].
  - intros g'. specialize (Hhere g'). by rewrite rev_dotted_cons in Hhere.
  - intros gs2a gs2b g' Heq Hne. specialize (Hlater gs2a gs2b g' Heq Hne).
    by rewrite rev_dotted_cons in Hlater.
  - exists g'. by rewrite Hrun, rev_dotted_cons.
Qed.

End IpGroups.

Lemma search_from_Bol_later r s : forall aft bef,
  bef ≠ [] -> Re.search_from (Re.Seq Re.Bol r) s bef aft = None.
Proof.
  induction aft as [|c aft IH]; intros bef Hbef; cbn [Re.search_from];
    unfold Re.match_at; rewrite run_Seq; cbn [Re.run Re.before];
    destruct bef as [|d bef]; try done.
  by apply IH.
Qed.

(** A pattern that starts with [^] is tried at the start of the text only. *)
Lemma search_Bol r s :
  Re.search (Re.Seq Re.Bol r) s =
  Re.run r (Re.MState [] s [])
    (fun st => Some (Re.MkMatch s 0 (Re.pos st) (Re.groups st))).
Proof.
  unfold Re.search.
  assert (Hat : Re.match_at (Re.Seq Re.Bol r) s [] s =
            Re.run r (Re.MState [] s [])
              (fun st => Some (Re.MkMatch s 0 (Re.pos st) (Re.groups st)))) by done.
  destruct s as [|c s]; cbn [Re.search_from]; rewrite Hat;
    destruct (Re.run r _ _); try done.
  by apply search_from_Bol_later.
Qed.

Lemma no_group_after_digits ds c rest :
  Forall (fun d => Chars.is_digit d = true) ds ->
  Chars.is_digit c = false -> c ≠ "." ->
  forall ds' r, digits ds' -> ds ++ c :: rest ≠ ds' ++ "." :: r.
Proof.
  intros Hds Hc Hdot ds' r [_ Hds'] Heq.
  apply digit_run_prefix in Heq as [[_ [=]]|(d & a' & [= <- _] & Hd)];
    try done.
  intros ? [= <-]. done.
Qed.

Lemma no_group_nil : forall ds' r, digits ds' -> @nil ascii ≠ ds' ++ "." :: r.
Proof. intros ds' r _ H. by destruct ds'. Qed.

(** The match of the address pattern on a line that starts with the groups
    [g0 :: gs1]: the last place after them where [[0-9]+\b] fits. *)
Lemma get_ipaddr_core g0 gs1 gs2 ds rest tail :
  Forall digits (g0 :: gs1) -> Forall digits gs2 ->
  (forall ds' r, digits ds' -> tail ≠ ds' ++ "." :: r) ->
  ds ++ rest = dotted_groups gs2 ++ tail ->
  digits ds -> Re.word_at rest = false ->
  (forall gs2a gs2b b g', gs2 = gs2a ++ gs2b -> gs2a ≠ [] ->
     Re.run (Re.Seq (Re.Plus Re.Digit) Re.WordB)
       (Re.MState b (dotted_groups gs2b ++ tail) g')
       (fun st => Some (Re.MkMatch (dotted_groups (g0 :: gs1) ++ ds ++ rest) 0
                          (Re.pos st) (Re.groups st))) = None) ->
  get_ipaddr (dotted_groups (g0 :: gs1) ++ ds ++ rest) =
  Ok (dotted_groups (g0 :: gs1) ++ ds).
Proof.
  intros Hgs Hgs2 Htail Heq Hds Hw Hlater.
  unfold get_ipaddr, ipaddr_pattern. rewrite search_Bol, run_Seq.
  set (line := dotted_groups (g0 :: gs1) ++ ds ++ rest) in *.
  set (final := fun st => Some (Re.MkMatch line 0 (Re.pos st) (Re.groups st))) in *.
  destruct (run_ip_plus_last
              (fun st' => Re.run (Re.Seq (Re.Plus Re.Digit) Re.WordB) st' final)
              tail Htail g0 gs1 gs2 [] [] Hgs Hgs2) as (g' & Hrun).
  - intros g'. rewrite <- Heq, run_digits_boundary by done. by eexists.
  - intros gs2a gs2b g' Hsplit Hne. by apply Hlater with gs2a.
  - unfold line at 1. rewrite Heq, Hrun, <- Heq, run_digits_boundary by done.
    unfold final, Re.group0, Re.pos. cbn [Re.before Re.m_start Re.m_end Re.m_string].
    f_equal.
    pose proof (slice_consumed [] (dotted_groups (g0 :: gs1) ++ ds) rest) as Hs.
    rewrite rev_app_distr, <- !app_assoc in Hs. cbn [rev app length] in Hs.
    by rewrite <- Hs.
Qed.

Lemma dotted_one (x : str) (t : str) : dotted_groups [x] ++ t = x ++ "." :: t.
Proof. cbn [map concat]. by rewrite app_nil_r, <- app_assoc. Qed.

Lemma dotted_snoc gs (x : str) :
  dotted_groups (gs ++ [x]) = dotted_groups gs ++ x ++ ["."].
Proof. rewrite map_app, concat_app. cbn [map concat]. by rewrite app_nil_r. Qed.

Lemma one_group_split (x : str) gs2a gs2b :
  [x] = gs2a ++ gs2b -> gs2a ≠ [] -> gs2a = [x] /\ gs2b = [].
Proof.
  destruct gs2a as [|y gs2a]; [done|]. intros [= <- Heq] _.
  symmetry in Heq. by apply app_eq_nil in Heq as [-> ->].
Qed.

(** X10: on a line that starts with groups of digits each followed by a
    dot, then digits, then nothing or an ASCII character that is not a
    letter, a digit or an underscore, and not a dot followed by a digit,
    [get_ipaddr] returns all of that dotted text: the longest leading
    token, not a shorter one. *)
Theorem get_ipaddr_longest_token gs ds rest :
  gs ≠ [] -> Forall digits gs -> digits ds ->
  (forall c, head rest = Some c -> Chars.is_ascii c = true) ->
  Re.word_at rest = false ->
  (forall d rest', rest = "." :: d :: rest' -> Chars.is_digit d = false) ->
  get_ipaddr (dotted_groups gs ++ ds ++ rest) = Ok (dotted_groups gs ++ ds).
Proof.
  intros Hne Hgs Hds _ Hw Hmax. destruct gs as [|g0 gs1]; [done|].
  destruct rest as [|c rest'].
  - apply (get_ipaddr_core g0 gs1 [] ds [] (ds ++ [])); try done.
    + intros ds' r [_ Hds'] Heq.
      apply digit_run_prefix in Heq as [[_ [=]]|(d & a' & [= <- _] & Hd)];
        try done. by destruct Hds.
    + intros gs2a gs2b b g' Heq Hne2. symmetry in Heq.
      by apply app_eq_nil in Heq as [-> _].
  - destruct (decide (c = ".")) as [->|Hc].
    + apply (get_ipaddr_core g0 gs1 [ds] ds ("." :: rest') rest'); try done.
      * by constructor.
      * intros [|d ds'] r [Hne' Hds'] ->; [done|].
        apply Forall_cons in Hds' as [Hd _].
        rewrite (Hmax d (ds' ++ "." :: r)) in Hd; done.
      * by rewrite dotted_one.
      * intros gs2a gs2b b g' Heq Hne2.
        apply one_group_split in Heq as [-> ->]; [|done].
        apply (run_digits_no_boundary _ b [] rest' g'); [done| |by left].
        intros d Hd. destruct rest' as [|e rest'']; [done|].
        injection Hd as ->. by apply (Hmax d rest'').
    + apply (get_ipaddr_core g0 gs1 [] ds (c :: rest') (ds ++ c :: rest')); try done.
      * apply no_group_after_digits; [by destruct Hds| |done].
        by apply (not_word_not_digit (c :: rest')).
      * intros gs2a gs2b b g' Heq Hne2. symmetry in Heq.
        by apply app_eq_nil in Heq as [-> _].
Qed.

Lemma get_ipaddr_longest_token_witness :
  get_ipaddr (lit "1.2.3. foo") = Ok (lit "1.2.3").
Proof.
  refine (get_ipaddr_longest_token [lit "1"; lit "2"] (lit "3") (lit ". foo")
            _ _ _ _ _ _).
  - done.
  - repeat constructor; done.
  - split; [done|]. by repeat constructor.
  - intros c [= <-]. reflexivity.
  - reflexivity.
  - intros d rest' [= <- _]. reflexivity.
Defined.

Lemma word_not_dot c : Chars.is_word c = true -> c ≠ ".".
Proof. by intros Hc ->. Qed.

(** X11: when the dotted text at the start of the line runs into a letter
    or an underscore, [get_ipaddr] gives up the last group: it returns the
    groups before it, or raises [AttributeError] when that group was the
    only one. *)
Theorem get_ipaddr_before_word_char gs gl ds c rest :
  Forall digits (gs ++ [gl]) ->
  Forall (fun d => Chars.is_digit d = true) ds ->
  Chars.is_word c = true -> Chars.is_digit c = false ->
  get_ipaddr (dotted_groups (gs ++ [gl]) ++ ds ++ c :: rest) =
  match gs with
  | [] => Raise AttributeError
  | _ :: _ => Ok (dotted_groups gs ++ gl)
  end.
Proof.
  intros Hgs Hds Hc Hcd.
  assert (Htail : forall ds' r, digits ds' -> ds ++ c :: rest ≠ ds' ++ "." :: r).
  { apply no_group_after_digits; [done|done|by apply word_not_dot]. }
  assert (Hfail : forall (k : Re.mstate -> option Re.Match) b g',
            Re.run (Re.Seq (Re.Plus Re.Digit) Re.WordB)
              (Re.MState b (ds ++ c :: rest) g') k = None).
  { intros k b g'. apply run_digits_no_boundary; [done| |by right].
    by intros ? [= <-]. }
  apply Forall_app in Hgs as [Hgs Hgl]. apply Forall_cons in Hgl as [Hgl _].
  destruct gs as [|g0 gs1].
  - unfold get_ipaddr, ipaddr_pattern. rewrite search_Bol, run_Seq.
    cbn [app]. rewrite dotted_one. unfold Re.Plus at 1. rewrite run_Seq.
    rewrite (run_unique _ _ _ _ (matches_ip_group_here [] gl _ [] Hgl))
      by (intros st'; by apply matches_ip_group_unique).
    rewrite run_ip_star_stop by exact Htail. by rewrite Hfail.
  - rewrite dotted_snoc, <- !app_assoc.
    apply (get_ipaddr_core g0 gs1 [gl] gl ("." :: ds ++ c :: rest) (ds ++ c :: rest));
      try done.
    + by constructor.
    + by rewrite dotted_one.
    + intros gs2a gs2b b g' Heq Hne2.
      apply one_group_split in Heq as [-> ->]; [|done]. apply Hfail.
Qed.

Lemma get_ipaddr_before_word_char_witness :
  get_ipaddr (lit "1.2.3a") = Ok (lit "1.2").
Proof.
  refine (get_ipaddr_before_word_char [lit "1"] (lit "2") (lit "3") "a" [] _ _ _ _).
  - repeat constructor; done.
  - by repeat constructor.
  - reflexivity.
  - reflexivity.
Defined.

(** ** The hour [get_hour] returns *)

(** A match leaves the span of a group that the pattern does not have as it
    was. *)
Lemma matches_keeps_group r st st' i :
  matches r st st' -> has_group r i = false ->
  Re.assoc i (Re.groups st') = Re.assoc i (Re.groups st).
Proof.
  induction 1 as [st|p c rest st Ha Hp|st Hb|st Hb
                 |r1 r2 st st1 st2 _ IH1 _ IH2
                 |r1 r2 st st' _ IH|r1 r2 st st' _ IH
                 |r st|r st st1 st2 _ IH1 _ _ IH2|j r st st' _ IH];
    cbn [has_group]; intros Hno; try done.
  - apply orb_false_elim in Hno as [H1 H2]. by rewrite IH2, IH1.
  - apply orb_false_elim in Hno as [H1 H2]. by apply IH.
  - apply orb_false_elim in Hno as [H1 H2]. by apply IH.
  - by rewrite IH2, IH1.
  - apply orb_false_elim in Hno as [H1 H2]. cbn [Re.close_group Re.groups Re.assoc].
    rewrite H1. by apply IH.
Qed.

Lemma between_code lo hi c :
  Chars.between lo hi c = true ->
  (Chars.code lo <= Chars.code c <= Chars.code hi)%nat.
Proof.
  unfold Chars.between. intros H. apply andb_prop in H as [H1 H2].
  by apply Nat.leb_le in H1, H2.
Qed.

Lemma int_one c :
  Chars.is_digit c = true -> Strptime.int [c] = Some (Chars.digit_val c).
Proof.
  intros Hc. rewrite int_digits; [|done|by constructor].
  cbn [Strptime.digits_val]. rewrite Hc. f_equal.
Qed.

Lemma between_is_digit lo hi c :
  Chars.is_digit lo = true -> Chars.is_digit hi = true ->
  Chars.between lo hi c = true -> Chars.is_digit c = true.
Proof.
  intros Hlo Hhi Hc. apply between_code in Hlo, Hhi, Hc.
  unfold Chars.is_digit, Chars.between.
  apply andb_true_intro. split; apply Nat.leb_le; lia.
Qed.

(** The number a text of [%H] stands for. *)
Lemma int_lang_re_H w H :
  lang Strptime.re_H w -> Strptime.int w = Some H -> (0 <= H <= 23)%Z.
Proof.
  unfold Strptime.re_H. intros Hw. break_lang; cbn [app].
  - assert (Hd : Chars.is_digit x1 = true) by by apply (between_is_digit "0" "3").
    apply between_code in Hw.
    rewrite int_two by done. intros [= <-].
    unfold Chars.digit_val. change (Chars.code "2") with 50%nat.
    change (Chars.code "0") with 48%nat in *.
    change (Chars.code "3") with 51%nat in *. lia.
  - assert (Hd : Chars.is_digit x2 = true) by by apply (between_is_digit "0" "1").
    apply between_code in H1. pose proof (between_code _ _ _ Hw) as H2.
    rewrite int_two by done. intros [= <-].
    unfold Chars.digit_val.
    change (Chars.code "0") with 48%nat in *.
    change (Chars.code "1") with 49%nat in *.
    change (Chars.code "9") with 57%nat in *. lia.
  - pose proof (between_code _ _ _ Hw) as H2.
    rewrite int_one by done. intros [= <-].
    unfold Chars.digit_val.
    change (Chars.code "0") with 48%nat in *.
    change (Chars.code "9") with 57%nat in *. lia.
Qed.

Lemma parse_hour w dt :
  Strptime.parse w = Some dt ->
  exists found,
    Re.match_ Strptime.format_regex w = Some found /\
    Re.group found 4 ≫= Strptime.int = Some (Strptime.hour dt).
Proof.
  unfold Strptime.parse. intros Hp.
  apply bind_Some in Hp as (found & Hfound & Hp). exists found. split; [done|].
  apply bind_Some in Hp as (_ & _ & Hp).
  apply bind_Some in Hp as (d & _ & Hp).
  apply bind_Some in Hp as (b & _ & Hp).
  apply bind_Some in Hp as (Y & _ & Hp).
  apply bind_Some in Hp as (H & HH & Hp).
  apply bind_Some in Hp as (M & _ & Hp).
  apply bind_Some in Hp as (S & _ & Hp).
  apply bind_Some in Hp as (z & _ & Hp).
  apply bind_Some in Hp as (_ & _ & [= <-]). exact HH.
Qed.

(** The fourth group of a match of the format is a text of [%H]. *)
Lemma format_regex_hour_group w st' :
  matches Strptime.format_regex (Re.MState [] w []) st' ->
  exists wH, lang Strptime.re_H wH /\
    Re.group (Re.MkMatch w 0 (Re.pos st') (Re.groups st')) 4 = Some wH.
Proof.
  unfold Strptime.format_regex. cbn [Strptime.Seqs]. intros H.
  apply step_group in H as (w1 & a1 & -> & _ & H); [|done].
  apply step_plain in H as (w2 & a2 & -> & _ & H); [|done].
  apply step_group in H as (w3 & a3 & -> & _ & H); [|done].
  apply step_plain in H as (w4 & a4 & -> & _ & H); [|done].
  apply step_group in H as (w5 & a5 & -> & _ & H); [|done].
  apply step_plain in H as (w6 & a6 & -> & _ & H); [|done].
  apply step_group in H as (wH & a7 & -> & HwH & H); [|done].
  exists wH. split; [exact HwH|].
  apply matches_keeps_group with (i := 4%nat) in H; [|done].
  unfold Re.group. cbn [Re.m_groups Re.m_string]. rewrite H.
  cbn [Re.groups Re.assoc]. rewrite bool_decide_eq_true_2 by done.
  cbn [mbind option_bind fst snd]. f_equal.
  match goal with |- Str.slice (length ?b) _ _ = _ =>
    pose proof (slice_consumed b wH a7) as Hs end.
  rewrite <- Hs at 3. f_equal.
  rewrite !rev_app_distr, !rev_involutive, <- !app_assoc. done.
Qed.

Lemma parse_hour_range w dt :
  Strptime.parse w = Some dt -> (0 <= Strptime.hour dt <= 23)%Z.
Proof.
  intros Hp. apply parse_hour in Hp as (found & Hfound & Hint).
  unfold Re.match_, Re.match_at in Hfound.
  apply run_sound in Hfound as (st' & Hm & [= <-]).
  apply format_regex_hour_group in Hm as (wH & HwH & Hg).
  cbn [length] in Hint. rewrite Hg in Hint. cbn [mbind option_bind] in Hint.
  by apply (int_lang_re_H wH).
Qed.

Lemma get_hour_Ok_range line h :
  get_hour line = Ok h -> (0 <= h <= 23)%Z.
Proof.
  unfold get_hour. destruct (Re.search hour_pattern line) as [m|]; [|done].
  unfold Strptime.strptime. destruct (Re.group m 1) as [w|]; [|done].
  destruct (Strptime.parse w) as [dt|] eqn:Hp; [|done].
  intros [= <-]. by apply (parse_hour_range w).
Qed.

(** X12: whatever the line, an hour that [get_hour] returns is a number
    from 0 to 23. *)
Theorem get_hour_range line h :
  get_hour line = Ok h -> (0 <= h <= 23)%Z.
Proof. apply get_hour_Ok_range. Qed.

Lemma get_hour_range_witness : (0 <= 0 <= 23)%Z.
Proof. apply (get_hour_range line_googlebot 0). vm_compute. reflexivity. Defined.

(** ** What a histogram holds *)

Lemma count_hour_pos h lines :
  (0 < count_hour h lines)%Z -> exists L, L ∈ lines /\ get_hour L = Ok h.
Proof.
  induction lines as [|l lines IH]; cbn [count_hour]; [lia|].
  destruct (get_hour l) as [h'|e] eqn:Hl.
  - case_bool_decide as Heq.
    + subst h'. intros _. exists l. split; [by left|done].
    + intros H. destruct (IH H) as (L & HL & HLh). exists L. split; [by right|done].
  - intros H. destruct (IH H) as (L & HL & HLh). exists L. split; [by right|done].
Qed.

Lemma count_hour_le h lines : (count_hour h lines <= Z.of_nat (length lines))%Z.
Proof.
  induction lines as [|l lines IH]; cbn [count_hour length]; [lia|].
  destruct (get_hour l); [case_bool_decide|]; lia.
Qed.

(** X13: in a histogram that [histbyhour] returns, every key is an hour
    from 0 to 23 that some line has, and its count is the number of lines
    with that hour: at least 1 and at most the number of lines. *)
Theorem histbyhour_entries lines m :
  histbyhour_lines lines = Ok m ->
  forall h n, m !! h = Some n ->
    (0 <= h <= 23)%Z /\ (1 <= n <= Z.of_nat (length lines))%Z /\
    n = count_hour h lines /\ exists L, L ∈ lines /\ get_hour L = Ok h.
Proof.
  intros Hm h n Hn.
  pose proof (hist_for_each_Ok lines ∅ m Hm) as Hall.
  destruct (hist_for_each lines ∅ Hall) as (m' & Hm' & Hlook).
  unfold histbyhour_lines in Hm. rewrite Hm in Hm'. injection Hm' as <-.
  rewrite Hlook, lookup_empty in Hn. unfold add_count in Hn.
  destruct (count_hour h lines =? 0)%Z eqn:Hz; [done|].
  apply Z.eqb_neq in Hz. injection Hn as <-. cbn [default].
  pose proof (count_hour_nonneg h lines). pose proof (count_hour_le h lines).
  destruct (count_hour_pos h lines) as (L & HL & HLh); [lia|].
  split; [by apply (get_hour_Ok_range L)|]. split; [lia|]. split; [lia|]. eauto.
Qed.

Lemma histbyhour_entries_witness :
  (0 <= 12 <= 23)%Z /\ (1 <= 1 <= Z.of_nat (length scenario_A))%Z /\
  1%Z = count_hour 12 scenario_A /\
  exists L, L ∈ scenario_A /\ get_hour L = Ok 12%Z.
Proof.
  apply (histbyhour_entries scenario_A {[0%Z := 1%Z; 12%Z := 1%Z]}).
  - vm_compute; reflexivity.
  - vm_compute; reflexivity.
Defined.

Lemma hist_total_insert_new m h n :
  m !! h = None -> hist_total (<[h := n]> m) = (n + hist_total m)%Z.
Proof.
  intros Hm. unfold hist_total. rewrite map_fold_insert_L; [done| |done].
  intros. lia.
Qed.

Lemma hist_total_insert_old m h n n' :
  m !! h = Some n -> hist_total (<[h := n']> m) = (n' - n + hist_total m)%Z.
Proof.
  intros Hm. rewrite <- insert_delete_eq.
  rewrite hist_total_insert_new by apply lookup_delete_eq.
  unfold hist_total at 2. rewrite (map_fold_delete_L _ _ h n m); [|intros; lia|done].
  unfold hist_total. lia.
Qed.

Lemma hist_step_total m line m' :
  hist_step m line = Ok m' -> hist_total m' = (hist_total m + 1)%Z.
Proof.
  unfold hist_step. destruct (get_hour line) as [h|]; [|done]. simpl.
  destruct (m !! h) as [n|] eqn:Hm; intros [= <-].
  - rewrite (hist_total_insert_old m h n) by done. lia.
  - rewrite hist_total_insert_new by done. lia.
Qed.

Lemma hist_for_each_total lines : forall m m',
  for_each hist_step lines m = Ok m' ->
  hist_total m' = (hist_total m + Z.of_nat (length lines))%Z.
Proof.
  induction lines as [|l lines IH]; intros m m' Hrun.
  - injection Hrun as <-. simpl. lia.
  - cbn [for_each] in Hrun. apply bind_Ok in Hrun as (m1 & Hstep & Hrun).
    rewrite (IH _ _ Hrun), (hist_step_total _ _ _ Hstep). cbn [length]. lia.
Qed.

(** X14: the counts of a histogram that [histbyhour] returns add up to
    the number of lines of the file. *)
Theorem histbyhour_total lines m :
  histbyhour_lines lines = Ok m -> hist_total m = Z.of_nat (length lines).
Proof.
  intros Hm. apply hist_for_each_total in Hm. rewrite Hm.
  unfold hist_total. by rewrite map_fold_empty.
Qed.

Lemma histbyhour_total_witness :
  hist_total {[0%Z := 1%Z; 12%Z := 1%Z]} = 2%Z.
Proof.
  apply (histbyhour_total scenario_A {[0%Z := 1%Z; 12%Z := 1%Z]}).
  vm_compute. reflexivity.
Defined.

(** ** [get_user_agent] on any line *)

Lemma partition_None sep s a :
  Str.partition sep s = (a, None) -> ~ Str.contains sep s.
Proof.
  revert a. induction s as [|c s IH]; intros a; cbn [Str.partition].
  - destruct (Str.strip_prefix sep []) as [rest|] eqn:Hp; [discriminate|].
    intros _ (pre & post & Heq). symmetry in Heq.
    apply app_eq_nil in Heq as [_ Heq]. apply app_eq_nil in Heq as [-> _].
    discriminate.
  - destruct (Str.strip_prefix sep (c :: s)) as [rest|] eqn:Hp; [discriminate|].
    destruct (Str.partition sep s) as [a' [r|]] eqn:Hq; [discriminate|].
    intros _ (pre & post & Heq). destruct pre as [|d pre].
    + simpl in Heq. apply strip_prefix_Some in Heq. congruence.
    + injection Heq as _ Heq. apply (IH a' eq_refl). by exists pre, post.
Qed.

(** Every line ends in a text without the delimiter that is the whole line
    or what follows an occurrence of the delimiter. *)
Lemma last_field_exists line :
  exists tail, ~ Str.contains [dquote; " "] tail /\
    (line = tail \/ exists pre, line = pre ++ [dquote; " "] ++ tail).
Proof.
  remember (length line) as n eqn:Hn. revert line Hn.
  induction n as [n IH] using lt_wf_ind. intros line ->.
  destruct (Str.partition [dquote; " "] line) as [a [r|]] eqn:Hp.
  - apply partition_Some in Hp as ->.
    destruct (IH (length r)) with (line := r) as (tail & Hno & Hr); [|done|].
    { rewrite !length_app. simpl. lia. }
    exists tail. split; [done|]. right.
    destruct Hr as [->|(pre & ->)]; [by exists a|].
    exists (a ++ [dquote; " "] ++ pre). by rewrite <- !app_assoc.
  - exists line. split; [by eapply partition_None|by left].
Qed.

Lemma lstrip_spec chars s :
  exists l, s = l ++ Str.lstrip chars s /\
    Forall (fun c => Str.mem c chars = true) l /\
    forall c, head (Str.lstrip chars s) = Some c -> Str.mem c chars = false.
Proof.
  induction s as [|c s (l & Hs & Hl & Hhead)]; cbn [Str.lstrip].
  - exists []. by repeat split.
  - destruct (Str.mem c chars) eqn:Hc.
    + exists (c :: l). split; [by rewrite Hs at 1|]. split; [by constructor|done].
    + exists []. split; [done|]. split; [done|]. by intros ? [= <-].
Qed.

(** What [strip] leaves is a piece of the text that neither begins nor ends
    with a stripped character. *)
Lemma strip_spec chars s :
  exists l r, s = l ++ Str.strip chars s ++ r /\
    Forall (fun c => Str.mem c chars = true) l /\
    Forall (fun c => Str.mem c chars = true) r /\
    forall c, head (Str.strip chars s) = Some c \/ last (Str.strip chars s) = Some c ->
              Str.mem c chars = false.
Proof.
  unfold Str.strip, Str.rstrip.
  destruct (lstrip_spec chars s) as (l & Hs & Hl & Hhead).
  set (u := Str.lstrip chars s) in *.
  destruct (lstrip_spec chars (rev u)) as (l' & Hu & Hl' & Hhead').
  assert (Hu' : u = rev (Str.lstrip chars (rev u)) ++ rev l').
  { by rewrite <- rev_app_distr, <- Hu, rev_involutive. }
  exists l, (rev l'). split; [by rewrite <- Hu'|]. split; [done|].
  split; [by apply Forall_rev|].
  intros c [Hc|Hc].
  - apply Hhead. rewrite Hu'.
    destruct (rev (Str.lstrip chars (rev u))); [done|exact Hc].
  - apply Hhead'. by rewrite rev_reverse, last_reverse in Hc.
Qed.

Lemma contains_app_mid (sub l u r : str) :
  Str.contains sub u -> Str.contains sub (l ++ u ++ r).
Proof.
  intros (pre & post & ->). exists (l ++ pre), (post ++ r).
  by rewrite <- !app_assoc.
Qed.

Lemma get_user_agent_delim pre tail :
  ~ Str.contains [dquote; " "] tail ->
  get_user_agent (pre ++ [dquote; " "] ++ tail) =
  if (2 <? length (Str.strip strip_chars tail))%nat
  then Some (Str.strip strip_chars tail) else None.
Proof.
  intros Hno. rewrite <- (get_user_agent_no_delim tail Hno).
  unfold get_user_agent. by rewrite last_item_split_delim.
Qed.

(** X15: only what follows the last quote-then-space of a line matters to
    [get_user_agent]: the result is that text stripped of surrounding
    quotes, spaces and newlines when more than two characters are left, and
    nothing otherwise, whatever comes before. *)
Theorem get_user_agent_after_last_delimiter pre tail :
  ~ Str.contains [dquote; " "] tail ->
  get_user_agent (pre ++ [dquote; " "] ++ tail) =
    (if (2 <? length (Str.strip strip_chars tail))%nat
     then Some (Str.strip strip_chars tail) else None) /\
  get_user_agent (pre ++ [dquote; " "] ++ tail) = get_user_agent tail.
Proof.
  intros Hno. split; [by apply get_user_agent_delim|].
  unfold get_user_agent. by rewrite last_item_split_delim.
Qed.

Lemma get_user_agent_after_last_delimiter_witness :
  get_user_agent line_firefox =
  get_user_agent (quoted "Mozilla/5.0 (X11; Ubuntu) Firefox/117.0").
Proof.
  refine (proj2 (get_user_agent_after_last_delimiter
    (lit "147.96.46.52 - - [10/Oct/2023:12:55:47 +0200] " ++
     quoted "GET /y HTTP/1.1" ++ lit " 404 50 " ++ quoted "-")
    (quoted "Mozilla/5.0 (X11; Ubuntu) Firefox/117.0") _)).
  apply (no_delim_in_quoted (lit "Mozilla/5.0 (X11; Ubuntu) Firefox/117.0") []).
  - apply (bool_decide_unpack _). by vm_compute.
  - intros c [H|H]; vm_compute in H; injection H as <-; split; discriminate.
  - by left.
Defined.

(** X16: a user agent that [get_user_agent] returns is longer than two
    characters, is a piece of the line, holds no quote-then-space, and
    neither begins nor ends with a quote, a space or a newline; and a line
    classifies as a bot's only when the line, lowered, contains [bot]. *)
Theorem get_user_agent_result line ua :
  get_user_agent line = Some ua ->
  (2 < length ua)%nat /\ Str.contains ua line /\
  ~ Str.contains [dquote; " "] ua /\
  (forall c, head ua = Some c \/ last ua = Some c -> Str.mem c strip_chars = false) /\
  (is_bot (get_user_agent line) = true -> Str.contains (lit "bot") (Str.lower line)).
Proof.
  intros Hua.
  destruct (last_field_exists line) as (tail & Hno & Hline).
  assert (Hform : get_user_agent line =
            if (2 <? length (Str.strip strip_chars tail))%nat
            then Some (Str.strip strip_chars tail) else None).
  { destruct Hline as [->|(pre & ->)].
    - by apply get_user_agent_no_delim.
    - by apply get_user_agent_delim. }
  rewrite Hua in Hform.
  destruct (2 <? length (Str.strip strip_chars tail))%nat eqn:Hlen; [|done].
  injection Hform as ->. apply Nat.ltb_lt in Hlen.
  destruct (strip_spec strip_chars tail) as (l & r & Htail & _ & _ & Hends).
  set (ua := Str.strip strip_chars tail) in *.
  assert (Hsub : Str.contains ua line).
  { destruct Hline as [->|(pre & ->)].
    - by exists l, r.
    - exists (pre ++ [dquote; " "] ++ l), r. rewrite Htail at 1.
      by rewrite <- !app_assoc. }
  split; [done|]. split; [done|]. split; [|split; [done|]].
  - intros Hc. apply Hno. rewrite Htail. by apply contains_app_mid.
  - rewrite Hua. intros Hbot. apply is_bot_contains in Hbot.
    destruct Hsub as (p & q & ->). unfold Str.lower. rewrite !map_app.
    by apply contains_app_mid.
Qed.

Lemma get_user_agent_result_witness :
  (2 < length (lit "Mozilla/5.0 (X11; Ubuntu) Firefox/117.0"))%nat /\
  Str.contains (lit "Mozilla/5.0 (X11; Ubuntu) Firefox/117.0") line_firefox.
Proof.
  destruct (get_user_agent_result line_firefox
              (lit "Mozilla/5.0 (X11; Ubuntu) Firefox/117.0"))
    as (Hlen & Hsub & _).
  - vm_compute; reflexivity.
  - split; [exact Hlen|exact Hsub].
Defined.

(** ** The aggregations on more lines *)

Lemma for_each_app {S : Type} (body : S -> str -> result S) l1 l2 : forall s,
  for_each body (l1 ++ l2) s = (s' ← for_each body l1 s; for_each body l2 s').
Proof.
  induction l1 as [|l l1 IH]; intros s; [done|].
  cbn [app for_each]. destruct (body s l) as [s1|e]; simpl; [apply IH|done].
Qed.

Lemma count_hour_app h l1 l2 :
  count_hour h (l1 ++ l2) = (count_hour h l1 + count_hour h l2)%Z.
Proof.
  induction l1 as [|l l1 IH]; cbn [app count_hour]; [lia|].
  destruct (get_hour l); [case_bool_decide|]; lia.
Qed.

Lemma ip_for_each_mem lines S0 S :
  for_each ip_step lines S0 = Ok S ->
  forall a, a ∈ S <->
    a ∈ S0 \/ exists L, L ∈ lines /\ is_bot (get_user_agent L) = false /\
                        get_ipaddr L = Ok a.
Proof.
  intros Hrun.
  destruct (ip_for_each lines S0 (ip_for_each_Ok lines S0 S Hrun)) as (S' & HS' & Hmem).
  rewrite Hrun in HS'. by injection HS' as <-.
Qed.

Lemma ip_for_each_size lines : forall S0 S,
  for_each ip_step lines S0 = Ok S ->
  (size S <= size S0 +
     length (filter (fun L => is_bot (get_user_agent L) = false) lines))%nat.
Proof.
  induction lines as [|l lines IH]; intros S0 S Hrun.
  - injection Hrun as <-. simpl. lia.
  - cbn [for_each] in Hrun. apply bind_Ok in Hrun as (S1 & Hstep & Hrun).
    apply IH in Hrun. unfold ip_step in Hstep.
    destruct (is_bot (get_user_agent l)) eqn:Hb; simpl in Hstep.
    + injection Hstep as <-. by rewrite filter_cons_False by congruence.
    + apply bind_Ok in Hstep as (a & _ & [= <-]).
      rewrite filter_cons_True by done. cbn [length].
      assert (size ({[a]} ∪ S0) <= 1 + size S0)%nat; [|lia].
      rewrite size_union_alt, size_singleton.
      assert (size (S0 ∖ {[a]}) <= size S0)%nat; [|lia].
      by apply subseteq_size, subseteq_difference_l.
Qed.

(** X17: a set that the address loop returns holds exactly the addresses
    [get_ipaddr] finds on the lines that are not a bot's; each is a
    dotted-numeric text, and there are no more of them than such lines. *)
Theorem ipaddreses_members lines S :
  ipaddreses_lines lines = Ok S ->
  (forall a, a ∈ S <->
     exists L, L ∈ lines /\ is_bot (get_user_agent L) = false /\
               get_ipaddr L = Ok a) /\
  (forall a, a ∈ S -> dotted_numeric a) /\
  (size S <= length (filter (fun L => is_bot (get_user_agent L) = false) lines))%nat.
Proof.
  intros Hrun. unfold ipaddreses_lines in Hrun.
  pose proof (ip_for_each_mem lines ∅ S Hrun) as Hmem.
  assert (Hmem' : forall a, a ∈ S <->
            exists L, L ∈ lines /\ is_bot (get_user_agent L) = false /\
                      get_ipaddr L = Ok a).
  { intros a. rewrite Hmem. split; [|by right].
    intros [H|H]; [by apply not_elem_of_empty in H|done]. }
  split; [exact Hmem'|]. split.
  - intros a Ha. apply Hmem' in Ha as (L & _ & _ & HL).
    apply get_ipaddr_Ok in HL as (rest & _ & Hd & _). exact Hd.
  - apply ip_for_each_size in Hrun. by rewrite size_empty in Hrun.
Qed.

Lemma ipaddreses_members_witness :
  dotted_numeric (lit "147.96.46.52") /\
  (size ({[lit "147.96.46.52"]} : gset str) <=
   length (filter (fun L => is_bot (get_user_agent L) = false) scenario_A))%nat.
Proof.
  destruct (ipaddreses_members scenario_A {[lit "147.96.46.52"]})
    as (_ & Hdotted & Hsize).
  - vm_compute; reflexivity.
  - split; [|exact Hsize]. apply Hdotted. by apply elem_of_singleton.
Defined.

(** X18: the aggregations of two lists of lines one after the other: when
    both loops return on each, the histogram of the whole adds the counts
    hour by hour and the address set of the whole is the union; and a loop
    that raises on the first list raises the same on the whole. *)
Theorem aggregations_on_concatenation l1 l2 :
  (forall m1 m2, histbyhour_lines l1 = Ok m1 -> histbyhour_lines l2 = Ok m2 ->
     histbyhour_lines (l1 ++ l2) =
     Ok (union_with (fun n1 n2 => Some (n1 + n2)%Z) m1 m2)) /\
  (forall S1 S2, ipaddreses_lines l1 = Ok S1 -> ipaddreses_lines l2 = Ok S2 ->
     ipaddreses_lines (l1 ++ l2) = Ok (S1 ∪ S2)) /\
  (forall e, histbyhour_lines l1 = Raise e -> histbyhour_lines (l1 ++ l2) = Raise e) /\
  (forall e, ipaddreses_lines l1 = Raise e -> ipaddreses_lines (l1 ++ l2) = Raise e).
Proof.
  unfold histbyhour_lines, ipaddreses_lines. split; [|split; [|split]].
  - intros m1 m2 H1 H2.
    pose proof (hist_for_each_Ok l1 ∅ m1 H1) as Hall1.
    pose proof (hist_for_each_Ok l2 ∅ m2 H2) as Hall2.
    destruct (hist_for_each l1 ∅ Hall1) as (m1' & Hm1 & Hl1).
    destruct (hist_for_each l2 ∅ Hall2) as (m2' & Hm2 & Hl2).
    rewrite H1 in Hm1. injection Hm1 as <-.
    rewrite H2 in Hm2. injection Hm2 as <-.
    destruct (hist_for_each (l1 ++ l2) ∅) as (m & Hm & Hl).
    { intros L HL. apply elem_of_app in HL as [HL|HL]; auto. }
    rewrite Hm. f_equal. apply map_eq. intros h.
    rewrite lookup_union_with, Hl, Hl1, Hl2, count_hour_app, lookup_empty.
    unfold add_count.
    pose proof (count_hour_nonneg h l1). pose proof (count_hour_nonneg h l2).
    destruct (Z.eqb_spec (count_hour h l1) 0), (Z.eqb_spec (count_hour h l2) 0),
      (Z.eqb_spec (count_hour h l1 + count_hour h l2) 0);
      simpl; try lia; try done; f_equal; lia.
  - intros S1 S2 H1 H2. rewrite for_each_app, H1. simpl.
    destruct (for_each ip_step l2 S1) as [S|e] eqn:Hrun.
    + f_equal. apply set_eq. intros a.
      rewrite (ip_for_each_mem l2 S1 S Hrun a), elem_of_union.
      pose proof (ip_for_each_mem l2 ∅ S2 H2 a) as Hmem2.
      split; (intros [H|H]; [by left|right]).
      * apply Hmem2. by right.
      * apply Hmem2 in H as [H|H]; [by apply not_elem_of_empty in H|done].
    + exfalso. apply ip_for_each_Raise in Hrun as (L & HL & Hb & Hr).
      destruct (ip_for_each_Ok l2 ∅ S2 H2 L HL Hb) as [a Ha]. congruence.
  - intros e H. by rewrite for_each_app, H.
  - intros e H. by rewrite for_each_app, H.
Qed.
